(** * ZEON-Refiller: a shallow embedding of the VM pool refiller

    The development follows the layout of the repository:

    - [PendingCounter]  : src/refiller/shared/pending_counter.py
    - [Replenisher]     : app/replenisher.py (the enqueue decision of one tick)
    - [PoolView]        : app/vsphere_pool_manager.py (list_init_vms)
    - [NSX]             : source/core/VMware/NSXManager.py (parse_arp_table)
    - [Effect]          : the state-and-exception monad the last two use
    - [VSphere]         : source/core/VMware/VSphereConnection.py and
                          VSphereManager.py (power operations, clone_vm)
    - [Builder]         : src/refiller/domain/builder.py (retry_sync, CloneWorker)

    Python integers are unbounded and are modelled by [Z]; Python strings
    are modelled by [string], whose characters are read as the code points
    0..255.  External systems (vCenter, the NSX edge, the guest) are a world
    the code acts on; every call to them is recorded in a trace. *)

From Stdlib Require Import ZArith List String Ascii Bool Lia.
From stdpp Require Import base option list strings gmap.

Import ListNotations.
Local Open Scope Z_scope.

(* ===================================================================== *)
(** * PendingCounter *)
(* ===================================================================== *)

Module PendingCounter.

(** The object holds [_lock] and [_count].  Each method body runs under the
    lock and contains no suspension point, so a method is one atomic step
    on the value of [_count]. *)
Record t : Type := mk { _count : Z }.

(** [__init__]: [self._count = 0]. *)
Definition init : t := mk 0.

(** [inc]: [self._count += 1]. *)
Definition inc (c : t) : t := mk (_count c + 1).

(** [dec]: [self._count = max(0, self._count - 1)]. *)
Definition dec (c : t) : t := mk (Z.max 0 (_count c - 1)).

(** [value]: returns [self._count], the object is left as it is. *)
Definition value (c : t) : Z * t := (_count c, c).

(** [reset_to]: [self._count = max(0, int(value))]; [int] is the identity
    on an integer argument. *)
Definition reset_to (v : Z) (c : t) : t := mk (Z.max 0 v).

(** The four operations as a command language, to speak of reachable
    states. *)
Inductive op : Type :=
| Inc
| Dec
| Value
| ResetTo (v : Z).

Definition step (c : t) (o : op) : t :=
  match o with
  | Inc => inc c
  | Dec => dec c
  | Value => snd (value c)
  | ResetTo v => reset_to v c
  end.

Definition run (ops : list op) : t := fold_left step ops init.

Lemma step_nonneg (c : t) (o : op) : 0 <= _count c -> 0 <= _count (step c o).
Proof.
  intros Hc. destruct o; simpl; lia.
Qed.

Lemma fold_step_nonneg (ops : list op) (c : t) :
  0 <= _count c -> 0 <= _count (fold_left step ops c).
Proof.
  revert c. induction ops as [|o ops IH]; intros c Hc; simpl.
  - exact Hc.
  - apply IH, step_nonneg, Hc.
Qed.

(** C7. The count is non-negative in every state reachable from the initial
    one by any sequence of inc, dec, value and reset_to; dec at zero stays at
    zero, and reset_to of a negative value stores zero. *)
Theorem count_nonneg_reachable :
  (forall ops : list op, 0 <= _count (run ops)) /\
  (forall c : t, _count c = 0 -> _count (dec c) = 0) /\
  (forall (v : Z) (c : t), v < 0 -> _count (reset_to v c) = 0).
Proof.
  split; [|split].
  - intros ops. unfold run. apply fold_step_nonneg. simpl. lia.
  - intros c Hc. simpl. rewrite Hc. reflexivity.
  - intros v c Hv. simpl. lia.
Qed.

Lemma count_nonneg_reachable_witness :
  0 <= _count (run [Inc; Dec; Dec; ResetTo (-5); Value; Dec]) /\
  _count (dec (mk 0)) = 0 /\
  _count (reset_to (-5) (mk 7)) = 0.
Proof.
  destruct count_nonneg_reachable as (Hreach & Hdec & Hreset).
  split; [apply Hreach|split].
  - apply Hdec. reflexivity.
  - apply Hreset. lia.
Defined.

End PendingCounter.

(* ===================================================================== *)
(** * Replenisher: the enqueue decision of one tick *)
(* ===================================================================== *)

Module Replenisher.

(** app/config.py: the four integers the tick reads.  They are plain
    [int] fields without validators. *)
Record Config : Type := {
  min_ready_vm : Z;
  max_ready_vm : Z;
  batch_size : Z
}.

(** services/tasks.py: [CloneTask(job_id: uuid.UUID)]; a UUID is a 128-bit
    number. *)
Record CloneTask : Type := { job_id : N }.

(** A primitive step of the loop body, as the reconciler goes through it:
    which call it was, the value of the pending counter and the length of
    the queue when the call completed, and whether the call suspended the
    reconciler before it completed.  The tasks of the control plane share
    one event loop: another task runs, and can read the counter, only
    while the reconciler is suspended. *)
Inductive call : Type :=
| CallPut (task : CloneTask)
| CallInc.

Record step : Type := {
  step_call : call;
  step_pending : Z;
  step_queue_len : nat;
  step_suspended : bool
}.

(** State shared by the control-plane tasks, plus the number of UUIDs drawn
    so far and the steps the reconciler has made. *)
Record state : Type := {
  pending : PendingCounter.t;
  CLONE_QUEUE : list CloneTask;
  drawn : nat;
  steps : list step
}.

(** services/tasks.py: [CLONE_QUEUE = asyncio.Queue()], that is
    [maxsize = 0]. *)
Definition CLONE_QUEUE_maxsize : Z := 0.

(** [asyncio.Queue.full()]: never with [maxsize <= 0].  [put] waits, and so
    suspends its caller, exactly while the queue is full. *)
Definition full (maxsize : Z) (q : list CloneTask) : bool :=
  if maxsize <=? 0 then false else maxsize <=? Z.of_nat (length q).

(** [async with self._lock] in [PendingCounter]: none of its methods awaits
    between taking the lock and releasing it, so no task is suspended while
    it holds the lock; the lock is free whenever a task runs and [acquire]
    returns without suspending. *)
Definition lock_taken : bool := false.

Section Tick.

Variable cfg : Config.
(** [uuid.uuid4()]: the n-th fresh identifier drawn by the process. *)
Variable uuid4 : nat -> N.

(** [await CLONE_QUEUE.put(CloneTask(uuid.uuid4()))]: the queue is
    unbounded, the item is appended without waiting. *)
Definition put (st : state) : state :=
  let task := {| job_id := uuid4 (drawn st) |} in
  let q := CLONE_QUEUE st ++ [task] in
  {| pending := pending st;
     CLONE_QUEUE := q;
     drawn := S (drawn st);
     steps := steps st ++
       [{| step_call := CallPut task;
           step_pending := PendingCounter._count (pending st);
           step_queue_len := length q;
           step_suspended := full CLONE_QUEUE_maxsize (CLONE_QUEUE st) |}] |}.

(** [await pending.inc()]. *)
Definition inc (st : state) : state :=
  let p := PendingCounter.inc (pending st) in
  {| pending := p;
     CLONE_QUEUE := CLONE_QUEUE st;
     drawn := drawn st;
     steps := steps st ++
       [{| step_call := CallInc;
           step_pending := PendingCounter._count p;
           step_queue_len := length (CLONE_QUEUE st);
           step_suspended := lock_taken |}] |}.

(** [for _ in range(need): put; inc], by the number of iterations left. *)
Fixpoint enqueue_loop (iterations : nat) (st : state) : state :=
  match iterations with
  | O => st
  | S n => enqueue_loop n (inc (put st))
  end.

(** Lines 37-59 of [Replenisher.run]: [ready] is what [count_ready]
    returned.  [range(need)] is empty for [need <= 0], which is what
    [Z.to_nat] gives. *)
Definition tick (ready : Z) (st : state) : state :=
  let pending_count := fst (PendingCounter.value (pending st)) in
  let total := ready + pending_count in
  if total <? min_ready_vm cfg then
    let need := Z.min (batch_size cfg) (max_ready_vm cfg - total) in
    enqueue_loop (Z.to_nat need) st
  else st.

(** Number of tasks the tick added to the queue. *)
Definition enqueued (ready : Z) (st : state) : nat :=
  (length (CLONE_QUEUE (tick ready st)) - length (CLONE_QUEUE st))%nat.

Definition pending_of (st : state) : Z := PendingCounter._count (pending st).

(** The two steps of the k-th iteration of the loop, when the loop started
    with counter value [p0], queue length [q0] and [d0] UUIDs drawn: first
    the put, with the counter not yet incremented, then the inc; neither
    suspends the reconciler. *)
Definition iteration_view (p0 : Z) (q0 d0 k : nat) : list step :=
  [ {| step_call := CallPut {| job_id := uuid4 (d0 + k) |};
       step_pending := p0 + Z.of_nat k;
       step_queue_len := q0 + k + 1;
       step_suspended := false |};
    {| step_call := CallInc;
       step_pending := p0 + Z.of_nat k + 1;
       step_queue_len := q0 + k + 1;
       step_suspended := false |} ].

End Tick.

(** The reading of "inc happens before put completes": every put
    completes with a counter value that already counts it (and all earlier
    puts of the tick). *)
Definition is_put (s : step) : bool :=
  match step_call s with CallPut _ => true | CallInc => false end.

Definition put_sees_increment (p0 : Z) (obs : list step) : Prop :=
  forall (i : nat) (s : step),
    obs !! i = Some s -> is_put s = true ->
    step_pending s = p0 + Z.of_nat (length (filter (fun x => is_put x = true) (take (S i) obs))).

(** The states another task can see: those the reconciler is suspended
    in. *)
Definition seen_by_others (l : list step) : list step :=
  filter (fun s => step_suspended s = true) l.

(** Concrete runs. *)
Definition empty_state : state :=
  {| pending := PendingCounter.init; CLONE_QUEUE := []; drawn := 0; steps := [] |}.

Definition state_with_pending (p : Z) : state :=
  {| pending := PendingCounter.mk p; CLONE_QUEUE := []; drawn := 0; steps := [] |}.

Definition uuid_seq (n : nat) : N := N.of_nat n.

(** Scenario S1 of the specification: min=2, max=4, batch=3. *)
Definition cfg_s1 : Config := {| min_ready_vm := 2; max_ready_vm := 4; batch_size := 3 |}.
(** Scenario S2: min=1, max=1, batch=5. *)
Definition cfg_s2 : Config := {| min_ready_vm := 1; max_ready_vm := 1; batch_size := 5 |}.
(** Boundary B1: one below the low watermark, batch larger than the room
    left. *)
Definition cfg_b1 : Config := {| min_ready_vm := 3; max_ready_vm := 4; batch_size := 5 |}.
(** A configuration whose low watermark is above the upper bound. *)
Definition cfg_inverted : Config := {| min_ready_vm := 5; max_ready_vm := 3; batch_size := 2 |}.

Section TickFacts.

Variable cfg : Config.
Variable uuid4 : nat -> N.

Lemma enqueue_loop_queue_length (n : nat) (st : state) :
  length (CLONE_QUEUE (enqueue_loop uuid4 n st)) = (length (CLONE_QUEUE st) + n)%nat.
Proof.
  revert st. induction n as [|n IH]; intros st; simpl.
  - lia.
  - rewrite IH. simpl. rewrite length_app. simpl. lia.
Qed.

Lemma enqueue_loop_pending (n : nat) (st : state) :
  pending_of (enqueue_loop uuid4 n st) = pending_of st + Z.of_nat n.
Proof.
  revert st. induction n as [|n IH]; intros st.
  - simpl. lia.
  - cbn [enqueue_loop]. rewrite IH. unfold pending_of. simpl. lia.
Qed.

Lemma enqueue_loop_steps (n : nat) (st : state) :
  steps (enqueue_loop uuid4 n st) =
  steps st ++
  flat_map (iteration_view uuid4 (pending_of st) (length (CLONE_QUEUE st)) (drawn st))
           (seq 0 n).
Proof.
  revert st. induction n as [|n IH]; intros st.
  - simpl. rewrite app_nil_r. reflexivity.
  - cbn [enqueue_loop]. rewrite IH.
    rewrite <- cons_seq, <- seq_shift.
    cbn [flat_map inc put steps pending CLONE_QUEUE drawn].
    rewrite <- !app_assoc. f_equal.
    unfold iteration_view at 2. cbn [app]. f_equal; [|f_equal].
    + rewrite length_app, Nat.add_0_r, Z.add_0_r. simpl.
      f_equal; lia.
    + unfold pending_of. simpl. rewrite length_app. simpl. f_equal; lia.
    + rewrite !flat_map_concat_map, map_map. f_equal.
      apply map_ext. intros k. unfold iteration_view, pending_of. simpl.
      rewrite length_app. simpl.
      replace (drawn st + S k)%nat with (S (drawn st + k)) by lia.
      replace (Z.of_nat (S k)) with (1 + Z.of_nat k) by lia.
      replace (length (CLONE_QUEUE st) + S k + 1)%nat
        with (length (CLONE_QUEUE st) + 1 + k + 1)%nat by lia.
      rewrite !Z.add_assoc. reflexivity.
Qed.

Lemma tick_pending (ready : Z) (st : state) :
  pending_of (tick cfg uuid4 ready st) =
  pending_of st + Z.of_nat (enqueued cfg uuid4 ready st).
Proof.
  unfold enqueued, tick. simpl.
  destruct (_ <? _).
  - rewrite enqueue_loop_pending, enqueue_loop_queue_length. f_equal. lia.
  - rewrite Nat.sub_diag. simpl. lia.
Qed.

Lemma tick_enqueued (ready : Z) (st : state) :
  Z.of_nat (enqueued cfg uuid4 ready st) =
  if ready + pending_of st <? min_ready_vm cfg
  then Z.max 0 (Z.min (batch_size cfg) (max_ready_vm cfg - (ready + pending_of st)))
  else 0.
Proof.
  unfold enqueued, tick, pending_of. simpl.
  destruct (_ <? _).
  - rewrite enqueue_loop_queue_length. lia.
  - lia.
Qed.

(** With a non-negative batch size and a total within the upper bound the
    count is the one the claim gives. *)
Lemma tick_enqueued_in_range (ready : Z) (st : state) :
  0 <= batch_size cfg ->
  ready + pending_of st <= max_ready_vm cfg ->
  ready + pending_of st < min_ready_vm cfg ->
  Z.of_nat (enqueued cfg uuid4 ready st) =
  Z.min (batch_size cfg) (max_ready_vm cfg - (ready + pending_of st)).
Proof.
  intros Hb Hmax Hmin. rewrite tick_enqueued.
  apply Z.ltb_lt in Hmin. rewrite Hmin. lia.
Qed.

(** C2, as the code has it.  A tick that reads [ready] and [pending]
    enqueues [max 0 (min batch_size (max_ready_vm - (ready + pending)))]
    tasks when [ready + pending < min_ready_vm] and none otherwise; the
    counter grows by the number enqueued; and [ready + pending <=
    max_ready_vm], when true at the read, is true after the enqueue
    decision. *)
Theorem tick_enqueue_decision (ready : Z) (st : state) :
  0 <= ready -> 0 <= pending_of st ->
  let total := ready + pending_of st in
  let st' := tick cfg uuid4 ready st in
  (total < min_ready_vm cfg ->
     Z.of_nat (enqueued cfg uuid4 ready st) =
     Z.max 0 (Z.min (batch_size cfg) (max_ready_vm cfg - total))) /\
  (min_ready_vm cfg <= total -> enqueued cfg uuid4 ready st = 0%nat) /\
  pending_of st' = pending_of st + Z.of_nat (enqueued cfg uuid4 ready st) /\
  (total <= max_ready_vm cfg -> ready + pending_of st' <= max_ready_vm cfg).
Proof.
  intros _ _ total st'. subst st'.
  pose proof (tick_enqueued ready st) as He.
  pose proof (tick_pending ready st) as Hp.
  fold total in He.
  split; [|split; [|split]].
  - intros Hlt. apply Z.ltb_lt in Hlt. rewrite Hlt in He. exact He.
  - intros Hge. apply Z.ltb_ge in Hge. rewrite Hge in He. lia.
  - exact Hp.
  - intros Hmax. rewrite Hp. destruct (total <? min_ready_vm cfg); lia.
Qed.

Lemma seen_by_others_iterations (p0 : Z) (q0 d0 : nat) (ks : list nat) :
  seen_by_others (flat_map (iteration_view uuid4 p0 q0 d0) ks) = [].
Proof.
  induction ks as [|k ks IH]; [reflexivity|].
  cbn [flat_map]. unfold seen_by_others in *.
  rewrite filter_app, IH. reflexivity.
Qed.

(** C4, as the code has it.  In every tick the steps are, for each
    enqueued task in turn, the put followed by its inc: the k-th put
    (counting from 0) completes while the counter still shows [p0 + k].
    None of these steps suspends the reconciler, so no other task sees the
    counter between a put and its inc; and when the tick ends, which is
    where an observer gets to run, the counter has grown by exactly the
    number of tasks the tick has put, so it counts every one of them. *)
Theorem tick_put_then_inc (ready : Z) (st : state) :
  let st' := tick cfg uuid4 ready st in
  let made :=
    flat_map (iteration_view uuid4 (pending_of st) (length (CLONE_QUEUE st)) (drawn st))
             (seq 0 (enqueued cfg uuid4 ready st)) in
  steps st' = steps st ++ made /\
  seen_by_others made = [] /\
  length (CLONE_QUEUE st') = (length (CLONE_QUEUE st) + enqueued cfg uuid4 ready st)%nat /\
  pending_of st' = pending_of st + Z.of_nat (enqueued cfg uuid4 ready st).
Proof.
  cbv zeta. split; [|split; [|split]].
  - unfold enqueued, tick. simpl.
    destruct (_ <? _).
    + rewrite enqueue_loop_steps, enqueue_loop_queue_length.
      do 3 f_equal. lia.
    + rewrite Nat.sub_diag. simpl. rewrite app_nil_r. reflexivity.
  - apply seen_by_others_iterations.
  - unfold enqueued, tick. simpl.
    destruct (_ <? _); [rewrite enqueue_loop_queue_length|]; lia.
  - apply tick_pending.
Qed.

End TickFacts.

Example tick_s1 : enqueued cfg_s1 uuid_seq 0 empty_state = 3%nat.
Proof. reflexivity. Qed.

Example tick_s1_again :
  enqueued cfg_s1 uuid_seq 0 (tick cfg_s1 uuid_seq 0 empty_state) = 0%nat.
Proof. reflexivity. Qed.

Example tick_s2 :
  enqueued cfg_s2 uuid_seq 1 empty_state = 0%nat /\
  enqueued cfg_s2 uuid_seq 0 empty_state = 1%nat.
Proof. split; reflexivity. Qed.

Example tick_b1 : enqueued cfg_b1 uuid_seq 1 (state_with_pending 1) = 2%nat.
Proof. reflexivity. Qed.

Lemma tick_enqueue_decision_witness :
  Z.of_nat (enqueued cfg_s1 uuid_seq 0 empty_state) = 3 /\
  0 + pending_of (tick cfg_s1 uuid_seq 0 empty_state) <= 4.
Proof.
  pose proof (tick_enqueue_decision cfg_s1 uuid_seq 0 empty_state
                ltac:(lia) ltac:(cbv; congruence)) as (Hneed & _ & _ & Hmax).
  split.
  - rewrite Hneed; [reflexivity | cbv; reflexivity].
  - apply Hmax. cbv. congruence.
Defined.

(** C2 as stated fails: with ready = 4 and pending = 0 below the low
    watermark 5 but above the upper bound 3, the claimed number of tasks is
    min(2, 3 - 4) = -1, and the tick enqueues none. *)
Lemma tick_enqueue_count_counterexample :
  let ready := 4 in
  let st := empty_state in
  let total := ready + pending_of st in
  0 <= ready /\ 0 <= pending_of st /\
  total < min_ready_vm cfg_inverted /\
  enqueued cfg_inverted uuid_seq ready st = 0%nat /\
  Z.of_nat (enqueued cfg_inverted uuid_seq ready st) <>
  Z.min (batch_size cfg_inverted) (max_ready_vm cfg_inverted - total).
Proof.
  vm_compute. repeat split; congruence.
Qed.

(** C4 as stated fails: in the first tick of scenario S1 the first put
    completes while the counter still reads 0. *)
Lemma tick_inc_before_put_counterexample :
  ~ put_sees_increment (pending_of empty_state)
      (steps (tick cfg_s1 uuid_seq 0 empty_state)).
Proof.
  intros H.
  specialize (H 0%nat _ eq_refl eq_refl).
  vm_compute in H. discriminate H.
Qed.

End Replenisher.

(* ===================================================================== *)
(** * PoolView: list_init_vms *)
(* ===================================================================== *)

Module PoolView.

(** A Python [datetime]: the wall-clock reading (year .. microsecond,
    counted here in microseconds) and [tzinfo], either [None] (a naive
    value) or a zone with a fixed UTC offset, in microseconds.  The range
    limits of [datetime] (years 1..9999) are not modelled. *)
Record datetime : Type := {
  wall : Z;
  tzinfo : option Z
}.

Definition MICROSECONDS_PER_MINUTE : Z := 60000000.

(** [d.replace(tzinfo=None)]: the reading is kept, the zone is dropped; no
    conversion takes place. *)
Definition replace_tzinfo_None (d : datetime) : datetime :=
  {| wall := wall d; tzinfo := None |}.

(** [datetime.utcnow()]: a naive value reading the current UTC time. *)
Definition utcnow (now_utc : Z) : datetime :=
  {| wall := now_utc; tzinfo := None |}.

(** [d - timedelta(minutes=m)]. *)
Definition minus_minutes (d : datetime) (m : Z) : datetime :=
  {| wall := wall d - m * MICROSECONDS_PER_MINUTE; tzinfo := tzinfo d |}.

(** [a <= b] on two naive values. *)
Definition naive_le (a b : datetime) : bool := wall a <=? wall b.

(** The instant a value denotes, in UTC microseconds; a naive value is
    read as UTC. *)
Definition utc_instant (d : datetime) : Z :=
  match tzinfo d with
  | Some offset => wall d - offset
  | None => wall d
  end.

(** What the method reads of a [vim.VirtualMachine]: [vm.name],
    [getattr(vm.config, "createDate", None)] and
    [getattr(vm.runtime, "bootTime", None)]. *)
Record VirtualMachine : Type := {
  name : string;
  config_createDate : option datetime;
  runtime_bootTime : option datetime
}.

(** [x or y] on two optional datetimes; a datetime is always truthy. *)
Definition or_else (x y : option datetime) : option datetime :=
  match x with
  | Some d => Some d
  | None => y
  end.

(** [f"[{self._vm_prefix}] VMInit_"]. *)
Definition prefix_init (vm_prefix : string) : string :=
  ("[" ++ vm_prefix ++ "] VMInit_")%string.

(** [name.startswith(p)]. *)
Definition startswith (s p : string) : bool := String.prefix p s.

(** The test of the loop body that lets a VM into [victims]. *)
Definition is_victim (prefix : string) (cutoff : datetime) (vm : VirtualMachine) : bool :=
  if negb (startswith (name vm) prefix) then false
  else
    match or_else (config_createDate vm) (runtime_bootTime vm) with
    | Some created => naive_le (replace_tzinfo_None created) cutoff
    | None => false
    end.

(** The [for vm in self._env_vms()] loop, appending to [victims]. *)
Fixpoint init_loop (prefix : string) (cutoff : datetime)
         (vms : list VirtualMachine) (victims : list string) : list string :=
  match vms with
  | [] => victims
  | vm :: rest =>
      if is_victim prefix cutoff vm
      then init_loop prefix cutoff rest (victims ++ [name vm])
      else init_loop prefix cutoff rest victims
  end.

(** [list_init_vms]: [env_vms] is what [self._env_vms()] returns and
    [now_utc] the clock read by [utcnow()]. *)
Definition list_init_vms (vm_prefix : string) (now_utc : Z)
           (env_vms : list VirtualMachine) (older_than_minutes : Z) : list string :=
  if older_than_minutes <=? 0 then []
  else
    let cutoff := minus_minutes (utcnow now_utc) older_than_minutes in
    init_loop (prefix_init vm_prefix) cutoff env_vms [].

(** The claim's selection: the name starts with the init prefix and the
    instant of createDate, else of bootTime, lies at least
    [older_than_minutes] minutes before the current UTC time. *)
Definition old_enough_utc (now_utc minutes : Z) (vm : VirtualMachine) : bool :=
  match or_else (config_createDate vm) (runtime_bootTime vm) with
  | Some created => utc_instant created <=? now_utc - minutes * MICROSECONDS_PER_MINUTE
  | None => false
  end.

Definition expected_init_vms (vm_prefix : string) (now_utc : Z)
           (env_vms : list VirtualMachine) (older_than_minutes : Z) : list string :=
  if older_than_minutes <=? 0 then []
  else
    map name
        (List.filter (fun vm => startswith (name vm) (prefix_init vm_prefix)
                                && old_enough_utc now_utc older_than_minutes vm)
                     env_vms).

(** The selection the code makes: as above, with the wall-clock reading of
    the timestamp in place of its instant. *)
Definition old_enough_wall (now_utc minutes : Z) (vm : VirtualMachine) : bool :=
  match or_else (config_createDate vm) (runtime_bootTime vm) with
  | Some created => wall created <=? now_utc - minutes * MICROSECONDS_PER_MINUTE
  | None => false
  end.

(** A timestamp is in UTC when it is naive or its offset is zero. *)
Definition in_utc (d : datetime) : Prop :=
  tzinfo d = None \/ tzinfo d = Some 0.

Definition timestamps_in_utc (vm : VirtualMachine) : Prop :=
  forall d, or_else (config_createDate vm) (runtime_bootTime vm) = Some d -> in_utc d.

(** A concrete inventory: one init VM created at 12:00 local time in a
    zone three hours ahead of UTC, that is at 09:00 UTC; the clock reads
    10:30 UTC and the TTL is 60 minutes. *)
Definition hour : Z := 60 * MICROSECONDS_PER_MINUTE.

Definition vm_plus3 : VirtualMachine :=
  {| name := "[Dev] VMInit_0a1b2c3d";
     config_createDate := Some {| wall := 12 * hour; tzinfo := Some (3 * hour) |};
     runtime_bootTime := None |}.

Definition half_past_ten : Z := 10 * hour + 30 * MICROSECONDS_PER_MINUTE.

Lemma init_loop_filter (prefix : string) (cutoff : datetime)
      (vms : list VirtualMachine) (victims : list string) :
  init_loop prefix cutoff vms victims =
  victims ++ map name (List.filter (is_victim prefix cutoff) vms).
Proof.
  revert victims. induction vms as [|vm rest IH]; intros victims; simpl.
  - rewrite app_nil_r. reflexivity.
  - destruct (is_victim prefix cutoff vm); rewrite IH.
    + rewrite <- app_assoc. reflexivity.
    + reflexivity.
Qed.

Lemma is_victim_wall (vm_prefix : string) (now_utc minutes : Z) (vm : VirtualMachine) :
  is_victim (prefix_init vm_prefix) (minus_minutes (utcnow now_utc) minutes) vm =
  startswith (name vm) (prefix_init vm_prefix) && old_enough_wall now_utc minutes vm.
Proof.
  unfold is_victim, old_enough_wall.
  destruct (startswith _ _); simpl; [|reflexivity].
  destruct (or_else _ _); reflexivity.
Qed.

(** What the code returns, for every inventory and every integer. *)
Lemma list_init_vms_wall (vm_prefix : string) (now_utc : Z)
      (env_vms : list VirtualMachine) (older_than_minutes : Z) :
  list_init_vms vm_prefix now_utc env_vms older_than_minutes =
  if older_than_minutes <=? 0 then []
  else map name
         (List.filter (fun vm => startswith (name vm) (prefix_init vm_prefix)
                                 && old_enough_wall now_utc older_than_minutes vm)
                      env_vms).
Proof.
  unfold list_init_vms. destruct (_ <=? _); [reflexivity|].
  rewrite init_loop_filter. simpl. f_equal.
  apply filter_ext. intros vm. apply is_victim_wall.
Qed.

(** On inventories whose timestamps are in UTC the code returns the
    claim's selection. *)
Lemma list_init_vms_utc (vm_prefix : string) (now_utc : Z)
      (env_vms : list VirtualMachine) (older_than_minutes : Z) :
  Forall timestamps_in_utc env_vms ->
  list_init_vms vm_prefix now_utc env_vms older_than_minutes =
  expected_init_vms vm_prefix now_utc env_vms older_than_minutes.
Proof.
  intros Hutc. rewrite list_init_vms_wall. unfold expected_init_vms.
  destruct (_ <=? _); [reflexivity|]. f_equal.
  induction Hutc as [|vm rest Hvm _ IH]; [reflexivity|].
  simpl. rewrite IH.
  replace (old_enough_wall now_utc older_than_minutes vm)
    with (old_enough_utc now_utc older_than_minutes vm); [reflexivity|].
  unfold old_enough_wall, old_enough_utc, timestamps_in_utc in *.
  destruct (or_else _ _) as [d|]; [|reflexivity].
  unfold utc_instant.
  destruct (Hvm d eq_refl) as [-> | ->]; [reflexivity|].
  f_equal. lia.
Qed.

(** B2 and B3 hold on the code as they stand. *)
Lemma list_init_vms_guard (vm_prefix : string) (now_utc : Z)
      (env_vms : list VirtualMachine) (older_than_minutes : Z) :
  older_than_minutes <= 0 ->
  list_init_vms vm_prefix now_utc env_vms older_than_minutes = [].
Proof.
  intros H. unfold list_init_vms.
  apply Z.leb_le in H. rewrite H. reflexivity.
Qed.

Lemma list_init_vms_no_timestamp (vm_prefix : string) (now_utc : Z)
      (env_vms : list VirtualMachine) (older_than_minutes : Z) (vm : VirtualMachine) :
  config_createDate vm = None -> runtime_bootTime vm = None ->
  In vm env_vms ->
  (forall other, In other env_vms -> name other = name vm -> other = vm) ->
  ~ In (name vm) (list_init_vms vm_prefix now_utc env_vms older_than_minutes).
Proof.
  intros Hc Hb _ Huniq Hin.
  rewrite list_init_vms_wall in Hin.
  destruct (_ <=? _); [exact Hin|].
  apply in_map_iff in Hin as (other & Hname & Hother).
  apply filter_In in Hother as (Hmem & Htest).
  rewrite (Huniq other Hmem Hname) in Htest.
  unfold old_enough_wall in Htest. rewrite Hc, Hb in Htest. simpl in Htest.
  rewrite andb_false_r in Htest. discriminate.
Qed.

(** C6, at the failing input: the VM is 90 minutes old in UTC, the claim's
    selection returns it, the code returns nothing. *)
Theorem list_init_vms_zone_stripped :
  old_enough_utc half_past_ten 60 vm_plus3 = true /\
  expected_init_vms "Dev" half_past_ten [vm_plus3] 60 = ["[Dev] VMInit_0a1b2c3d"%string] /\
  list_init_vms "Dev" half_past_ten [vm_plus3] 60 = [].
Proof.
  vm_compute. repeat split.
Qed.

End PoolView.

(* ===================================================================== *)
(** * NSX: parse_arp_table *)
(* ===================================================================== *)

Module NSX.

Local Open Scope N_scope.

(** ** Characters, read as code points 0..255 *)

Definition code (c : ascii) : N := N_of_ascii c.

Definition between (lo hi : N) (c : ascii) : bool :=
  (lo <=? code c) && (code c <=? hi).

(** Line boundaries of [str.splitlines]: LF, VT, FF, CR, FS, GS, RS, NEL
    (CR LF counts as one boundary, see [splitlines_from]). *)
Definition is_linebreak (c : ascii) : bool :=
  between 10 13 c || between 28 30 c || (code c =? 133).

(** Whitespace of [str.split()] without argument. *)
Definition isspace (c : ascii) : bool :=
  between 9 13 c || between 28 32 c || (code c =? 133) || (code c =? 160).

(** [\d]: below code point 256 the decimal digits are 0-9. *)
Definition isdigit (c : ascii) : bool := between 48 57 c.

(** The class [[0-9A-Fa-f:]]. *)
Definition is_hex_or_colon (c : ascii) : bool :=
  between 48 57 c || between 65 70 c || between 97 102 c || (code c =? 58).

Definition is_dot (c : ascii) : bool := code c =? 46.

(** [str.lower] on one character: A-Z, and the Latin-1 capitals except the
    multiplication sign, move up by 32. *)
Definition lower_char (c : ascii) : ascii :=
  if between 65 90 c || (between 192 222 c && negb (code c =? 215))
  then ascii_of_N (code c + 32)
  else c.

Fixpoint lower (s : string) : string :=
  match s with
  | EmptyString => EmptyString
  | String c rest => String (lower_char c) (lower rest)
  end.

Definition is_empty (s : string) : bool :=
  match s with EmptyString => true | String _ _ => false end.

Definition push (cur : string) (c : ascii) : string :=
  (cur ++ String c EmptyString)%string.

(** [str.splitlines()]: [cur] is the line read so far.  A final line
    without terminator is kept only when it is not empty. *)
Fixpoint splitlines_from (cur : string) (s : string) : list string :=
  match s with
  | EmptyString => if is_empty cur then [] else [cur]
  | String c rest =>
      if is_linebreak c then
        cur ::
        match rest with
        | String c2 rest2 =>
            if (code c =? 13) && (code c2 =? 10)
            then splitlines_from EmptyString rest2
            else splitlines_from EmptyString rest
        | EmptyString => []
        end
      else splitlines_from (push cur c) rest
  end.

Definition splitlines (s : string) : list string := splitlines_from EmptyString s.

(** [str.split()]: maximal runs of non-whitespace characters. *)
Fixpoint split_from (cur : string) (s : string) : list string :=
  match s with
  | EmptyString => if is_empty cur then [] else [cur]
  | String c rest =>
      if isspace c then
        if is_empty cur then split_from EmptyString rest
        else cur :: split_from EmptyString rest
      else split_from (push cur c) rest
  end.

Definition split (s : string) : list string := split_from EmptyString s.

(** ** Regular expressions

    [re.match(p, s)] is truthy exactly when some prefix of [s] belongs to
    the language of [p]; the code uses nothing else of the match object. *)

Inductive regex : Type :=
| Void
| Eps
| Char (p : ascii -> bool)
| Seq (r1 r2 : regex)
| Alt (r1 r2 : regex)
| Star (r : regex).

Definition Plus (r : regex) : regex := Seq r (Star r).

Fixpoint Repeat (n : nat) (r : regex) : regex :=
  match n with
  | O => Eps
  | S k => Seq r (Repeat k r)
  end.

Inductive in_lang : regex -> list ascii -> Prop :=
| in_eps : in_lang Eps []
| in_char (p : ascii -> bool) (c : ascii) : p c = true -> in_lang (Char p) [c]
| in_seq (r1 r2 : regex) (u v : list ascii) :
    in_lang r1 u -> in_lang r2 v -> in_lang (Seq r1 r2) (u ++ v)
| in_alt_l (r1 r2 : regex) (u : list ascii) : in_lang r1 u -> in_lang (Alt r1 r2) u
| in_alt_r (r1 r2 : regex) (u : list ascii) : in_lang r2 u -> in_lang (Alt r1 r2) u
| in_star_nil (r : regex) : in_lang (Star r) []
| in_star_app (r : regex) (u v : list ascii) :
    in_lang r u -> in_lang (Star r) v -> in_lang (Star r) (u ++ v).

Fixpoint nullable (r : regex) : bool :=
  match r with
  | Void => false
  | Eps => true
  | Char _ => false
  | Seq r1 r2 => nullable r1 && nullable r2
  | Alt r1 r2 => nullable r1 || nullable r2
  | Star _ => true
  end.

Fixpoint deriv (c : ascii) (r : regex) : regex :=
  match r with
  | Void => Void
  | Eps => Void
  | Char p => if p c then Eps else Void
  | Seq r1 r2 =>
      if nullable r1
      then Alt (Seq (deriv c r1) r2) (deriv c r2)
      else Seq (deriv c r1) r2
  | Alt r1 r2 => Alt (deriv c r1) (deriv c r2)
  | Star r1 => Seq (deriv c r1) (Star r1)
  end.

(** Does some prefix of [s] match [r]? *)
Fixpoint match_prefix (r : regex) (s : list ascii) : bool :=
  nullable r ||
  match s with
  | [] => false
  | c :: rest => match_prefix (deriv c r) rest
  end.

Definition re_match (r : regex) (s : string) : bool :=
  match_prefix r (list_ascii_of_string s).

(** [r"\d+\.\d+\.\d+\.\d+"] *)
Definition IP_PATTERN : regex :=
  Seq (Plus (Char isdigit))
  (Seq (Char is_dot)
  (Seq (Plus (Char isdigit))
  (Seq (Char is_dot)
  (Seq (Plus (Char isdigit))
  (Seq (Char is_dot)
       (Plus (Char isdigit))))))).

(** [r"[0-9A-Fa-f:]{17}"] *)
Definition MAC_PATTERN : regex := Repeat 17 (Char is_hex_or_colon).

(** ** The parser *)

(** The body of the loop for one line: the key and value it stores, if
    any. *)
Definition line_entry (line : string) : option (string * string) :=
  let parts := split line in
  if (4 <=? length parts)%nat then
    let ip_candidate := nth 1 parts EmptyString in
    let mac_candidate := nth 2 parts EmptyString in
    if re_match IP_PATTERN ip_candidate && re_match MAC_PATTERN mac_candidate
    then Some (lower mac_candidate, ip_candidate)
    else None
  else None.

Definition store (arp_map : gmap string string) (line : string) : gmap string string :=
  match line_entry line with
  | Some (mac, ip) => <[mac := ip]> arp_map
  | None => arp_map
  end.

Definition parse_arp_table (raw_output : string) : gmap string string :=
  fold_left store (splitlines raw_output) ∅.

(** The canonical 17-character colon form XX:XX:XX:XX:XX:XX. *)
Definition is_hex (c : ascii) : bool :=
  between 48 57 c || between 65 70 c || between 97 102 c.

Definition is_colon (c : ascii) : bool := code c =? 58.

Fixpoint canonical_groups (groups : nat) (s : list ascii) : bool :=
  match groups, s with
  | 1%nat, [a; b] => is_hex a && is_hex b
  | S g, a :: b :: c :: rest =>
      is_hex a && is_hex b && is_colon c && canonical_groups g rest
  | _, _ => false
  end.

Definition canonical_mac (s : string) : bool :=
  canonical_groups 6 (list_ascii_of_string s).

(** The exact dotted quad: the whole field matches the pattern. *)
Definition dotted_quad (s : string) : Prop :=
  in_lang IP_PATTERN (list_ascii_of_string s).

(** [re.match(r, s)] in terms of the language of [r]. *)
Definition begins_with (r : regex) (s : string) : Prop :=
  exists u v : list ascii, list_ascii_of_string s = u ++ v /\ in_lang r u.

(** What a line must look like for the loop body to store [k ↦ ip]. *)
Definition contributes (line k ip : string) : Prop :=
  exists mac : string,
    (4 <= length (split line))%nat /\
    split line !! 1%nat = Some ip /\
    split line !! 2%nat = Some mac /\
    begins_with IP_PATTERN ip /\
    begins_with MAC_PATTERN mac /\
    k = lower mac.

(** The claim's reading of a contributing line. *)
Definition contributes_canonical (line k ip : string) : Prop :=
  exists mac : string,
    (4 <= length (split line))%nat /\
    split line !! 1%nat = Some ip /\
    split line !! 2%nat = Some mac /\
    dotted_quad ip /\
    canonical_mac mac = true /\
    k = lower mac.

Definition newline : string := String (ascii_of_N 10) EmptyString.

(** A line that stores nothing under the key [k]. *)
Definition no_entry_for (k line : string) : Prop :=
  forall ip' : string, line_entry line <> Some (k, ip').

(** A table whose only line has 17 letters without any colon in the MAC
    column. *)
Definition raw_without_colons : string := "5000 10.0.0.1 AAAAAAAAAAAAAAAAA vtep1".

(** ** The matcher computes the language *)

Lemma in_seq_inv (r1 r2 : regex) (w : list ascii) :
  in_lang (Seq r1 r2) w -> exists u v, w = u ++ v /\ in_lang r1 u /\ in_lang r2 v.
Proof. intros H. inversion H; subst. eauto. Qed.

Lemma in_alt_inv (r1 r2 : regex) (w : list ascii) :
  in_lang (Alt r1 r2) w -> in_lang r1 w \/ in_lang r2 w.
Proof. intros H. inversion H; subst; auto. Qed.

Lemma in_char_inv (p : ascii -> bool) (w : list ascii) :
  in_lang (Char p) w -> exists c, w = [c] /\ p c = true.
Proof. intros H. inversion H; subst. eauto. Qed.

Lemma in_eps_inv (w : list ascii) : in_lang Eps w -> w = [].
Proof. intros H. inversion H. reflexivity. Qed.

Lemma in_void_inv (w : list ascii) : ~ in_lang Void w.
Proof. intros H. inversion H. Qed.

Lemma in_seq_cons (r1 r2 : regex) (c : ascii) (u v : list ascii) :
  in_lang r1 (c :: u) -> in_lang r2 v -> in_lang (Seq r1 r2) (c :: u ++ v).
Proof. intros Hu Hv. change (c :: u ++ v) with ((c :: u) ++ v). constructor; assumption. Qed.

Lemma nullable_spec (r : regex) : nullable r = true <-> in_lang r [].
Proof.
  induction r as [| |p|r1 IH1 r2 IH2|r1 IH1 r2 IH2|r IH]; simpl; split; intros H;
    try discriminate; try (constructor; fail).
  - exfalso. exact (in_void_inv _ H).
  - apply in_char_inv in H as (c & Hc & _). discriminate.
  - apply andb_true_iff in H as [H1 H2].
    change (@nil ascii) with (@nil ascii ++ []). constructor; tauto.
  - apply in_seq_inv in H as (u & v & Heq & Hu & Hv). symmetry in Heq.
    apply app_eq_nil in Heq as [-> ->].
    apply andb_true_iff. tauto.
  - apply orb_true_iff in H as [H|H]; [apply in_alt_l|apply in_alt_r]; tauto.
  - apply orb_true_iff. apply in_alt_inv in H. tauto.
Qed.

Lemma star_cons_inv (r : regex) (c : ascii) (w : list ascii) :
  in_lang (Star r) (c :: w) ->
  exists u v, w = u ++ v /\ in_lang r (c :: u) /\ in_lang (Star r) v.
Proof.
  intros H. remember (Star r) as sr eqn:Hsr. remember (c :: w) as cw eqn:Hcw.
  revert w Hcw.
  induction H as [| | | | | |r' u v Hu _ Hv IHv]; intros w Hcw; try discriminate.
  injection Hsr as ->.
  destruct u as [|a u'].
  - simpl in Hcw. apply IHv; [reflexivity|exact Hcw].
  - simpl in Hcw. injection Hcw as -> <-. exists u', v. auto.
Qed.

Lemma deriv_spec (c : ascii) (r : regex) (w : list ascii) :
  in_lang (deriv c r) w <-> in_lang r (c :: w).
Proof.
  revert w.
  induction r as [| |p|r1 IH1 r2 IH2|r1 IH1 r2 IH2|r IH]; intros w; simpl.
  - split; intros H; exfalso; exact (in_void_inv _ H).
  - split; intros H; [exfalso; exact (in_void_inv _ H)|].
    apply in_eps_inv in H. discriminate.
  - destruct (p c) eqn:Hp; split; intros H.
    + apply in_eps_inv in H as ->. constructor. exact Hp.
    + apply in_char_inv in H as (a & Heq & _). injection Heq as _ ->. constructor.
    + exfalso. exact (in_void_inv _ H).
    + apply in_char_inv in H as (a & Heq & Ha). injection Heq as -> _. congruence.
  - destruct (nullable r1) eqn:Hn; split; intros H.
    + apply in_alt_inv in H as [H|H].
      * apply in_seq_inv in H as (u & v & -> & Hu & Hv).
        apply in_seq_cons; [apply IH1|]; assumption.
      * change (c :: w) with ([] ++ c :: w).
        constructor; [apply nullable_spec, Hn | apply IH2, H].
    + apply in_seq_inv in H as (u & v & Heq & Hu & Hv).
      destruct u as [|a u']; simpl in Heq.
      * subst v. apply in_alt_r, IH2, Hv.
      * injection Heq as <- ->. apply in_alt_l. constructor; [apply IH1|]; assumption.
    + apply in_seq_inv in H as (u & v & -> & Hu & Hv).
      apply in_seq_cons; [apply IH1|]; assumption.
    + apply in_seq_inv in H as (u & v & Heq & Hu & Hv).
      destruct u as [|a u']; simpl in Heq.
      * apply nullable_spec in Hu. congruence.
      * injection Heq as <- ->. constructor; [apply IH1|]; assumption.
  - split; intros H; apply in_alt_inv in H as [H|H].
    + apply in_alt_l, IH1, H.
    + apply in_alt_r, IH2, H.
    + apply in_alt_l, IH1, H.
    + apply in_alt_r, IH2, H.
  - split; intros H.
    + apply in_seq_inv in H as (u & v & -> & Hu & Hv).
      change (c :: u ++ v) with ((c :: u) ++ v).
      constructor; [apply IH|]; assumption.
    + apply star_cons_inv in H as (u & v & -> & Hu & Hv).
      constructor; [apply IH|]; assumption.
Qed.

Lemma match_prefix_spec (r : regex) (s : list ascii) :
  match_prefix r s = true <-> exists u v, s = u ++ v /\ in_lang r u.
Proof.
  revert r. induction s as [|c rest IH]; intros r; simpl.
  - rewrite orb_false_r, nullable_spec. split.
    + intros H. exists [], []. auto.
    + intros (u & v & Heq & Hu). symmetry in Heq.
      apply app_eq_nil in Heq as [-> _]. exact Hu.
  - rewrite orb_true_iff, nullable_spec, IH. split.
    + intros [H | (u & v & -> & Hu)].
      * exists [], (c :: rest). auto.
      * exists (c :: u), v. split; [reflexivity|]. apply deriv_spec, Hu.
    + intros (u & v & Heq & Hu). destruct u as [|a u']; simpl in Heq.
      * left. exact Hu.
      * injection Heq as <- ->. right. exists u', v.
        split; [reflexivity|]. apply deriv_spec, Hu.
Qed.

Lemma re_match_spec (r : regex) (s : string) :
  re_match r s = true <-> begins_with r s.
Proof. apply match_prefix_spec. Qed.

(** The language of [{n}] over a character class. *)
Lemma in_lang_repeat (p : ascii -> bool) (n : nat) (u : list ascii) :
  in_lang (Repeat n (Char p)) u <-> length u = n /\ forallb p u = true.
Proof.
  revert u. induction n as [|n IH]; intros u; simpl; split.
  - intros H. apply in_eps_inv in H as ->. auto.
  - intros [Hlen _]. destruct u; [constructor|discriminate].
  - intros H. apply in_seq_inv in H as (a & b & -> & Ha & Hb).
    apply in_char_inv in Ha as (c & -> & Hc). apply IH in Hb as [Hlen Hall].
    simpl. rewrite Hlen, Hc, Hall. auto.
  - intros [Hlen Hall]. destruct u as [|c u']; [discriminate|].
    simpl in Hlen, Hall. apply andb_true_iff in Hall as [Hc Hall].
    change (c :: u') with ([c] ++ u'). constructor.
    + constructor. exact Hc.
    + apply IH. split; [lia|exact Hall].
Qed.

(** A field matches the MAC pattern exactly when its first 17 characters
    exist and are hexadecimal digits or colons. *)
Lemma begins_with_mac (s : string) :
  begins_with MAC_PATTERN s <->
  (17 <= length (list_ascii_of_string s))%nat /\
  forallb is_hex_or_colon (take 17 (list_ascii_of_string s)) = true.
Proof.
  unfold begins_with, MAC_PATTERN. split.
  - intros (u & v & -> & Hu). apply in_lang_repeat in Hu as [Hlen Hall].
    rewrite length_app, take_app_length'; [|symmetry; exact Hlen]. split; [lia|exact Hall].
  - intros [Hlen Hall].
    exists (take 17 (list_ascii_of_string s)), (drop 17 (list_ascii_of_string s)).
    split; [symmetry; apply take_drop|].
    apply in_lang_repeat. split; [|exact Hall].
    rewrite length_take. lia.
Qed.

(** ** One line *)

Lemma line_entry_spec (line k ip : string) :
  line_entry line = Some (k, ip) <-> contributes line k ip.
Proof.
  unfold line_entry, contributes.
  destruct (4 <=? length (split line))%nat eqn:Hlen.
  - apply Nat.leb_le in Hlen.
    destruct (lookup_lt_is_Some_2 (split line) 1) as [ip0 Hip]; [lia|].
    destruct (lookup_lt_is_Some_2 (split line) 2) as [mac0 Hmac]; [lia|].
    rewrite (nth_lookup_Some _ _ EmptyString _ Hip).
    rewrite (nth_lookup_Some _ _ EmptyString _ Hmac).
    destruct (re_match IP_PATTERN ip0) eqn:Hi;
      destruct (re_match MAC_PATTERN mac0) eqn:Hm; simpl; split;
      try discriminate.
    + intros [= <- <-]. exists mac0.
      repeat split; try assumption; apply re_match_spec; assumption.
    + intros (mac & _ & Hip' & Hmac' & _ & _ & ->). congruence.
    + intros (mac & _ & _ & Hmac' & _ & Hb & _).
      apply re_match_spec in Hb. congruence.
    + intros (mac & _ & Hip' & _ & Hb & _ & _).
      apply re_match_spec in Hb. congruence.
    + intros (mac & _ & Hip' & _ & Hb & _ & _).
      apply re_match_spec in Hb. congruence.
  - apply Nat.leb_gt in Hlen. split; [discriminate|].
    intros (mac & Hge & _). lia.
Qed.

(** ** The dictionary built by the loop: the last store for a key wins *)

Lemma fold_store_lookup (lines : list string) (m : gmap string string) (k ip : string) :
  fold_left store lines m !! k = Some ip <->
  (exists before line after,
      lines = before ++ line :: after /\ line_entry line = Some (k, ip) /\
      Forall (no_entry_for k) after)
  \/ (m !! k = Some ip /\ Forall (no_entry_for k) lines).
Proof.
  revert m. induction lines as [|l rest IH]; intros m; simpl.
  - split.
    + intros H. right. split; [exact H|constructor].
    + intros [(b & l & a & Heq & _) | [H _]]; [|exact H].
      destruct b; discriminate.
  - rewrite IH. split.
    + intros [(b & l' & a & -> & He & Hf) | [Hm Hf]].
      * left. exists (l :: b), l', a. auto.
      * unfold store in Hm. destruct (line_entry l) as [[k' ip']|] eqn:Hl.
        -- destruct (decide (k' = k)) as [->|Hne].
           ++ rewrite lookup_insert_eq in Hm. injection Hm as ->.
              left. exists [], l, rest. auto.
           ++ rewrite lookup_insert_ne in Hm by exact Hne.
              right. split; [exact Hm|]. constructor; [|exact Hf].
              intros ip'' Hc. congruence.
        -- right. split; [exact Hm|]. constructor; [|exact Hf].
           intros ip'' Hc. congruence.
    + intros [(b & l' & a & Heq & He & Hf) | [Hm Hf]].
      * destruct b as [|x b]; simpl in Heq; injection Heq as -> ->.
        -- right. split; [|exact Hf]. unfold store. rewrite He.
           apply lookup_insert_eq.
        -- left. exists b, l', a. auto.
      * apply Forall_cons in Hf as [Hl Hrest].
        right. split; [|exact Hrest]. unfold store.
        destruct (line_entry l) as [[k' ip']|] eqn:Hl'; [|exact Hm].
        rewrite lookup_insert_ne; [exact Hm|].
        intros ->. exact (Hl ip' Hl').
Qed.

(** C8, as the code has it.  The map sends [k] to [ip] exactly when, among
    the lines of the output that have at least four whitespace-separated
    fields, a second field beginning with a match of the IPv4 pattern and a
    third field whose first 17 characters are hexadecimal digits or colons
    and whose lower-cased form is [k], the last one has [ip] as its second
    field.  The whole second field is the value and the whole lower-cased
    third field is the key. *)
Theorem parse_arp_table_lookup (raw_output k ip : string) :
  parse_arp_table raw_output !! k = Some ip <->
  exists before line after,
    splitlines raw_output = before ++ line :: after /\
    contributes line k ip /\
    Forall (fun later => forall ip', ~ contributes later k ip') after.
Proof.
  unfold parse_arp_table. rewrite fold_store_lookup. split.
  - intros [(b & l & a & Heq & He & Hf) | [Hm _]].
    + exists b, l, a. split; [exact Heq|]. split; [apply line_entry_spec, He|].
      eapply Forall_impl; [exact Hf|].
      intros later Hno ip' Hc. apply line_entry_spec in Hc. exact (Hno ip' Hc).
    + rewrite lookup_empty in Hm. discriminate.
  - intros (b & l & a & Heq & Hc & Hf). left.
    exists b, l, a. split; [exact Heq|]. split; [apply line_entry_spec, Hc|].
    eapply Forall_impl; [exact Hf|].
    intros later Hno ip' He. apply line_entry_spec in He. exact (Hno ip' He).
Qed.

(** Lines in the claim's canonical form are among the contributing ones. *)
Lemma is_hex_class (c : ascii) : is_hex c = true -> is_hex_or_colon c = true.
Proof. unfold is_hex, is_hex_or_colon. intros ->. reflexivity. Qed.

Lemma is_colon_class (c : ascii) : is_colon c = true -> is_hex_or_colon c = true.
Proof. unfold is_colon, is_hex_or_colon. intros ->. apply orb_true_r. Qed.

Lemma canonical_groups_class (g : nat) (l : list ascii) :
  canonical_groups g l = true ->
  length l = (3 * g - 1)%nat /\ forallb is_hex_or_colon l = true.
Proof.
  revert l. induction g as [|g IH]; intros l H.
  - destruct l; discriminate.
  - destruct l as [|a [|b [|c rest]]]; try (destruct g; discriminate).
    + destruct g; [|discriminate]. simpl in H.
      apply andb_true_iff in H as [Ha Hb]. simpl.
      rewrite (is_hex_class _ Ha), (is_hex_class _ Hb). auto.
    + assert (Hstep : is_hex a && is_hex b && is_colon c && canonical_groups g rest = true)
        by (destruct g; exact H).
      apply andb_true_iff in Hstep as [Hstep Hrest].
      apply andb_true_iff in Hstep as [Hstep Hc].
      apply andb_true_iff in Hstep as [Ha Hb].
      assert (g <> 0)%nat by (intros ->; destruct rest; discriminate).
      apply IH in Hrest as [Hlen Hall].
      simpl. rewrite (is_hex_class _ Ha), (is_hex_class _ Hb), (is_colon_class _ Hc), Hall.
      split; [lia|reflexivity].
Qed.

Lemma canonical_contributes (line k ip : string) :
  contributes_canonical line k ip -> contributes line k ip.
Proof.
  intros (mac & Hlen & Hip & Hmac & Hquad & Hcanon & Hk).
  exists mac. repeat split; try assumption.
  - exists (list_ascii_of_string ip), []. rewrite app_nil_r. split; [reflexivity|exact Hquad].
  - apply begins_with_mac. apply canonical_groups_class in Hcanon as [Hl Hall].
    rewrite firstn_all2 by lia. split; [lia|exact Hall].
Qed.

(** C8 as stated fails: that line contributes an entry although its third
    field is not a canonical colon-separated MAC. *)
Lemma parse_arp_table_canonical_counterexample :
  ~ (parse_arp_table raw_without_colons !! "aaaaaaaaaaaaaaaaa"%string = Some "10.0.0.1"%string <->
     exists line, In line (splitlines raw_without_colons) /\
                  contributes_canonical line "aaaaaaaaaaaaaaaaa" "10.0.0.1").
Proof.
  intros [Hfwd _].
  destruct Hfwd as (line & Hin & mac & _ & _ & Hmac & _ & Hcanon & _).
  - vm_compute. reflexivity.
  - destruct Hin as [<- | []].
    vm_compute in Hmac. injection Hmac as <-.
    vm_compute in Hcanon. discriminate.
Qed.

(** A later line for the same MAC replaces the earlier entry, and the
    pattern tests look at the beginning of a field only. *)
Example parse_last_line_wins :
  parse_arp_table ("1 10.0.0.1 00:50:56:AA:68:16 a" ++ newline ++
                   "1 10.0.0.2/24 00:50:56:aa:68:16 b")%string
  !! "00:50:56:aa:68:16"%string = Some "10.0.0.2/24"%string.
Proof. vm_compute. reflexivity. Qed.

Example splitlines_ex :
  splitlines ("a" ++ newline ++ newline ++ "b c" ++ newline)%string = ["a"; ""; "b c"]%string.
Proof. reflexivity. Qed.

Example splitlines_crlf :
  splitlines (String (ascii_of_N 97) (String (ascii_of_N 13) (String (ascii_of_N 10)
             (String (ascii_of_N 98) (String (ascii_of_N 13) EmptyString)))))
  = ["a"; "b"]%string /\
  splitlines (String (ascii_of_N 97) (String (ascii_of_N 10) (String (ascii_of_N 13)
             (String (ascii_of_N 98) EmptyString))))
  = ["a"; ""; "b"]%string /\
  splitlines newline = [""%string] /\
  splitlines "" = [].
Proof. repeat split; reflexivity. Qed.

Example split_ex : split "  x  10.0.0.1 00:50:56:AA:68:16   vtep " =
                   ["x"; "10.0.0.1"; "00:50:56:AA:68:16"; "vtep"]%string.
Proof. reflexivity. Qed.

Example ip_ex : re_match IP_PATTERN "10.0.0.1" = true /\ re_match IP_PATTERN "10.0.0." = false
                /\ re_match IP_PATTERN "10.0.0.1/24" = true.
Proof. vm_compute. repeat split. Qed.

Example mac_ex : re_match MAC_PATTERN "00:50:56:AA:68:16" = true
                 /\ canonical_mac "00:50:56:AA:68:16" = true
                 /\ re_match MAC_PATTERN "00:50:56:AA:68:1" = false.
Proof. vm_compute. repeat split. Qed.

Example parse_ex :
  parse_arp_table ("VNI IP MAC Conn" ++ newline ++
                   "5000 10.0.0.1 00:50:56:AA:68:16 vtep1" ++ newline)%string
  !! "00:50:56:aa:68:16"%string = Some "10.0.0.1"%string.
Proof. vm_compute. reflexivity. Qed.

End NSX.

(* ===================================================================== *)
(** * Effect: state and exceptions *)
(* ===================================================================== *)

(** A Python call either returns a value or raises, and may change the
    state it works on in both cases. *)
Module Effect.

Definition M (S E A : Type) : Type := S -> (E + A) * S.

Section Ops.

Context {S E : Type}.

Definition ret {A : Type} (a : A) : M S E A := fun s => (inr a, s).

Definition raise {A : Type} (e : E) : M S E A := fun s => (inl e, s).

Definition bind {A B : Type} (m : M S E A) (k : A -> M S E B) : M S E B :=
  fun s =>
    match m s with
    | (inl e, s') => (inl e, s')
    | (inr a, s') => k a s'
    end.

(** [try: m  except Exception as e: handler e] *)
Definition try_except {A : Type} (m : M S E A) (handler : E -> M S E A) : M S E A :=
  fun s =>
    match m s with
    | (inl e, s') => handler e s'
    | (inr a, s') => (inr a, s')
    end.

End Ops.

Declare Scope effect_scope.
Delimit Scope effect_scope with effect.

Notation "x <- c1 ;; c2" := (bind c1 (fun x => c2))
  (at level 100, c1 at next level, right associativity) : effect_scope.
Notation "c1 ;; c2" := (bind c1 (fun _ => c2))
  (at level 100, right associativity) : effect_scope.

End Effect.

(* ===================================================================== *)
(** * VSphere: session guard, power operations, clone_vm *)
(* ===================================================================== *)

Module VSphere.

Import Effect.
Local Open Scope effect_scope.

(** [vim.VirtualMachinePowerState] *)
Inductive PowerState : Type := poweredOn | poweredOff | suspended.

Definition PowerState_eqb (a b : PowerState) : bool :=
  match a, b with
  | poweredOn, poweredOn | poweredOff, poweredOff | suspended, suspended => true
  | _, _ => false
  end.

(** [vim.Folder]: its name and its parent; the parent of a top folder is
    [None]. *)
Inductive Folder : Type :=
| TopFolder (folder_name : string)
| SubFolder (folder_name : string) (parent_folder : Folder).

Definition folder_name (f : Folder) : string :=
  match f with TopFolder n | SubFolder n _ => n end.

Definition folder_parent (f : Folder) : option Folder :=
  match f with TopFolder _ => None | SubFolder _ p => Some p end.

(** [vim.VirtualMachine], with the properties the manager reads. *)
Record VirtualMachine : Type := {
  name : string;
  runtime_powerState : PowerState;
  parent : Folder;
  resourcePool : string;
  datastore : list string
}.

(** source/exceptions/vsphere.py, and what the SDK itself can raise. *)
Inductive exn : Type :=
| NotAuthenticated
| VMNotFoundError (vm_name : string)
| VMPowerOnError (vm_name : string) (current_state : PowerState)
| VMPowerOffError (vm_name : string) (current_state : PowerState)
| VMCloneError (vm_name : string) (details : string)
| TaskFailed (msg : string)
| TypeError (msg : string)
| SdkError (msg : string).

(** [str(e)] is not computed: the details of an error carry a fixed text
    for each kind. *)
Definition str (e : exn) : string :=
  match e with
  | TaskFailed msg => ("Task failed: " ++ msg)%string
  | SdkError msg => msg
  | TypeError msg => msg
  | _ => "vSphere error"%string
  end.

(** What [self.si.CurrentTime()] does on the current session. *)
Inductive session_state : Type :=
| SessionValid
| SessionExpired
| SessionBroken (e : exn).

(** Final state of a [vim.Task], as [wait_for_task] finds it. *)
Inductive TaskInfoState : Type :=
| success
| error (msg : string).

(** Requests that change something on the server. *)
Inductive request : Type :=
| PowerOn (vm : VirtualMachine)
| PowerOff (vm : VirtualMachine)
| Suspend (vm : VirtualMachine)
| Clone (source : VirtualMachine) (folder : Folder) (new_name : string)
| CreateFolder (parent_folder : Folder) (new_name : string).

(** The vCenter as the manager sees it. *)
Record vcenter : Type := {
  session : session_state;
  (** what [SmartConnect] does: [None] for a new session, else the error *)
  smart_connect : option exn;
  (** the container views over [rootFolder] *)
  vm_view : list VirtualMachine;
  folder_view : list Folder
}.

(** The manager's world: the vCenter and the requests sent so far. *)
Record state : Type := {
  vc : vcenter;
  requests : list request
}.

Definition with_session (s : session_state) (v : vcenter) : vcenter :=
  {| session := s; smart_connect := smart_connect v;
     vm_view := vm_view v; folder_view := folder_view v |}.

(** ** Concrete servers *)

(** A server on which every task succeeds, except that folders cannot be
    created; a clone appears in the inventory, powered off, next to its
    source. *)
Definition obliging_task (r : request) (v : vcenter) : (exn + TaskInfoState) * vcenter :=
  match r with
  | Clone source folder new_name =>
      (inr success,
       {| session := session v; smart_connect := smart_connect v;
          vm_view := vm_view v ++
            [{| name := new_name; runtime_powerState := poweredOff; parent := folder;
                resourcePool := resourcePool source; datastore := datastore source |}];
          folder_view := folder_view v |})
  | _ => (inr success, v)
  end.

Definition refuse_folder (p : Folder) (n : string) (v : vcenter) : (exn + Folder) * vcenter :=
  (inl (SdkError "NoPermission"), v).

Definition no_path (path : string) : M state exn Folder :=
  Effect.raise (SdkError "Datacenter not found").

Definition env_folder : Folder := SubFolder "Dev" (TopFolder "vm").

Definition golden : VirtualMachine :=
  {| name := "[Dev] Golden"; runtime_powerState := poweredOff; parent := env_folder;
     resourcePool := "pool"; datastore := ["NFS_Raid"%string] |}.

Definition ready_vm : VirtualMachine :=
  {| name := "[Dev] VM2login_0a1b2c3d"; runtime_powerState := poweredOff;
     parent := env_folder; resourcePool := "pool"; datastore := ["NFS_Raid"%string] |}.

Definition state_of (s : session_state) (vms : list VirtualMachine) : state :=
  {| vc := {| session := s; smart_connect := None; vm_view := vms;
              folder_view := [TopFolder "vm"; env_folder] |};
     requests := [] |}.

(** The session has expired and vCenter refuses a new one. *)
Definition unreachable (vms : list VirtualMachine) : state :=
  {| vc := {| session := SessionExpired;
              smart_connect := Some (SdkError "vCenter unreachable");
              vm_view := vms;
              folder_view := [TopFolder "vm"; env_folder] |};
     requests := [] |}.

Section Manager.

(** How the server answers a request: the call itself raises, or it
    returns a task that ends in a final state (a created folder for
    [CreateFolder]); the server may change in every case. *)
Variable run_task : request -> vcenter -> (exn + TaskInfoState) * vcenter.
Variable run_create_folder : Folder -> string -> vcenter -> (exn + Folder) * vcenter.
(** [ensure_folder_path], the branch of [clone_vm] for a path with a slash. *)
Variable ensure_folder_path : string -> M state exn Folder.

(** [VSphereConnection._connect]: errors are logged and re-raised. *)
Definition _connect : M state exn unit :=
  fun st =>
    match smart_connect (vc st) with
    | Some e => (inl e, st)
    | None => (inr tt, {| vc := with_session SessionValid (vc st);
                          requests := requests st |})
    end.

(** [VSphereConnection.reconnect_if_needed] *)
Definition reconnect_if_needed : M state exn bool :=
  fun st =>
    match session (vc st) with
    | SessionValid => (inr false, st)
    | SessionExpired => (_connect ;; ret true) st
    | SessionBroken e => (inl e, st)
    end.

(** [get_obj([vim.VirtualMachine], name)], [get_obj([vim.Folder], name)]:
    the first object of the view with that name. *)
Definition get_vm_by_name (n : string) (st : state) : option VirtualMachine :=
  List.find (fun obj => String.eqb (name obj) n) (vm_view (vc st)).

Definition get_folder_by_name (n : string) (st : state) : option Folder :=
  List.find (fun obj => String.eqb (folder_name obj) n) (folder_view (vc st)).

(** The part of the [ensure_vm_connection] wrapper before [fn] is called:
    the handle that is passed on. *)
Definition guard (vm : VirtualMachine) : M state exn VirtualMachine :=
  reconnected <- reconnect_if_needed ;;
  if (reconnected : bool) then
    fun st =>
      match get_vm_by_name (name vm) st with
      | None => (inl (VMNotFoundError (name vm)), st)
      | Some new_vm => (inr new_vm, st)
      end
  else ret vm.

Definition ensure_vm_connection {A : Type}
           (fn : VirtualMachine -> M state exn A) (vm : VirtualMachine) : M state exn A :=
  vm' <- guard vm ;; fn vm'.

(** Sending a request: it is recorded, then the server answers. *)
Definition send (r : request) : M state exn TaskInfoState :=
  fun st =>
    let '(res, v) := run_task r (vc st) in
    (res, {| vc := v; requests := requests st ++ [r] |}).

(** [wait_for_task]: polling ends at the final state of the task. *)
Definition wait_for_task (final : TaskInfoState) : M state exn unit :=
  match final with
  | success => ret tt
  | error msg => raise (TaskFailed msg)
  end.

(** [power_on_vm] *)
Definition power_on_vm : VirtualMachine -> M state exn unit :=
  ensure_vm_connection (fun vm =>
    let current_state := runtime_powerState vm in
    if PowerState_eqb current_state poweredOn then ret tt
    else
      task <- send (PowerOn vm) ;;
      try_except (wait_for_task task)
                 (fun _ => raise (VMPowerOnError (name vm) current_state))).

(** [suspend_vm]: both the request and the wait are inside the [try]; the
    handler calls [VMSuspendError] with a keyword it does not accept, which
    raises [TypeError]. *)
Definition suspend_vm : VirtualMachine -> M state exn unit :=
  ensure_vm_connection (fun vm =>
    let current_state := runtime_powerState vm in
    if PowerState_eqb current_state suspended then ret tt
    else
      try_except (task <- send (Suspend vm) ;; wait_for_task task)
                 (fun _ => raise (TypeError "__init__() got an unexpected keyword argument 'details'"))).

(** [power_off_vm] *)
Definition power_off_vm : VirtualMachine -> M state exn unit :=
  ensure_vm_connection (fun vm =>
    let current_state := runtime_powerState vm in
    if PowerState_eqb current_state poweredOff then ret tt
    else
      task <- send (PowerOff vm) ;;
      try_except (wait_for_task task)
                 (fun _ => raise (VMPowerOffError (name vm) current_state))).

(** [create_folder]: the session probe is outside the [try]; a failure of
    [CreateFolder] is logged and turned into [None]. *)
Definition create_folder (new_name : string) (parent_folder : Folder)
  : M state exn (option Folder) :=
  reconnect_if_needed ;;
  try_except
    (fun st =>
       let '(res, v) := run_create_folder parent_folder new_name (vc st) in
       (match res with inl e => inl e | inr f => inr (Some f) end,
        {| vc := v; requests := requests st ++ [CreateFolder parent_folder new_name] |}))
    (fun _ => ret None).

Definition contains_slash (s : string) : bool :=
  existsb (fun c => Ascii.eqb c "/"%char) (list_ascii_of_string s).

Definition is_empty (s : string) : bool :=
  match s with EmptyString => true | String _ _ => false end.

(** Lines 205-223 of [clone_vm]: the folder the clone goes to. *)
Definition destination (original_folder : Folder) (folder_name : option string)
  : M state exn Folder :=
  match folder_name with
  | None => ret original_folder
  | Some fname =>
      if is_empty fname then ret original_folder
      else if contains_slash fname then ensure_folder_path fname
      else
        found <- (fun st => (inr (get_folder_by_name fname st), st)) ;;
        folder_candidate <-
          match found with
          | Some f => ret (Some f)
          | None =>
              let base := match folder_parent original_folder with
                          | Some p => p
                          | None => original_folder
                          end in
              create_folder fname base
          end ;;
        match folder_candidate with
        | Some f => ret f
        | None => ret original_folder
        end
  end.

(** Lines 225-247 of [clone_vm]: the clone request, the wait and the
    lookup of the new VM. *)
Definition clone_into (source_vm : VirtualMachine) (destination_folder : Folder)
           (new_vm_name : string) : M state exn VirtualMachine :=
  try_except
    (task <- send (Clone source_vm destination_folder new_vm_name) ;;
     wait_for_task task)
    (fun e => raise (VMCloneError new_vm_name (str e))) ;;
  fun st =>
    match get_vm_by_name new_vm_name st with
    | None => (inl (VMCloneError new_vm_name "clone not found after creation"), st)
    | Some vm => (inr vm, st)
    end.

(** [clone_vm] *)
Definition clone_vm (source_vm_name new_vm_name : string) (folder_name : option string)
  : M state exn VirtualMachine :=
  fun st =>
    match get_vm_by_name source_vm_name st with
    | None => (inl (VMCloneError new_vm_name "source VM not found"), st)
    | Some source_vm =>
        let original_folder := parent source_vm in
        match datastore source_vm with
        | [] => (inl (VMCloneError new_vm_name "source VM has no datastore"), st)
        | _ :: _ =>
            (destination_folder <- destination original_folder folder_name ;;
             clone_into source_vm destination_folder new_vm_name) st
        end
    end.

(** The target state of each power operation. *)
Inductive power_op : Type := OpPowerOn | OpSuspend | OpPowerOff.

Definition target (op : power_op) : PowerState :=
  match op with
  | OpPowerOn => poweredOn
  | OpSuspend => suspended
  | OpPowerOff => poweredOff
  end.

Definition power_call (op : power_op) : VirtualMachine -> M state exn unit :=
  match op with
  | OpPowerOn => power_on_vm
  | OpSuspend => suspend_vm
  | OpPowerOff => power_off_vm
  end.

(** The claim's reading of idempotence: whatever the state of the session,
    a handle in the target state makes the call return without error, with
    no request sent and the vCenter as it was. *)
Definition noop_on_target (op : power_op) (vm : VirtualMachine) (st : state) : Prop :=
  runtime_powerState vm = target op ->
  exists st', power_call op vm st = (inr tt, st') /\
              requests st' = requests st /\
              vm_view (vc st') = vm_view (vc st).

Lemma guard_valid (vm : VirtualMachine) (st : state) :
  session (vc st) = SessionValid -> guard vm st = (inr vm, st).
Proof.
  intros Hs. unfold guard, bind, reconnect_if_needed. rewrite Hs. reflexivity.
Qed.

Lemma guard_expired (vm new_vm : VirtualMachine) (st : state) :
  session (vc st) = SessionExpired ->
  smart_connect (vc st) = None ->
  get_vm_by_name (name vm) st = Some new_vm ->
  guard vm st =
  (inr new_vm, {| vc := with_session SessionValid (vc st); requests := requests st |}).
Proof.
  intros Hs Hc Hfind.
  unfold guard, bind, reconnect_if_needed. rewrite Hs.
  unfold bind, _connect, ret. rewrite Hc.
  unfold get_vm_by_name in *. simpl. rewrite Hfind. reflexivity.
Qed.

Lemma guard_not_found (vm : VirtualMachine) (st : state) :
  session (vc st) = SessionExpired ->
  smart_connect (vc st) = None ->
  get_vm_by_name (name vm) st = None ->
  guard vm st =
  (inl (VMNotFoundError (name vm)),
   {| vc := with_session SessionValid (vc st); requests := requests st |}).
Proof.
  intros Hs Hc Hfind.
  unfold guard, bind, reconnect_if_needed. rewrite Hs.
  unfold bind, _connect, ret. rewrite Hc.
  unfold get_vm_by_name in *. simpl. rewrite Hfind. reflexivity.
Qed.

(** The guard sends no request and leaves the inventory alone. *)
Lemma guard_frame (vm : VirtualMachine) (st st' : state) (r : exn + VirtualMachine) :
  guard vm st = (r, st') ->
  requests st' = requests st /\ vm_view (vc st') = vm_view (vc st).
Proof.
  unfold guard, bind, reconnect_if_needed.
  destruct (session (vc st)); [| |].
  - intros [= <- <-]. auto.
  - unfold bind, _connect, ret. destruct (smart_connect (vc st)).
    + intros [= <- <-]. auto.
    + destruct (get_vm_by_name _ _); intros [= <- <-]; auto.
  - intros [= <- <-]. auto.
Qed.

(** What a power operation does once the guard has run. *)
Lemma power_call_after_guard (op : power_op) (vm : VirtualMachine) (st st' : state)
      (r : exn + VirtualMachine) :
  guard vm st = (r, st') ->
  match r with
  | inr vm' =>
      runtime_powerState vm' = target op -> power_call op vm st = (inr tt, st')
  | inl e => power_call op vm st = (inl e, st')
  end.
Proof.
  intros Hg. destruct r as [e|vm'].
  - destruct op; unfold power_call, power_on_vm, suspend_vm, power_off_vm,
      ensure_vm_connection, bind; rewrite Hg; reflexivity.
  - intros Hstate.
    destruct op; unfold power_call, power_on_vm, suspend_vm, power_off_vm,
      ensure_vm_connection, bind; rewrite Hg, Hstate; reflexivity.
Qed.

(** C9, as the code has it.  For each of power_on_vm, suspend_vm and
    power_off_vm: when the connection guard hands on a handle that is in
    the target state -- the given handle if the session is valid, the
    handle found again by name if the session had to be reopened -- the
    call returns without error, sends no request and leaves the inventory
    as it was; when the guard raises, the call raises the same error and
    still sends no request. *)
Theorem power_ops_idempotent (op : power_op) (vm : VirtualMachine) (st st' : state)
        (r : exn + VirtualMachine) :
  guard vm st = (r, st') ->
  match r with
  | inr vm' =>
      runtime_powerState vm' = target op -> power_call op vm st = (inr tt, st')
  | inl e => power_call op vm st = (inl e, st')
  end /\
  requests st' = requests st /\ vm_view (vc st') = vm_view (vc st).
Proof.
  intros Hg. split.
  - exact (power_call_after_guard op vm st st' r Hg).
  - exact (guard_frame _ _ _ _ Hg).
Qed.

(** With a valid session the claim holds as stated. *)
Lemma noop_on_target_valid (op : power_op) (vm : VirtualMachine) (st : state) :
  session (vc st) = SessionValid -> noop_on_target op vm st.
Proof.
  intros Hs Hstate. exists st.
  pose proof (power_call_after_guard op vm st st (inr vm) (guard_valid vm st Hs)) as H.
  auto.
Qed.

(** When the target folder is given by a plain name that no folder has and
    [create_folder] comes back with [None], or when no folder is given,
    the destination is the folder of the source VM. *)
Lemma destination_fallback (original_folder : Folder) (fname : string) (st st1 : state) :
  is_empty fname = false ->
  contains_slash fname = false ->
  get_folder_by_name fname st = None ->
  create_folder fname
    (match folder_parent original_folder with Some p => p | None => original_folder end) st
  = (inr None, st1) ->
  destination original_folder (Some fname) st = (inr original_folder, st1).
Proof.
  intros He Hs Hf Hc. unfold destination. rewrite He, Hs.
  unfold bind at 1. rewrite Hf. unfold bind. rewrite Hc. reflexivity.
Qed.

(** A session probe that raises inside [create_folder] is not a failed
    creation: it is outside the [try] and leaves [create_folder] as an
    error. *)
Lemma create_folder_probe_raises (new_name : string) (parent_folder : Folder)
      (st : state) (e : exn) :
  session (vc st) = SessionBroken e ->
  create_folder new_name parent_folder st = (inl e, st).
Proof.
  intros Hs. unfold create_folder, bind, reconnect_if_needed. rewrite Hs. reflexivity.
Qed.

(** C10. If the source VM exists and has a datastore, then (a) without a
    folder name, and (b) with a non-empty folder name without slash that
    no folder has and whose creation fails ([create_folder] returns
    [None]), [clone_vm] goes on to clone into the parent folder of the
    source VM: its outcome is that of the clone request for that folder,
    and it is the new VM whenever that request succeeds and the new VM is
    found. *)
Theorem clone_vm_folder_fallback
        (source_vm_name new_vm_name fname : string)
        (source_vm : VirtualMachine) (st st1 : state) :
  get_vm_by_name source_vm_name st = Some source_vm ->
  datastore source_vm <> [] ->
  is_empty fname = false ->
  contains_slash fname = false ->
  get_folder_by_name fname st = None ->
  create_folder fname
    (match folder_parent (parent source_vm) with
     | Some p => p
     | None => parent source_vm
     end) st = (inr None, st1) ->
  clone_vm source_vm_name new_vm_name None st =
    clone_into source_vm (parent source_vm) new_vm_name st /\
  clone_vm source_vm_name new_vm_name (Some fname) st =
    clone_into source_vm (parent source_vm) new_vm_name st1 /\
  (forall (v : vcenter) (new_vm : VirtualMachine),
      run_task (Clone source_vm (parent source_vm) new_vm_name) (vc st1) = (inr success, v) ->
      List.find (fun obj => String.eqb (name obj) new_vm_name) (vm_view v) = Some new_vm ->
      clone_vm source_vm_name new_vm_name (Some fname) st =
      (inr new_vm,
       {| vc := v;
          requests := requests st1 ++ [Clone source_vm (parent source_vm) new_vm_name] |})).
Proof.
  intros Hsrc Hds He Hs Hf Hc.
  assert (Hnone : clone_vm source_vm_name new_vm_name None st =
                  clone_into source_vm (parent source_vm) new_vm_name st).
  { unfold clone_vm. rewrite Hsrc.
    destruct (datastore source_vm); [congruence|]. reflexivity. }
  assert (Hsome : clone_vm source_vm_name new_vm_name (Some fname) st =
                  clone_into source_vm (parent source_vm) new_vm_name st1).
  { unfold clone_vm. rewrite Hsrc.
    destruct (datastore source_vm); [congruence|].
    unfold bind at 1.
    rewrite (destination_fallback _ _ _ _ He Hs Hf Hc). reflexivity. }
  split; [exact Hnone|]. split; [exact Hsome|].
  intros v new_vm Hrun Hfind. rewrite Hsome.
  unfold clone_into, bind, try_except, send. rewrite Hrun. simpl.
  unfold get_vm_by_name. simpl. rewrite Hfind. reflexivity.
Qed.

End Manager.

Lemma power_ops_idempotent_witness :
  power_call obliging_task OpPowerOff ready_vm (state_of SessionValid [golden; ready_vm])
  = (inr tt, state_of SessionValid [golden; ready_vm]).
Proof.
  pose proof (power_ops_idempotent obliging_task OpPowerOff ready_vm
                (state_of SessionValid [golden; ready_vm])
                (state_of SessionValid [golden; ready_vm])
                (inr ready_vm) eq_refl) as [H _].
  apply H. reflexivity.
Defined.

(** C9 as stated fails: the VM is powered off already, the session has
    expired and cannot be reopened, and power_off_vm raises the error of
    the reconnect; likewise, if the session is reopened but the name of the
    handle no longer resolves, power_off_vm raises VMNotFoundError. *)
Lemma power_off_guard_counterexample :
  runtime_powerState ready_vm = target OpPowerOff /\
  power_off_vm obliging_task ready_vm (unreachable [golden; ready_vm])
  = (inl (SdkError "vCenter unreachable"), unreachable [golden; ready_vm]) /\
  ~ noop_on_target obliging_task OpPowerOff ready_vm (unreachable [golden; ready_vm]) /\
  power_off_vm obliging_task ready_vm (state_of SessionExpired [golden])
  = (inl (VMNotFoundError "[Dev] VM2login_0a1b2c3d"), state_of SessionValid [golden]) /\
  ~ noop_on_target obliging_task OpPowerOff ready_vm (state_of SessionExpired [golden]).
Proof.
  split; [reflexivity|]. split; [reflexivity|]. split; [|split; [reflexivity|]].
  - intros H. destruct (H eq_refl) as (st' & Hcall & _).
    vm_compute in Hcall. discriminate Hcall.
  - intros H. destruct (H eq_refl) as (st' & Hcall & _).
    vm_compute in Hcall. discriminate Hcall.
Qed.

Lemma clone_vm_folder_fallback_witness :
  clone_vm obliging_task refuse_folder no_path "[Dev] Golden" "[Dev] VMInit_0a1b2c3d"
           (Some "LoginVMs"%string) (state_of SessionValid [golden])
  = clone_vm obliging_task refuse_folder no_path "[Dev] Golden" "[Dev] VMInit_0a1b2c3d"
             None
             {| vc := vc (state_of SessionValid [golden]);
                requests := [CreateFolder (TopFolder "vm") "LoginVMs"] |}.
Proof.
  pose proof (clone_vm_folder_fallback obliging_task refuse_folder no_path
                "[Dev] Golden" "[Dev] VMInit_0a1b2c3d" "LoginVMs" golden
                (state_of SessionValid [golden])
                {| vc := vc (state_of SessionValid [golden]);
                   requests := [CreateFolder (TopFolder "vm") "LoginVMs"] |}
                eq_refl ltac:(discriminate) eq_refl eq_refl eq_refl eq_refl)
    as (_ & Hsome & _).
  rewrite Hsome. reflexivity.
Defined.

Example clone_vm_fallback_run :
  fst (clone_vm obliging_task refuse_folder no_path "[Dev] Golden" "[Dev] VMInit_0a1b2c3d"
                (Some "LoginVMs"%string) (state_of SessionValid [golden]))
  = inr {| name := "[Dev] VMInit_0a1b2c3d"; runtime_powerState := poweredOff;
           parent := env_folder; resourcePool := "pool";
           datastore := ["NFS_Raid"%string] |}.
Proof. reflexivity. Qed.

End VSphere.

(* ===================================================================== *)
(** * Builder: retry_sync and CloneWorker *)
(* ===================================================================== *)

Module Builder.

Import Effect.
Local Open Scope effect_scope.

(** Exceptions, as far as the worker tells them apart: [TimeoutError] has
    a handler of its own in [_bliss_init], everything else is caught as
    [Exception].  Exceptions outside [Exception] (an interrupt, a kill) end
    the process and are not part of the model. *)
Inductive exn : Type :=
| TimeoutError (msg : string)
| Error (msg : string).

Definition is_timeout (e : exn) : bool :=
  match e with TimeoutError _ => true | Error _ => false end.

(** [traceback.format_exc()] *)
Definition format_exc (e : exn) : string :=
  match e with TimeoutError msg | Error msg => msg end.

(** services/tasks.py *)
Inductive status : Type := ok | err.

Record WorkerResult : Type := {
  result_status : status;
  vm_name : string;
  message : option string
}.

(** The calls a worker makes, in the order it makes them. *)
Inductive call : Type :=
| CallConnect
| CallDisconnect
| CallCloneVm
| CallPowerOnVm
| CallWaitForVmReady
| CallPowerOffVm
| CallMarkReady
| CallMarkFault
| CallRestartVm
| CallEnsureNsxAlive
| CallBlissInit
| CallGameTutorial
| CallPut (r : WorkerResult).

(** What the worker uses of [VSpherePoolManager] and of the guest-side
    phases, over a world [W] with VM handles [VM].  A handle argument is
    [self.vm], which is [None] until the clone returned one. *)
Class Pool (W VM : Type) : Type := {
  connect : W -> (exn + unit) * W;
  disconnect : W -> (exn + unit) * W;
  clone_vm : string -> string -> string -> W -> (exn + VM) * W;
  power_on_vm : option VM -> W -> (exn + unit) * W;
  wait_for_vm_ready : Z -> option VM -> W -> (exn + string) * W;
  power_off_vm : option VM -> W -> (exn + unit) * W;
  mark_ready : option VM -> W -> (exn + unit) * W;
  mark_fault : option VM -> W -> (exn + unit) * W;
  restart_vm : option VM -> W -> (exn + string) * W;
  ensure_nsx_alive : W -> W;
  (** [with BlisInitSetup(ip=ip) as init: init.run()] *)
  bliss_init_setup : option string -> W -> (exn + unit) * W;
  (** [with GameTutorial(ip=ip, vm_name=...) as init: init.run()] *)
  game_tutorial : option string -> string -> W -> (exn + unit) * W;
  name_of : VM -> string
}.

(** What [__init__] takes from the task and the configuration. *)
Record settings : Type := {
  prefix : string;
  golden_name : string;
  id_hex : string;
  retries : Z;
  ip_timeout : Z
}.

(** ** A scripted world

    Handles are VM names.  Every call succeeds, except that the successive
    runs of the guest bootstrap and the successive power_off_vm calls take
    their outcome from a script, succeeding once the script is used up. *)
Record scripted : Type := {
  bliss_script : list (exn + unit);
  power_off_script : list (exn + unit)
}.

Definition next_bliss (w : scripted) : (exn + unit) * scripted :=
  match bliss_script w with
  | [] => (inr tt, w)
  | o :: rest => (o, {| bliss_script := rest; power_off_script := power_off_script w |})
  end.

Definition next_power_off (w : scripted) : (exn + unit) * scripted :=
  match power_off_script w with
  | [] => (inr tt, w)
  | o :: rest => (o, {| bliss_script := bliss_script w; power_off_script := rest |})
  end.

#[local] Instance scripted_pool : Pool scripted string := {
  connect := fun w => (inr tt, w);
  disconnect := fun w => (inr tt, w);
  clone_vm := fun _ new_name _ w => (inr new_name, w);
  power_on_vm := fun _ w => (inr tt, w);
  wait_for_vm_ready := fun _ _ w => (inr "10.0.0.1"%string, w);
  power_off_vm := fun _ w => next_power_off w;
  mark_ready := fun _ w => (inr tt, w);
  mark_fault := fun _ w => (inr tt, w);
  restart_vm := fun _ w => (inr "10.0.0.1"%string, w);
  ensure_nsx_alive := fun w => w;
  bliss_init_setup := fun _ w => next_bliss w;
  game_tutorial := fun _ _ w => (inr tt, w);
  name_of := fun v => v
}.

Definition cfg0 : settings :=
  {| prefix := "Dev"; golden_name := "Golden"; id_hex := "0a1b2c3d";
     retries := 3; ip_timeout := 10 |}.

(** Every call succeeds. *)
Definition all_fine : scripted := {| bliss_script := []; power_off_script := [] |}.

(** The guest bootstrap ends in TimeoutError three times. *)
Definition install_timeouts : scripted :=
  {| bliss_script := [inl (TimeoutError "apk"); inl (TimeoutError "apk");
                      inl (TimeoutError "apk")];
     power_off_script := [] |}.

(** power_off_vm succeeds once and fails from then on. *)
Definition power_off_breaks : scripted :=
  {| bliss_script := [];
     power_off_script := [inr tt; inl (Error "off"); inl (Error "off"); inl (Error "off");
                          inl (Error "off"); inl (Error "off"); inl (Error "off")] |}.

Section Worker.

Context {W VM : Type} `{Pool W VM}.
Variable cfg : settings.

Definition source_vm : string := ("[" ++ prefix cfg ++ "] " ++ golden_name cfg)%string.
Definition name_init : string := ("[" ++ prefix cfg ++ "] VMInit_" ++ id_hex cfg)%string.
Definition name_ready : string := ("[" ++ prefix cfg ++ "] VM2login_" ++ id_hex cfg)%string.
Definition name_error : string := ("[" ++ prefix cfg ++ "] VMError_" ++ id_hex cfg)%string.
Definition folder_2_vm : string := ("DC1/ZeonVM/" ++ prefix cfg ++ "/LoginVMs")%string.

(** The worker and what it acts on. *)
Record worker : Type := {
  world : W;
  vm : option VM;
  result_q : list WorkerResult;
  calls : list call
}.

Definition Run (A : Type) : Type := M worker exn A.

(** A call into the world, recorded when it is made. *)
Definition call_pool {A : Type} (c : call) (op : W -> (exn + A) * W) : Run A :=
  fun s =>
    let '(r, w) := op (world s) in
    (r, {| world := w; vm := vm s; result_q := result_q s; calls := calls s ++ [c] |}).

(** The same for a call that takes [self.vm], read when the call is made. *)
Definition on_vm {A : Type} (c : call) (op : option VM -> W -> (exn + A) * W) : Run A :=
  fun s => call_pool c (op (vm s)) s.

(** [self.vm = v] *)
Definition set_vm (v : option VM) : Run unit :=
  fun s => (inr tt, {| world := world s; vm := v; result_q := result_q s; calls := calls s |}).

(** [self.result_q.put(r)] *)
Definition put (r : WorkerResult) : Run unit :=
  fun s => (inr tt, {| world := world s; vm := vm s;
                       result_q := result_q s ++ [r];
                       calls := calls s ++ [CallPut r] |}).

(** [retry_sync]: the loop over [range(1, retries + 1)], by the number of
    iterations left.  When the range is empty the function ends without
    [return], that is with [None].  The sleeps between attempts are left
    out here, as is the difference between a [None] that [fn] returns and
    the one of an empty range; module [Backoff] below has both. *)
Fixpoint retry_loop {A : Type} (fn : Run A) (retries : Z) (left : nat) (attempt : Z)
  : Run (option A) :=
  match left with
  | O => ret None
  | S n =>
      fun s =>
        match fn s with
        | (inr a, s') => (inr (Some a), s')
        | (inl e, s') =>
            if attempt =? retries then (inl e, s')
            else retry_loop fn retries n (attempt + 1) s'
        end
  end.

Definition retry_sync {A : Type} (fn : Run A) (retries : Z) : Run (option A) :=
  retry_loop fn retries (Z.to_nat retries) 1.

(** [_bliss_init]: the loop over [range(1, 4)], by the attempts left.  An
    exhausted loop ends the function without [return]. *)
Fixpoint bliss_attempts (attempts : list Z) (ip : option string) : Run (option string) :=
  match attempts with
  | [] => ret None
  | attempt :: rest =>
      fun s =>
        match call_pool CallBlissInit (bliss_init_setup ip) s with
        | (inr _, s') => (inr ip, s')
        | (inl e, s') =>
            if is_timeout e then bliss_attempts rest ip s'
            else if attempt =? 3 then (inl e, s')
            else
              (call_pool CallEnsureNsxAlive (fun w => (inr tt, ensure_nsx_alive w)) ;;
               on_vm CallRestartVm restart_vm ;;
               ip' <- on_vm CallWaitForVmReady (wait_for_vm_ready 300) ;;
               bliss_attempts rest (Some ip')) s'
        end
  end.

Definition _bliss_init (ip : option string) : Run (option string) :=
  bliss_attempts [1; 2; 3] ip.

(** The body of the [try] in [_game_init]: [self.vm.name] fails on
    [None]. *)
Definition game_run (ip : option string) : Run unit :=
  fun s =>
    match vm s with
    | None => (inl (Error "AttributeError: 'NoneType' object has no attribute 'name'"), s)
    | Some v => call_pool CallGameTutorial (game_tutorial ip (name_of v)) s
    end.

(** [_game_init] *)
Fixpoint game_attempts (attempts : list Z) (ip : option string) : Run unit :=
  match attempts with
  | [] => ret tt
  | attempt :: rest =>
      fun s =>
        match game_run ip s with
        | (inr _, s') => (inr tt, s')
        | (inl e, s') =>
            if attempt =? 3 then (inl e, s')
            else
              (on_vm CallRestartVm restart_vm ;;
               ip' <- on_vm CallWaitForVmReady (wait_for_vm_ready 300) ;;
               game_attempts rest (Some ip')) s'
        end
  end.

Definition _game_init (ip : option string) : Run unit :=
  game_attempts [1; 2; 3] ip.

(** [with VSpherePoolManager(...) as pool: body]: the constructor connects
    and may raise; [__exit__] disconnects, may raise, and otherwise lets the
    outcome of the body through. *)
Definition with_pool {A : Type} (body : Run A) : Run A :=
  call_pool CallConnect connect ;;
  fun s =>
    let '(r, s') := body s in
    match call_pool CallDisconnect disconnect s' with
    | (inl e, s'') => (inl e, s'')
    | (inr _, s'') => (r, s'')
    end.

Definition ok_result : WorkerResult :=
  {| result_status := ok; vm_name := name_ready; message := None |}.

Definition err_result (tb : string) : WorkerResult :=
  {| result_status := err; vm_name := name_error; message := Some tb |}.

(** Lines 107-128 of [prepare_vm]: clone, power on, wait for the IP and
    the two guest-side phases. *)
Definition build : Run unit :=
  cloned <- retry_sync (call_pool CallCloneVm (clone_vm source_vm name_init folder_2_vm))
                       (retries cfg) ;;
  set_vm cloned ;;
  retry_sync (on_vm CallPowerOnVm power_on_vm) (retries cfg) ;;
  ip <- retry_sync (on_vm CallWaitForVmReady (wait_for_vm_ready (ip_timeout cfg)))
                   (retries cfg) ;;
  ip <- _bliss_init ip ;;
  _game_init ip.

(** Lines 130-139 of [prepare_vm]. *)
Definition finish : Run unit :=
  on_vm CallMarkReady mark_ready ;;
  on_vm CallPowerOffVm power_off_vm ;;
  put ok_result ;;
  retry_sync (on_vm CallPowerOffVm power_off_vm) (retries cfg) ;;
  retry_sync (on_vm CallMarkReady mark_ready) (retries cfg) ;;
  put ok_result.

(** [prepare_vm] *)
Definition prepare_vm : Run unit :=
  with_pool (build ;; finish).

(** [_cleanup_on_error] *)
Definition _cleanup_on_error (exc : exn) : Run unit :=
  let tb := format_exc exc in
  try_except
    (with_pool
       (fun s =>
          match vm s with
          | Some _ =>
              (try_except
                 (retry_sync (on_vm CallPowerOffVm power_off_vm) (retries cfg) ;; ret tt)
                 (fun _ => ret tt) ;;
               on_vm CallMarkFault mark_fault) s
          | None => (inr tt, s)
          end))
    (fun _ => ret tt) ;;
  put (err_result tb).

(** [CloneWorker.run] *)
Definition run : Run unit :=
  try_except prepare_vm _cleanup_on_error.

(** A new worker: [self.vm = None], nothing posted, nothing called. *)
Definition new_worker (w : W) : worker :=
  {| world := w; vm := None; result_q := []; calls := [] |}.

(** The results posted by a list of calls. *)
Fixpoint posted (cs : list call) : list WorkerResult :=
  match cs with
  | [] => []
  | CallPut r :: rest => r :: posted rest
  | _ :: rest => posted rest
  end.

(** Calls of the build phase. *)
Definition early (c : call) : Prop :=
  match c with
  | CallCloneVm | CallPowerOnVm | CallWaitForVmReady | CallRestartVm
  | CallEnsureNsxAlive | CallBlissInit | CallGameTutorial => True
  | _ => False
  end.

(** Calls of the retried block at the end of [prepare_vm]. *)
Definition freezing (c : call) : Prop := c = CallPowerOffVm \/ c = CallMarkReady.

Definition not_put (c : call) : Prop :=
  match c with CallPut _ => False | _ => True end.

(** Calls that post nothing but 'ok' results. *)
Definition posting_ok (c : call) : Prop := not_put c \/ c = CallPut ok_result.

(** Number of runs of the guest bootstrap among the calls. *)
Fixpoint count_bliss (cs : list call) : nat :=
  match cs with
  | [] => 0
  | CallBlissInit :: rest => S (count_bliss rest)
  | _ :: rest => count_bliss rest
  end.

(** [m] only adds calls satisfying [P] to the record, and the queue grows
    by exactly the results those calls post. *)
Definition appends {A : Type} (P : call -> Prop) (m : Run A) : Prop :=
  forall (s s' : worker) (r : exn + A),
    m s = (r, s') ->
    exists evs, calls s' = calls s ++ evs /\ Forall P evs /\
                result_q s' = result_q s ++ posted evs.

Lemma posted_app (a b : list call) : posted (a ++ b) = posted a ++ posted b.
Proof.
  induction a as [|c a IH]; [reflexivity|].
  destruct c; simpl; rewrite IH; reflexivity.
Qed.

Lemma posted_not_put (cs : list call) : Forall not_put cs -> posted cs = [].
Proof.
  induction 1 as [|c cs Hc _ IH]; [reflexivity|].
  destruct c; simpl; try exact IH. destruct Hc.
Qed.

Lemma early_not_put (c : call) : early c -> not_put c.
Proof. destruct c; simpl; tauto. Qed.

Lemma freezing_not_put (c : call) : freezing c -> not_put c.
Proof. intros [-> | ->]; exact I. Qed.

Lemma appends_ret {A : Type} (P : call -> Prop) (a : A) : appends P (ret a).
Proof.
  intros s s' r [= <- <-]. exists []. rewrite !app_nil_r. auto.
Qed.

Lemma appends_raise {A : Type} (P : call -> Prop) (e : exn) : appends P (@raise _ _ A e).
Proof.
  intros s s' r [= <- <-]. exists []. rewrite !app_nil_r. auto.
Qed.

Lemma appends_step {A B : Type} (P : call -> Prop) (m : Run A) (s s1 s' : worker)
      (r : exn + A) (evs : list call) :
  appends P m -> m s = (r, s1) ->
  calls s' = calls s1 ++ evs -> Forall P evs ->
  result_q s' = result_q s1 ++ posted evs ->
  exists evs', calls s' = calls s ++ evs' /\ Forall P evs' /\
               result_q s' = result_q s ++ posted evs'.
Proof.
  intros Hm Hrun Hc HP Hq.
  destruct (Hm _ _ _ Hrun) as (evs0 & Hc0 & HP0 & Hq0).
  exists (evs0 ++ evs). rewrite Hc, Hc0, Hq, Hq0, posted_app, <- !app_assoc.
  split; [reflexivity|]. split; [|reflexivity].
  apply Forall_app. auto.
Qed.

Lemma appends_bind {A B : Type} (P : call -> Prop) (m : Run A) (k : A -> Run B) :
  appends P m -> (forall a, appends P (k a)) -> appends P (bind m k).
Proof.
  intros Hm Hk s s' r. unfold bind.
  destruct (m s) as [[e|a] s1] eqn:Hrun.
  - intros [= <- <-]. exact (Hm _ _ _ Hrun).
  - intros Hrest. destruct (Hk a _ _ _ Hrest) as (evs & Hc & HP & Hq).
    exact (appends_step (B:=B) P m s s1 s' _ evs Hm Hrun Hc HP Hq).
Qed.

Lemma appends_try_except {A : Type} (P : call -> Prop) (m : Run A) (h : exn -> Run A) :
  appends P m -> (forall e, appends P (h e)) -> appends P (try_except m h).
Proof.
  intros Hm Hh s s' r. unfold try_except.
  destruct (m s) as [[e|a] s1] eqn:Hrun.
  - intros Hrest. destruct (Hh e _ _ _ Hrest) as (evs & Hc & HP & Hq).
    exact (appends_step (B:=A) P m s s1 s' _ evs Hm Hrun Hc HP Hq).
  - intros [= <- <-]. exact (Hm _ _ _ Hrun).
Qed.

Lemma appends_weaken {A : Type} (P Q : call -> Prop) (m : Run A) :
  (forall c, P c -> Q c) -> appends P m -> appends Q m.
Proof.
  intros HPQ Hm s s' r Hrun.
  destruct (Hm _ _ _ Hrun) as (evs & Hc & HP & Hq).
  exists evs. split; [exact Hc|]. split; [|exact Hq].
  eapply Forall_impl; [exact HP|exact HPQ].
Qed.

Lemma appends_call_pool {A : Type} (P : call -> Prop) (c : call)
      (op : W -> (exn + A) * W) :
  P c -> not_put c -> appends P (call_pool c op).
Proof.
  intros HP Hc s s' r. unfold call_pool.
  destruct (op (world s)) as [r0 w]. intros [= <- <-].
  exists [c]. simpl. split; [reflexivity|]. split; [auto|].
  destruct c; simpl; rewrite ?app_nil_r; try reflexivity. destruct Hc.
Qed.

Lemma appends_on_vm {A : Type} (P : call -> Prop) (c : call)
      (op : option VM -> W -> (exn + A) * W) :
  P c -> not_put c -> appends P (on_vm c op).
Proof.
  intros HP Hc s s' r. unfold on_vm. apply appends_call_pool; assumption.
Qed.

Lemma appends_set_vm (P : call -> Prop) (v : option VM) : appends P (set_vm v).
Proof.
  intros s s' r [= <- <-]. exists []. simpl. rewrite !app_nil_r. auto.
Qed.

Lemma appends_put (P : call -> Prop) (r : WorkerResult) :
  P (CallPut r) -> appends P (put r).
Proof.
  intros HP s s' r0 [= <- <-]. exists [CallPut r]. simpl. auto.
Qed.

Lemma appends_retry_loop {A : Type} (P : call -> Prop) (fn : Run A)
      (n : Z) (left : nat) (attempt : Z) :
  appends P fn -> appends P (retry_loop fn n left attempt).
Proof.
  intros Hfn. revert attempt.
  induction left as [|left IH]; intros attempt; simpl.
  - apply appends_ret.
  - intros s s' r.
    destruct (fn s) as [[e|a] s1] eqn:Hrun.
    + destruct (attempt =? n).
      * intros [= <- <-]. exact (Hfn _ _ _ Hrun).
      * intros Hrest. destruct (IH _ _ _ _ Hrest) as (evs & Hc & HP & Hq).
        exact (appends_step (B:=A) P fn s s1 s' _ evs Hfn Hrun Hc HP Hq).
    + intros [= <- <-]. exact (Hfn _ _ _ Hrun).
Qed.

Lemma appends_retry_sync {A : Type} (P : call -> Prop) (fn : Run A) (n : Z) :
  appends P fn -> appends P (retry_sync fn n).
Proof. apply appends_retry_loop. Qed.

Lemma appends_bliss_attempts (attempts : list Z) (ip : option string) :
  appends early (bliss_attempts attempts ip).
Proof.
  revert ip. induction attempts as [|attempt rest IH]; intros ip; simpl.
  - apply appends_ret.
  - intros s s' r.
    assert (Hcall : appends early
                      (call_pool (A:=unit) CallBlissInit (bliss_init_setup ip)))
      by (apply appends_call_pool; exact I).
    destruct (call_pool CallBlissInit (bliss_init_setup ip) s) as [[e|a] s1] eqn:Hrun.
    + destruct (is_timeout e).
      * intros Hrest. destruct (IH _ _ _ _ Hrest) as (evs & Hc & HP & Hq).
        exact (appends_step (B:=unit) early _ s s1 s' _ evs Hcall Hrun Hc HP Hq).
      * destruct (attempt =? 3).
        -- intros [= <- <-]. exact (Hcall _ _ _ Hrun).
        -- intros Hrest.
           assert (Hk : appends early
             (call_pool CallEnsureNsxAlive (fun w => (inr tt, ensure_nsx_alive w)) ;;
              on_vm CallRestartVm restart_vm ;;
              ip' <- on_vm CallWaitForVmReady (wait_for_vm_ready 300) ;;
              bliss_attempts rest (Some ip'))%effect).
           { apply appends_bind; [apply appends_call_pool; exact I|intros _].
             apply appends_bind; [apply appends_on_vm; exact I|intros _].
             apply appends_bind; [apply appends_on_vm; exact I|intros ip'].
             apply IH. }
           destruct (Hk _ _ _ Hrest) as (evs & Hc & HP & Hq).
           exact (appends_step (B:=unit) early _ s s1 s' _ evs Hcall Hrun Hc HP Hq).
    + intros [= <- <-]. exact (Hcall _ _ _ Hrun).
Qed.

Lemma appends_game_run (ip : option string) : appends early (game_run ip).
Proof.
  intros s s' r. unfold game_run. destruct (vm s) as [v|].
  - apply appends_call_pool; exact I.
  - intros [= <- <-]. exists []. rewrite !app_nil_r. auto.
Qed.

Lemma appends_game_attempts (attempts : list Z) (ip : option string) :
  appends early (game_attempts attempts ip).
Proof.
  revert ip. induction attempts as [|attempt rest IH]; intros ip; simpl.
  - apply appends_ret.
  - intros s s' r.
    pose proof (appends_game_run ip) as Hcall.
    destruct (game_run ip s) as [[e|a] s1] eqn:Hrun.
    + destruct (attempt =? 3).
      * intros [= <- <-]. exact (Hcall _ _ _ Hrun).
      * intros Hrest.
        assert (Hk : appends early
          (on_vm CallRestartVm restart_vm ;;
           ip' <- on_vm CallWaitForVmReady (wait_for_vm_ready 300) ;;
           game_attempts rest (Some ip'))%effect).
        { apply appends_bind; [apply appends_on_vm; exact I|intros _].
          apply appends_bind; [apply appends_on_vm; exact I|intros ip'].
          apply IH. }
        destruct (Hk _ _ _ Hrest) as (evs & Hc & HP & Hq).
        exact (appends_step (B:=unit) early _ s s1 s' _ evs Hcall Hrun Hc HP Hq).
    + intros [= <- <-]. exact (Hcall _ _ _ Hrun).
Qed.

Lemma appends_build : appends early build.
Proof.
  unfold build.
  apply appends_bind;
    [apply appends_retry_sync, appends_call_pool; exact I|intros cloned].
  apply appends_bind; [apply appends_set_vm|intros _].
  apply appends_bind; [apply appends_retry_sync, appends_on_vm; exact I|intros _].
  apply appends_bind; [apply appends_retry_sync, appends_on_vm; exact I|intros ip].
  apply appends_bind; [apply appends_bliss_attempts|intros ip'].
  apply appends_game_attempts.
Qed.

Lemma bind_inr {A B : Type} (m : Run A) (k : A -> Run B) (s s' : worker) (b : B) :
  bind m k s = (inr b, s') ->
  exists a s1, m s = (inr a, s1) /\ k a s1 = (inr b, s').
Proof.
  unfold bind. destruct (m s) as [[e|a] s1]; [discriminate|]. eauto.
Qed.

Lemma call_pool_effect {A : Type} (c : call) (op : W -> (exn + A) * W)
      (s s' : worker) (r : exn + A) :
  call_pool c op s = (r, s') ->
  calls s' = calls s ++ [c] /\ result_q s' = result_q s /\ vm s' = vm s.
Proof.
  unfold call_pool. destruct (op (world s)). intros [= <- <-]. auto.
Qed.

Lemma put_effect (r : WorkerResult) (s s' : worker) (res : exn + unit) :
  put r s = (res, s') ->
  res = inr tt /\ calls s' = calls s ++ [CallPut r] /\ result_q s' = result_q s ++ [r].
Proof. intros [= <- <-]. auto. Qed.

(** The calls and posts of a [finish] that returns. *)
Lemma finish_success (s s' : worker) :
  finish s = (inr tt, s') ->
  exists freeze,
    calls s' = calls s ++ [CallMarkReady; CallPowerOffVm; CallPut ok_result]
                       ++ freeze ++ [CallPut ok_result] /\
    Forall freezing freeze /\
    result_q s' = result_q s ++ [ok_result; ok_result].
Proof.
  unfold finish. intros Hrun.
  apply bind_inr in Hrun as (? & s1 & H1 & Hrun).
  apply bind_inr in Hrun as (? & s2 & H2 & Hrun).
  apply bind_inr in Hrun as (? & s3 & H3 & Hrun).
  apply bind_inr in Hrun as (? & s4 & H4 & Hrun).
  apply bind_inr in Hrun as (? & s5 & H5 & H6).
  apply call_pool_effect in H1 as (Hc1 & Hq1 & _).
  apply call_pool_effect in H2 as (Hc2 & Hq2 & _).
  apply put_effect in H3 as (_ & Hc3 & Hq3).
  assert (Hoff : appends freezing (retry_sync (on_vm CallPowerOffVm power_off_vm) (retries cfg)))
    by (apply appends_retry_sync, appends_on_vm; [left; reflexivity|exact I]).
  assert (Hmark : appends freezing (retry_sync (on_vm CallMarkReady mark_ready) (retries cfg)))
    by (apply appends_retry_sync, appends_on_vm; [right; reflexivity|exact I]).
  destruct (Hoff _ _ _ H4) as (f1 & Hc4 & Hf1 & Hq4).
  destruct (Hmark _ _ _ H5) as (f2 & Hc5 & Hf2 & Hq5).
  apply put_effect in H6 as (_ & Hc6 & Hq6).
  rewrite (posted_not_put f1) in Hq4
    by (eapply Forall_impl; [exact Hf1|exact freezing_not_put]).
  rewrite (posted_not_put f2) in Hq5
    by (eapply Forall_impl; [exact Hf2|exact freezing_not_put]).
  rewrite app_nil_r in Hq4, Hq5.
  exists (f1 ++ f2). split; [|split].
  - rewrite Hc6, Hc5, Hc4, Hc3, Hc2, Hc1. rewrite <- !app_assoc. reflexivity.
  - apply Forall_app. auto.
  - rewrite Hq6, Hq5, Hq4, Hq3, Hq2, Hq1. rewrite <- app_assoc. reflexivity.
Qed.

(** The calls and posts of a [prepare_vm] that returns. *)
Lemma prepare_vm_success (s s' : worker) :
  prepare_vm s = (inr tt, s') ->
  exists building freeze,
    calls s' = calls s ++ [CallConnect] ++ building
                       ++ [CallMarkReady; CallPowerOffVm; CallPut ok_result]
                       ++ freeze ++ [CallPut ok_result; CallDisconnect] /\
    Forall early building /\ Forall freezing freeze /\
    result_q s' = result_q s ++ [ok_result; ok_result].
Proof.
  unfold prepare_vm, with_pool. intros Hrun.
  apply bind_inr in Hrun as (? & s1 & H1 & Hrun).
  apply call_pool_effect in H1 as (Hc1 & Hq1 & _).
  destruct ((build ;; finish)%effect s1) as [r s2] eqn:Hbody.
  destruct (call_pool CallDisconnect disconnect s2) as [[e|?] s3] eqn:Hd;
    [discriminate|].
  injection Hrun as -> <-.
  apply call_pool_effect in Hd as (Hc3 & Hq3 & _).
  apply bind_inr in Hbody as (? & sb & Hb & Hf).
  destruct (appends_build _ _ _ Hb) as (building & Hcb & Hearly & Hqb).
  rewrite (posted_not_put building) in Hqb
    by (eapply Forall_impl; [exact Hearly|exact early_not_put]).
  rewrite app_nil_r in Hqb.
  apply finish_success in Hf as (freeze & Hcf & Hfreeze & Hqf).
  exists building, freeze. split; [|split; [exact Hearly|split; [exact Hfreeze|]]].
  - rewrite Hc3, Hcf, Hcb, Hc1. rewrite <- !app_assoc. reflexivity.
  - rewrite Hq3, Hqf, Hqb, Hq1. reflexivity.
Qed.

(** C1, on the code: whenever [prepare_vm] returns, that is on every
    success path, the run of the worker has posted two results, both
    'ok'. *)
Theorem run_success_posts_twice (s s' : worker) :
  prepare_vm s = (inr tt, s') ->
  run s = (inr tt, s') /\
  result_q s' = result_q s ++ [ok_result; ok_result].
Proof.
  intros Hrun. split.
  - unfold run, try_except. rewrite Hrun. reflexivity.
  - apply prepare_vm_success in Hrun as (? & ? & _ & _ & _ & Hq). exact Hq.
Qed.

(** C3, on the code: whenever [prepare_vm] returns, its first mark_ready
    call comes directly before its first power_off_vm call, after the calls
    of the build phase. *)
Theorem success_marks_ready_before_power_off (s s' : worker) :
  prepare_vm s = (inr tt, s') ->
  exists before after,
    calls s' = calls s ++ before ++ [CallMarkReady; CallPowerOffVm] ++ after /\
    Forall (fun c => c <> CallMarkReady /\ c <> CallPowerOffVm) before.
Proof.
  intros Hrun.
  apply prepare_vm_success in Hrun as (building & freeze & Hc & Hearly & _ & _).
  exists (CallConnect :: building), (CallPut ok_result :: freeze ++ [CallPut ok_result; CallDisconnect]).
  split; [rewrite Hc; reflexivity|].
  constructor; [split; discriminate|].
  eapply Forall_impl; [exact Hearly|].
  intros c Hc'. split; intros ->; exact Hc'.
Qed.

(** C5, on the code: when the three runs of the guest bootstrap all end in
    [TimeoutError], [_bliss_init] makes no other call and returns [None]
    to its caller; it does not raise. *)
Theorem bliss_init_three_timeouts (ip : option string) (s : worker)
        (m1 m2 m3 : string) (w1 w2 w3 : W) :
  bliss_init_setup ip (world s) = (inl (TimeoutError m1), w1) ->
  bliss_init_setup ip w1 = (inl (TimeoutError m2), w2) ->
  bliss_init_setup ip w2 = (inl (TimeoutError m3), w3) ->
  _bliss_init ip s =
  (inr None,
   {| world := w3; vm := vm s; result_q := result_q s;
      calls := calls s ++ [CallBlissInit; CallBlissInit; CallBlissInit] |}).
Proof.
  intros H1 H2 H3. unfold _bliss_init. cbn [bliss_attempts].
  unfold call_pool at 1. rewrite H1. cbn.
  unfold call_pool at 1. cbn. rewrite H2. cbn.
  unfold call_pool at 1. cbn. rewrite H3. cbn.
  rewrite <- !app_assoc. reflexivity.
Qed.

(** ** The failure path *)

Lemma appends_with_pool {A : Type} (P : call -> Prop) (body : Run A) :
  P CallConnect -> P CallDisconnect -> appends P body -> appends P (with_pool body).
Proof.
  intros Hc Hd Hbody. unfold with_pool.
  apply appends_bind; [apply appends_call_pool; [exact Hc|exact I]|intros _].
  intros s s' r.
  destruct (body s) as [r0 s1] eqn:Hrun.
  assert (Hdis : appends P (call_pool (A:=unit) CallDisconnect disconnect))
    by (apply appends_call_pool; [exact Hd|exact I]).
  destruct (call_pool CallDisconnect disconnect s1) as [[e|u] s2] eqn:Hrun2;
    intros [= <- <-];
    destruct (Hdis _ _ _ Hrun2) as (evs & Hcs & HP & Hq);
    exact (appends_step (B:=A) P body s s1 s2 _ evs Hbody Hrun Hcs HP Hq).
Qed.

Lemma appends_prepare_vm : appends posting_ok prepare_vm.
Proof.
  unfold prepare_vm.
  apply appends_with_pool; [left; exact I|left; exact I|].
  apply appends_bind.
  - apply (appends_weaken early); [|apply appends_build].
    intros c Hc. left. apply early_not_put, Hc.
  - intros _. unfold finish.
    apply appends_bind; [apply appends_on_vm; [left|]; exact I|intros _].
    apply appends_bind; [apply appends_on_vm; [left|]; exact I|intros _].
    apply appends_bind; [apply appends_put; right; reflexivity|intros _].
    apply appends_bind;
      [apply appends_retry_sync, appends_on_vm; [left|]; exact I|intros _].
    apply appends_bind;
      [apply appends_retry_sync, appends_on_vm; [left|]; exact I|intros _].
    apply appends_put. right. reflexivity.
Qed.

Lemma posted_posting_ok (evs : list call) :
  Forall posting_ok evs -> Forall (eq ok_result) (posted evs).
Proof.
  induction 1 as [|c evs Hc _ IH]; [constructor|].
  destruct c; simpl; try exact IH.
  destruct Hc as [[] | [= ->]]. constructor; [reflexivity|exact IH].
Qed.

(** [_cleanup_on_error] never raises and posts one 'err' result. *)
Lemma cleanup_posts_err (exc : exn) (s : worker) :
  exists s', _cleanup_on_error exc s = (inr tt, s') /\
             result_q s' = result_q s ++ [err_result (format_exc exc)].
Proof.
  unfold _cleanup_on_error.
  set (inner := try_except _ (fun _ : exn => ret tt)).
  assert (Hinner : appends not_put inner).
  { apply appends_try_except; [|intros _; apply appends_ret].
    apply appends_with_pool; [exact I|exact I|].
    intros s0 s0' r. destruct (vm s0).
    - apply appends_bind; [|intros _; apply appends_on_vm; exact I].
      apply appends_try_except; [|intros _; apply appends_ret].
      apply appends_bind; [|intros _; apply appends_ret].
      apply appends_retry_sync, appends_on_vm; exact I.
    - intros [= <- <-]. exists []. rewrite !app_nil_r. auto. }
  assert (Hret : exists s1, inner s = (inr tt, s1)).
  { subst inner. unfold try_except at 1.
    match goal with |- context [with_pool ?b s] => destruct (with_pool b s) as [[e|[]] s1] end;
      eauto. }
  destruct Hret as (s1 & Hs1).
  destruct (Hinner _ _ _ Hs1) as (evs & _ & Hnp & Hq).
  rewrite (posted_not_put _ Hnp), app_nil_r in Hq.
  eexists. unfold bind. rewrite Hs1. split; [reflexivity|].
  simpl. rewrite Hq. reflexivity.
Qed.

(** The run of a worker always returns; when [prepare_vm] raises, the
    queue holds the 'ok' results posted before the failure, if any,
    followed by one 'err' result. *)
Lemma run_failure_posts (s s1 : worker) (e : exn) :
  prepare_vm s = (inl e, s1) ->
  exists s' oks,
    run s = (inr tt, s') /\
    Forall (eq ok_result) oks /\
    result_q s' = result_q s ++ oks ++ [err_result (format_exc e)].
Proof.
  intros Hrun.
  destruct (appends_prepare_vm _ _ _ Hrun) as (evs & _ & Hok & Hq).
  destruct (cleanup_posts_err e s1) as (s' & Hclean & Hq').
  exists s', (posted evs). split; [|split].
  - unfold run, try_except. rewrite Hrun. exact Hclean.
  - apply posted_posting_ok, Hok.
  - rewrite Hq', Hq, <- app_assoc. reflexivity.
Qed.

Lemma run_returns (s : worker) : exists s', run s = (inr tt, s').
Proof.
  destruct (prepare_vm s) as [[e|[]] s1] eqn:Hrun.
  - destruct (run_failure_posts s s1 e Hrun) as (s' & _ & H' & _). eauto.
  - exists s1. unfold run, try_except. rewrite Hrun. reflexivity.
Qed.

(** ** The attempts of [_bliss_init] *)

Lemma count_bliss_app (a b : list call) :
  count_bliss (a ++ b) = (count_bliss a + count_bliss b)%nat.
Proof.
  induction a as [|c a IH]; [reflexivity|].
  destruct c; simpl; rewrite IH; reflexivity.
Qed.

(** [_bliss_init] runs the guest bootstrap at most three times. *)
Lemma bliss_attempts_bounded (attempts : list Z) (ip : option string)
      (s s' : worker) (r : exn + option string) :
  bliss_attempts attempts ip s = (r, s') ->
  exists evs, calls s' = calls s ++ evs /\ (count_bliss evs <= length attempts)%nat.
Proof.
  revert ip s. induction attempts as [|attempt rest IH]; intros ip s; simpl.
  - intros [= <- <-]. exists []. rewrite app_nil_r. auto.
  - destruct (call_pool CallBlissInit (bliss_init_setup ip) s) as [[e|a] s1] eqn:Hrun.
    + apply call_pool_effect in Hrun as (Hc1 & _ & _).
      destruct (is_timeout e).
      * intros Hrest. apply IH in Hrest as (evs & Hc & Hn).
        exists (CallBlissInit :: evs). rewrite Hc, Hc1, <- app_assoc.
        split; [reflexivity|]. simpl. lia.
      * destruct (attempt =? 3).
        -- intros [= <- <-]. exists [CallBlissInit]. split; [exact Hc1|]. simpl. lia.
        -- unfold bind, on_vm.
           destruct (call_pool CallEnsureNsxAlive _ s1) as [[e1|?] s2] eqn:H2;
             apply call_pool_effect in H2 as (Hc2 & _ & _);
             [intros [= <- <-]; exists [CallBlissInit; CallEnsureNsxAlive];
              rewrite Hc2, Hc1, <- app_assoc; split; [reflexivity|simpl; lia]|].
           destruct (call_pool CallRestartVm _ s2) as [[e2|?] s3] eqn:H3;
             apply call_pool_effect in H3 as (Hc3 & _ & _);
             [intros [= <- <-];
              exists [CallBlissInit; CallEnsureNsxAlive; CallRestartVm];
              rewrite Hc3, Hc2, Hc1, <- !app_assoc; split; [reflexivity|simpl; lia]|].
           destruct (call_pool CallWaitForVmReady _ s3) as [[e3|ip'] s4] eqn:H4;
             apply call_pool_effect in H4 as (Hc4 & _ & _);
             [intros [= <- <-];
              exists [CallBlissInit; CallEnsureNsxAlive; CallRestartVm; CallWaitForVmReady];
              rewrite Hc4, Hc3, Hc2, Hc1, <- !app_assoc; split; [reflexivity|simpl; lia]|].
           intros Hrest. apply IH in Hrest as (evs & Hc & Hn).
           exists ([CallBlissInit; CallEnsureNsxAlive; CallRestartVm; CallWaitForVmReady]
                     ++ evs).
           rewrite Hc, Hc4, Hc3, Hc2, Hc1, <- !app_assoc.
           split; [reflexivity|]. rewrite count_bliss_app. simpl. lia.
    + apply call_pool_effect in Hrun as (Hc1 & _ & _).
      intros [= <- <-]. exists [CallBlissInit]. split; [exact Hc1|]. simpl. lia.
Qed.

(** The other parts of C5 hold on the code: one attempt of [_bliss_init]. *)
Lemma bliss_attempt_timeout (attempt : Z) (rest : list Z) (ip : option string)
      (s : worker) (msg : string) (w1 : W) :
  bliss_init_setup ip (world s) = (inl (TimeoutError msg), w1) ->
  bliss_attempts (attempt :: rest) ip s =
  bliss_attempts rest ip
    {| world := w1; vm := vm s; result_q := result_q s;
       calls := calls s ++ [CallBlissInit] |}.
Proof.
  intros H1. cbn [bliss_attempts]. unfold call_pool at 1. rewrite H1. reflexivity.
Qed.

Lemma bliss_attempt_error (attempt : Z) (rest : list Z) (ip : option string)
      (s : worker) (msg : string) (w1 : W) :
  bliss_init_setup ip (world s) = (inl (Error msg), w1) ->
  let s1 := {| world := w1; vm := vm s; result_q := result_q s;
               calls := calls s ++ [CallBlissInit] |} in
  bliss_attempts (attempt :: rest) ip s =
  if attempt =? 3 then (inl (Error msg), s1)
  else (call_pool CallEnsureNsxAlive (fun w => (inr tt, ensure_nsx_alive w)) ;;
        on_vm CallRestartVm restart_vm ;;
        ip' <- on_vm CallWaitForVmReady (wait_for_vm_ready 300) ;;
        bliss_attempts rest (Some ip'))%effect s1.
Proof.
  intros H1. cbn [bliss_attempts]. unfold call_pool at 1. rewrite H1. reflexivity.
Qed.

Lemma bliss_attempt_success (attempt : Z) (rest : list Z) (ip : option string)
      (s : worker) (w1 : W) :
  bliss_init_setup ip (world s) = (inr tt, w1) ->
  bliss_attempts (attempt :: rest) ip s =
  (inr ip, {| world := w1; vm := vm s; result_q := result_q s;
              calls := calls s ++ [CallBlissInit] |}).
Proof.
  intros H1. cbn [bliss_attempts]. unfold call_pool at 1. rewrite H1. reflexivity.
Qed.

End Worker.

(** The happy path of test_worker_happy_path, on the code. *)
Example run_all_fine :
  let s' := snd (run cfg0 (new_worker all_fine)) in
  result_q s' = [ok_result cfg0; ok_result cfg0] /\
  calls s' = [CallConnect; CallCloneVm; CallPowerOnVm; CallWaitForVmReady;
              CallBlissInit; CallGameTutorial;
              CallMarkReady; CallPowerOffVm; CallPut (ok_result cfg0);
              CallPowerOffVm; CallMarkReady; CallPut (ok_result cfg0); CallDisconnect].
Proof. vm_compute. split; reflexivity. Qed.

Lemma run_success_posts_twice_witness :
  result_q (snd (prepare_vm cfg0 (new_worker all_fine))) = [ok_result cfg0; ok_result cfg0].
Proof.
  destruct (run_success_posts_twice cfg0 (new_worker all_fine)
              (snd (prepare_vm cfg0 (new_worker all_fine)))) as [_ Hq].
  - vm_compute. reflexivity.
  - rewrite Hq. reflexivity.
Defined.

Lemma success_marks_ready_before_power_off_witness :
  exists before after,
    calls (snd (prepare_vm cfg0 (new_worker all_fine))) =
    [] ++ before ++ [CallMarkReady; CallPowerOffVm] ++ after /\
    Forall (fun c => c <> CallMarkReady /\ c <> CallPowerOffVm) before.
Proof.
  apply (success_marks_ready_before_power_off cfg0 (new_worker all_fine)).
  vm_compute. reflexivity.
Defined.

Lemma bliss_init_three_timeouts_witness :
  fst (_bliss_init (Some "10.0.0.1"%string) (new_worker install_timeouts)) = inr None.
Proof.
  rewrite (bliss_init_three_timeouts (H:=scripted_pool) (Some "10.0.0.1"%string)
             (new_worker install_timeouts) "apk" "apk" "apk"
             {| bliss_script := [inl (TimeoutError "apk"); inl (TimeoutError "apk")];
                power_off_script := [] |}
             {| bliss_script := [inl (TimeoutError "apk")]; power_off_script := [] |}
             {| bliss_script := []; power_off_script := [] |}
             ltac:(reflexivity) ltac:(reflexivity) ltac:(reflexivity)).
  reflexivity.
Defined.

(** After three install timeouts the worker goes on to the tutorial and
    reports success. *)
Example run_install_timeouts :
  let s' := snd (run cfg0 (new_worker install_timeouts)) in
  result_q s' = [ok_result cfg0; ok_result cfg0] /\
  calls s' = [CallConnect; CallCloneVm; CallPowerOnVm; CallWaitForVmReady;
              CallBlissInit; CallBlissInit; CallBlissInit; CallGameTutorial;
              CallMarkReady; CallPowerOffVm; CallPut (ok_result cfg0);
              CallPowerOffVm; CallMarkReady; CallPut (ok_result cfg0); CallDisconnect].
Proof. vm_compute. split; reflexivity. Qed.

(** When the retried power_off_vm fails, an 'ok' result has been posted
    already and the cleanup posts an 'err' result after it. *)
Example run_power_off_breaks :
  map result_status (result_q (snd (run cfg0 (new_worker power_off_breaks)))) = [ok; err].
Proof. vm_compute. reflexivity. Qed.

End Builder.

(* ===================================================================== *)
(** * PendingCounter: how the operations compose *)
(* ===================================================================== *)

Module CounterFacts.

Import PendingCounter.

(** [n] calls of [inc], of [dec]. *)
Definition incs (n : nat) (c : t) : t := Nat.iter n inc c.
Definition decs (n : nat) (c : t) : t := Nat.iter n dec c.

Lemma count_incs (n : nat) (c : t) : _count (incs n c) = _count c + Z.of_nat n.
Proof.
  induction n as [|n IH]; [simpl; lia|].
  unfold incs in *. rewrite Nat.iter_succ. simpl. rewrite IH. lia.
Qed.

Lemma count_decs (n : nat) (c : t) :
  0 <= _count c -> _count (decs n c) = Z.max 0 (_count c - Z.of_nat n).
Proof.
  intros Hc. induction n as [|n IH]; [simpl; lia|].
  unfold decs in *. rewrite Nat.iter_succ. simpl. rewrite IH. lia.
Qed.

Lemma eq_by_count (a b : t) : _count a = _count b -> a = b.
Proof. destruct a, b. simpl. intros ->. reflexivity. Qed.

Lemma run_nonneg (ops : list op) : 0 <= _count (run ops).
Proof. unfold run. apply fold_step_nonneg. simpl. lia. Qed.

(** X1. In every reachable state, [n] increments followed by [n]
    decrements give the state back: a job that is counted when enqueued
    and uncounted when it ends leaves the counter where it was. *)
Theorem inc_dec_round_trip (ops : list op) (n : nat) :
  decs n (incs n (run ops)) = run ops.
Proof.
  apply eq_by_count.
  rewrite count_decs, count_incs; pose proof (run_nonneg ops); [lia|].
  rewrite count_incs. lia.
Qed.

(** X2. In every reachable state, [m] decrements leave
    [max 0 (count - m)]: decrements beyond the count are lost, so a later
    increment is not cancelled by an earlier surplus decrement. *)
Theorem decs_floor (ops : list op) (m : nat) :
  _count (decs m (run ops)) = Z.max 0 (_count (run ops) - Z.of_nat m) /\
  (_count (run ops) < Z.of_nat m ->
   _count (inc (decs m (run ops))) = 1).
Proof.
  pose proof (run_nonneg ops) as Hc.
  rewrite (count_decs m _ Hc). split; [reflexivity|].
  intros Hlt. simpl. rewrite (count_decs m _ Hc). lia.
Qed.

Lemma decs_floor_witness :
  _count (inc (decs 2 (run [Inc]))) = 1.
Proof.
  destruct (decs_floor [Inc] 2) as [_ H]. apply H. simpl. lia.
Defined.

End CounterFacts.

(* ===================================================================== *)
(** * Replenisher: what a tick does to the queue *)
(* ===================================================================== *)

Module TickQueue.

Import Replenisher.

Section Facts.

Variable cfg : Config.
Variable uuid4 : nat -> N.

(** The tasks created by [n] iterations after [d0] UUIDs were drawn. *)
Definition fresh_tasks (d0 n : nat) : list CloneTask :=
  map (fun k => {| job_id := uuid4 (d0 + k) |}) (seq 0 n).

Lemma enqueue_loop_queue (n : nat) (st : state) :
  CLONE_QUEUE (enqueue_loop uuid4 n st) = CLONE_QUEUE st ++ fresh_tasks (drawn st) n.
Proof.
  revert st. induction n as [|n IH]; intros st.
  - simpl. rewrite app_nil_r. reflexivity.
  - cbn [enqueue_loop]. rewrite IH. unfold fresh_tasks.
    rewrite <- cons_seq, <- seq_shift. simpl. rewrite <- app_assoc. simpl.
    rewrite Nat.add_0_r, map_map. do 2 f_equal.
    apply map_ext. intros k. do 2 f_equal. lia.
Qed.

Lemma fresh_tasks_length (d0 n : nat) : length (fresh_tasks d0 n) = n.
Proof. unfold fresh_tasks. rewrite length_map, length_seq. reflexivity. Qed.

Lemma tick_queue (ready : Z) (st : state) :
  CLONE_QUEUE (tick cfg uuid4 ready st) =
  CLONE_QUEUE st ++ fresh_tasks (drawn st) (enqueued cfg uuid4 ready st).
Proof.
  unfold enqueued, tick. simpl.
  destruct (_ <? _).
  - rewrite enqueue_loop_queue, length_app, fresh_tasks_length.
    do 2 f_equal. lia.
  - rewrite Nat.sub_diag. simpl. rewrite app_nil_r. reflexivity.
Qed.

(** X3. A tick only appends to the queue: what was queued stays in front,
    in order, and the new tasks carry the next UUIDs drawn, one each; if
    the UUID source never repeats, their job ids are pairwise distinct. *)
Theorem tick_appends_fresh_tasks (ready : Z) (st : state) :
  (forall a b : nat, uuid4 a = uuid4 b -> a = b) ->
  CLONE_QUEUE (tick cfg uuid4 ready st) =
    CLONE_QUEUE st ++ fresh_tasks (drawn st) (enqueued cfg uuid4 ready st) /\
  NoDup (map job_id (fresh_tasks (drawn st) (enqueued cfg uuid4 ready st))).
Proof.
  intros Hinj. split; [apply tick_queue|].
  unfold fresh_tasks. rewrite map_map. simpl.
  apply NoDup_fmap_2_strong; [|apply NoDup_seq].
  intros a b _ _ Heq. apply Hinj in Heq. lia.
Qed.

(** X4. Below the low watermark, with room under the upper bound and a
    batch size of at least one, a tick enqueues at least one task and at
    most [batch_size]. *)
Theorem tick_progress (ready : Z) (st : state) :
  ready + pending_of st < min_ready_vm cfg ->
  ready + pending_of st < max_ready_vm cfg ->
  1 <= batch_size cfg ->
  1 <= Z.of_nat (enqueued cfg uuid4 ready st) <= batch_size cfg.
Proof.
  intros Hmin Hmax Hb. rewrite tick_enqueued.
  apply Z.ltb_lt in Hmin. rewrite Hmin. lia.
Qed.

(** X5. When the batch size covers the deficit and the low watermark is
    not above the upper bound, one tick brings ready + pending up to the
    low watermark at least, and a second tick that counts the same ready
    VMs changes nothing. *)
Theorem tick_reaches_low_watermark (ready : Z) (st : state) :
  min_ready_vm cfg <= max_ready_vm cfg ->
  ready + pending_of st < min_ready_vm cfg ->
  min_ready_vm cfg - (ready + pending_of st) <= batch_size cfg ->
  let st' := tick cfg uuid4 ready st in
  min_ready_vm cfg <= ready + pending_of st' /\
  tick cfg uuid4 ready st' = st'.
Proof.
  intros Hmm Hlt Hb st'.
  assert (Hreach : min_ready_vm cfg <= ready + pending_of st').
  { subst st'. rewrite tick_pending, tick_enqueued.
    apply Z.ltb_lt in Hlt. rewrite Hlt. lia. }
  split; [exact Hreach|].
  unfold tick at 1. simpl. fold (pending_of st').
  apply Z.ltb_ge in Hreach. rewrite Hreach. reflexivity.
Qed.

End Facts.

Lemma tick_appends_fresh_tasks_witness :
  CLONE_QUEUE (tick cfg_s1 uuid_seq 0 empty_state) =
  [{| job_id := 0 |}; {| job_id := 1 |}; {| job_id := 2 |}].
Proof.
  destruct (tick_appends_fresh_tasks cfg_s1 uuid_seq 0 empty_state) as [Hq _].
  - intros a b Heq. apply Nnat.Nat2N.inj in Heq. exact Heq.
  - rewrite Hq. reflexivity.
Defined.

Lemma tick_progress_witness :
  1 <= Z.of_nat (enqueued cfg_s2 uuid_seq 0 empty_state) <= 5.
Proof.
  apply (tick_progress cfg_s2 uuid_seq 0 empty_state); cbv; congruence.
Defined.

Lemma tick_reaches_low_watermark_witness :
  2 <= 0 + pending_of (tick cfg_s1 uuid_seq 0 empty_state) /\
  tick cfg_s1 uuid_seq 0 (tick cfg_s1 uuid_seq 0 empty_state) =
  tick cfg_s1 uuid_seq 0 empty_state.
Proof.
  apply (tick_reaches_low_watermark cfg_s1 uuid_seq 0 empty_state); cbv; congruence.
Defined.

End TickQueue.

(* ===================================================================== *)
(** * PoolNames: name classes, ready count and renaming *)
(* ===================================================================== *)

(** The rest of app/vsphere_pool_manager.py that works on names:
    [_refresh] and [count_ready], [list_fault_vms], and the name that
    [_rename_with_suffix] builds for [mark_ready] and [mark_fault]. *)
Module PoolNames.

Import PoolView.

(** [f"[{self._vm_prefix}] VM2login_"], [f"[{self._vm_prefix}] VMError_"] *)
Definition prefix_login (vm_prefix : string) : string :=
  "[" +:+ vm_prefix +:+ "] VM2login_".

Definition prefix_err (vm_prefix : string) : string :=
  "[" +:+ vm_prefix +:+ "] VMError_".

(** [_refresh]: the set comprehension
    [{vm.name for vm in self._env_vms() if vm.name.startswith(prefix_login)}]. *)
Definition available (vm_prefix : string) (env_vms : list VirtualMachine) : gset string :=
  list_to_set
    (map name (List.filter (fun vm => startswith (name vm) (prefix_login vm_prefix)) env_vms)).

(** [count_ready]: [len(self._available)] after the refresh. *)
Definition count_ready (vm_prefix : string) (env_vms : list VirtualMachine) : nat :=
  size (available vm_prefix env_vms).

(** The VMs a reader of the inventory would call ready. *)
Definition ready_vms (vm_prefix : string) (env_vms : list VirtualMachine)
  : list VirtualMachine :=
  List.filter (fun vm => startswith (name vm) (prefix_login vm_prefix)) env_vms.

(** [list_fault_vms] *)
Definition list_fault_vms (vm_prefix : string) (env_vms : list VirtualMachine) : list string :=
  map name (List.filter (fun vm => startswith (name vm) (prefix_err vm_prefix)) env_vms).

(** [name.rsplit("_", 1)[-1]]: the text after the last underscore, the
    whole name when it has none.  [cur] is the segment read so far. *)
Definition is_underscore (c : ascii) : bool := Ascii.eqb c "_".

Fixpoint last_segment_from (cur : string) (s : string) : string :=
  match s with
  | EmptyString => cur
  | String c rest =>
      if is_underscore c then last_segment_from EmptyString rest
      else last_segment_from (cur +:+ String c EmptyString) rest
  end.

Definition last_segment (s : string) : string := last_segment_from EmptyString s.

(** The name [_rename_with_suffix] passes to [rename_vm]:
    [f"[{self._vm_prefix}] {new_suffix}_{suffix}"]. *)
Definition renamed (vm_prefix new_suffix vm_name : string) : string :=
  "[" +:+ vm_prefix +:+ "] " +:+ new_suffix +:+ "_" +:+ last_segment vm_name.

(** [mark_ready], [mark_fault] *)
Definition mark_ready_name (vm_prefix vm_name : string) : string :=
  renamed vm_prefix "VM2login" vm_name.

Definition mark_fault_name (vm_prefix vm_name : string) : string :=
  renamed vm_prefix "VMError" vm_name.

Fixpoint no_underscore (s : string) : bool :=
  match s with
  | EmptyString => true
  | String c rest => negb (is_underscore c) && no_underscore rest
  end.

(** An inventory with two ready VMs of the same name (in different
    sub-folders of the environment folder), one init VM and one fault VM. *)
Definition vm_named (n : string) : VirtualMachine :=
  {| name := n; config_createDate := None; runtime_bootTime := None |}.

Definition twin_inventory : list VirtualMachine :=
  [vm_named "[Dev] VM2login_0a1b2c3d"; vm_named "[Dev] VMInit_11111111";
   vm_named "[Dev] VM2login_0a1b2c3d"; vm_named "[Dev] VMError_22222222"].

(** An init VM created at the origin of the clock. *)
Definition old_init_vm : VirtualMachine :=
  {| name := "[Dev] VMInit_0a1b2c3d";
     config_createDate := Some {| wall := 0; tzinfo := None |};
     runtime_bootTime := None |}.

(** ** Strings *)

Lemma append_nil_l (b : string) : "" +:+ b = b.
Proof. reflexivity. Qed.

Lemma append_cons (x : ascii) (a b : string) : String x a +:+ b = String x (a +:+ b).
Proof. reflexivity. Qed.

Ltac sapp := rewrite ?append_nil_l, ?append_cons.

Lemma append_assoc (a b c : string) : (a +:+ b) +:+ c = a +:+ (b +:+ c).
Proof. induction a as [|x a IH]; sapp; [reflexivity|]. rewrite IH. reflexivity. Qed.

Lemma append_nil_r (a : string) : a +:+ "" = a.
Proof. induction a as [|x a IH]; sapp; [reflexivity|]. rewrite IH. reflexivity. Qed.

Lemma append_inv_head (a b c : string) : a +:+ b = a +:+ c -> b = c.
Proof. induction a as [|x a IH]; sapp; [auto|]. intros [= H]. auto. Qed.

Lemma prefix_cons_inv (a : ascii) (s1 s2 : string) :
  String.prefix (String a s1) s2 = true ->
  exists s2', s2 = String a s2' /\ String.prefix s1 s2' = true.
Proof.
  destruct s2 as [|b s2']; simpl; [discriminate|].
  destruct (ascii_dec a b) as [->|]; [eauto|discriminate].
Qed.

Lemma prefix_append_inv (a b s : string) :
  String.prefix (a +:+ b) s = true ->
  exists r, s = a +:+ r /\ String.prefix b r = true.
Proof.
  revert s. induction a as [|x a IH]; intros s; sapp.
  - intros H. exists s. auto.
  - intros H. apply prefix_cons_inv in H as (s' & -> & H).
    apply IH in H as (r & -> & H). exists r. auto.
Qed.

Lemma prefix_cons_same (x : ascii) (a s : string) :
  String.prefix (String x a) (String x s) = String.prefix a s.
Proof. simpl. destruct (ascii_dec x x); [reflexivity|congruence]. Qed.

Lemma prefix_append (a r : string) : String.prefix a (a +:+ r) = true.
Proof.
  induction a as [|x a IH]; sapp; [destruct r; reflexivity|].
  rewrite prefix_cons_same. exact IH.
Qed.

(** Two tails after the common part "[<prefix>" that both match are
    prefixes of one another. *)
Lemma tails_comparable (t1 t2 r : string) :
  String.prefix t1 r = true -> String.prefix t2 r = true ->
  String.prefix t1 t2 = true \/ String.prefix t2 t1 = true.
Proof.
  revert t2 r. induction t1 as [|a t1 IH]; intros t2 r H1 H2.
  - left. destruct t2; reflexivity.
  - destruct t2 as [|b t2]; [right; reflexivity|].
    apply prefix_cons_inv in H1 as (r1 & -> & H1).
    apply prefix_cons_inv in H2 as (r2 & [= <- <-] & H2).
    rewrite !prefix_cons_same. exact (IH _ _ H1 H2).
Qed.

Lemma startswith_two (p t1 t2 n : string) :
  startswith n ("[" +:+ p +:+ t1) = true ->
  startswith n ("[" +:+ p +:+ t2) = true ->
  String.prefix t1 t2 = true \/ String.prefix t2 t1 = true.
Proof.
  unfold startswith. sapp. intros H1 H2.
  apply prefix_cons_inv in H1 as (n1 & -> & H1).
  apply prefix_cons_inv in H2 as (n2 & [= <-] & H2).
  apply (prefix_append_inv p t1) in H1 as (r1 & -> & H1).
  apply (prefix_append_inv p t2) in H2 as (r2 & Heq & H2).
  apply append_inv_head in Heq as <-.
  exact (tails_comparable _ _ _ H1 H2).
Qed.

(** ** The last segment *)

Lemma last_segment_from_plain (cur s : string) :
  no_underscore s = true -> last_segment_from cur s = cur +:+ s.
Proof.
  revert cur. induction s as [|c s IH]; intros cur; simpl.
  - intros _. rewrite append_nil_r. reflexivity.
  - intros H. apply andb_true_iff in H as [Hc Hs].
    apply negb_true_iff in Hc. rewrite Hc, IH by exact Hs.
    rewrite append_assoc. reflexivity.
Qed.

Lemma last_segment_from_underscore (cur x b : string) :
  last_segment_from cur (x +:+ String "_" b) = last_segment_from EmptyString b.
Proof.
  revert cur. induction x as [|c x IH]; intros cur; sapp.
  - reflexivity.
  - simpl. destruct (is_underscore c); apply IH.
Qed.

Lemma no_underscore_append (a b : string) :
  no_underscore (a +:+ b) = no_underscore a && no_underscore b.
Proof.
  induction a as [|c a IH]; sapp; simpl; [reflexivity|].
  rewrite IH, andb_assoc. reflexivity.
Qed.

Lemma last_segment_from_no_underscore (cur s : string) :
  no_underscore cur = true -> no_underscore (last_segment_from cur s) = true.
Proof.
  revert cur. induction s as [|c s IH]; intros cur Hcur; simpl; [exact Hcur|].
  destruct (is_underscore c) eqn:Hc; apply IH; [reflexivity|].
  rewrite no_underscore_append, Hcur. simpl. rewrite Hc. reflexivity.
Qed.

Lemma last_segment_after (x b : string) :
  no_underscore b = true -> last_segment (x +:+ String "_" b) = b.
Proof.
  intros Hb. unfold last_segment.
  rewrite last_segment_from_underscore. apply last_segment_from_plain, Hb.
Qed.

Lemma renamed_split (p s n : string) :
  renamed p s n = ("[" +:+ p +:+ "] " +:+ s) +:+ String "_" (last_segment n).
Proof.
  unfold renamed. rewrite !append_assoc. reflexivity.
Qed.

(** ** The three views of the inventory *)

Lemma elem_of_available (p : string) (vms : list VirtualMachine) (n : string) :
  n ∈ available p vms -> startswith n (prefix_login p) = true.
Proof.
  unfold available. rewrite elem_of_list_to_set, list_elem_of_In, in_map_iff.
  intros (vm & <- & Hvm). apply filter_In in Hvm as [_ H]. exact H.
Qed.

Lemma in_list_fault_vms (p : string) (vms : list VirtualMachine) (n : string) :
  In n (list_fault_vms p vms) -> startswith n (prefix_err p) = true.
Proof.
  unfold list_fault_vms. rewrite in_map_iff.
  intros (vm & <- & Hvm). apply filter_In in Hvm as [_ H]. exact H.
Qed.

Lemma in_list_init_vms (p : string) (now : Z) (vms : list VirtualMachine) (ttl : Z)
      (n : string) :
  In n (list_init_vms p now vms ttl) -> startswith n (prefix_init p) = true.
Proof.
  rewrite list_init_vms_wall. destruct (ttl <=? 0)%Z; [intros []|].
  rewrite in_map_iff. intros (vm & <- & Hvm).
  apply filter_In in Hvm as [_ H]. apply andb_true_iff in H as [H _]. exact H.
Qed.

(** X6. The ready set, the fault list and the init list never share a
    name: a name starts with at most one of the three class prefixes, so
    the janitor's victims are never ready VMs. *)
Theorem views_disjoint (p : string) (now : Z) (vms : list VirtualMachine) (ttl : Z) :
  available p vms ## list_to_set (list_fault_vms p vms) /\
  available p vms ## list_to_set (list_init_vms p now vms ttl) /\
  (list_to_set (list_fault_vms p vms) : gset string)
    ## list_to_set (list_init_vms p now vms ttl).
Proof.
  repeat split; intros n H1 H2.
  - apply elem_of_available in H1.
    apply elem_of_list_to_set, list_elem_of_In, in_list_fault_vms in H2.
    destruct (startswith_two p "] VM2login_" "] VMError_" n H1 H2); discriminate.
  - apply elem_of_available in H1.
    apply elem_of_list_to_set, list_elem_of_In, in_list_init_vms in H2.
    destruct (startswith_two p "] VM2login_" "] VMInit_" n H1 H2); discriminate.
  - apply elem_of_list_to_set, list_elem_of_In, in_list_fault_vms in H1.
    apply elem_of_list_to_set, list_elem_of_In, in_list_init_vms in H2.
    destruct (startswith_two p "] VMError_" "] VMInit_" n H1 H2); discriminate.
Qed.

Lemma size_list_to_set_le (l : list string) :
  (size (list_to_set l : gset string) <= length l)%nat.
Proof.
  induction l as [|x l IH]; [rewrite list_to_set_nil, size_empty; simpl; lia|].
  rewrite list_to_set_cons, size_union_alt, size_singleton. simpl.
  assert (size (list_to_set l ∖ {[x]} : gset string) <= size (list_to_set l : gset string))%nat
    by (apply subseteq_size; intros y Hy; apply elem_of_difference in Hy as [Hy _];
        exact Hy).
  lia.
Qed.

(** X7. [count_ready] counts names, not VMs: it is at most the number of
    VMs whose name has the ready prefix, and equal to it when those names
    are pairwise distinct. *)
Theorem count_ready_counts_names (p : string) (vms : list VirtualMachine) :
  (count_ready p vms <= length (ready_vms p vms))%nat /\
  (NoDup (map name (ready_vms p vms)) ->
   count_ready p vms = length (ready_vms p vms)).
Proof.
  unfold count_ready, available, ready_vms. split.
  - etransitivity; [apply size_list_to_set_le|]. rewrite length_map. reflexivity.
  - intros Hnd. rewrite size_list_to_set by exact Hnd. apply length_map.
Qed.

Lemma count_ready_counts_names_witness :
  count_ready "Dev" [vm_named "[Dev] VM2login_0a1b2c3d"; vm_named "[Dev] VMInit_11111111";
                     vm_named "[Dev] VM2login_33333333"] = 2%nat.
Proof.
  destruct (count_ready_counts_names "Dev"
              [vm_named "[Dev] VM2login_0a1b2c3d"; vm_named "[Dev] VMInit_11111111";
               vm_named "[Dev] VM2login_33333333"]) as [_ H].
  rewrite H; [reflexivity|].
  vm_compute. apply NoDup_cons_2; [|apply NoDup_singleton].
  intros Hin. apply list_elem_of_In in Hin. destruct Hin as [Heq|[]]. discriminate Heq.
Defined.

(** Two ready VMs of one name count once. *)
Example count_ready_twins :
  count_ready "Dev" twin_inventory = 1%nat /\ length (ready_vms "Dev" twin_inventory) = 2%nat.
Proof. vm_compute. split; reflexivity. Qed.

(** ** Renaming *)

(** X8. For a job id without underscore, [mark_ready] applied to the
    worker's init name builds exactly the ready name the worker reports,
    [mark_fault] exactly its error name, also after the VM was marked
    ready. *)
Theorem rename_agrees_with_worker (cfg : Builder.settings) :
  no_underscore (Builder.id_hex cfg) = true ->
  mark_ready_name (Builder.prefix cfg) (Builder.name_init cfg) = Builder.name_ready cfg /\
  mark_fault_name (Builder.prefix cfg) (Builder.name_init cfg) = Builder.name_error cfg /\
  mark_fault_name (Builder.prefix cfg) (Builder.name_ready cfg) = Builder.name_error cfg.
Proof.
  intros Hhex.
  assert (Hinit : last_segment (Builder.name_init cfg) = Builder.id_hex cfg).
  { unfold Builder.name_init.
    change ("[" ++ Builder.prefix cfg ++ "] VMInit_" ++ Builder.id_hex cfg)%string
      with ("[" +:+ Builder.prefix cfg +:+ "] VMInit" +:+ String "_" (Builder.id_hex cfg)).
    rewrite <- !append_assoc. apply last_segment_after, Hhex. }
  assert (Hready : last_segment (Builder.name_ready cfg) = Builder.id_hex cfg).
  { unfold Builder.name_ready.
    change ("[" ++ Builder.prefix cfg ++ "] VM2login_" ++ Builder.id_hex cfg)%string
      with ("[" +:+ Builder.prefix cfg +:+ "] VM2login" +:+ String "_" (Builder.id_hex cfg)).
    rewrite <- !append_assoc. apply last_segment_after, Hhex. }
  unfold mark_ready_name, mark_fault_name, renamed. rewrite Hinit, Hready.
  repeat split; reflexivity.
Qed.

Lemma rename_agrees_with_worker_witness :
  mark_ready_name "Dev" "[Dev] VMInit_0a1b2c3d" = "[Dev] VM2login_0a1b2c3d" /\
  mark_fault_name "Dev" "[Dev] VMInit_0a1b2c3d" = "[Dev] VMError_0a1b2c3d".
Proof.
  destruct (rename_agrees_with_worker Builder.cfg0 eq_refl) as (H1 & H2 & _).
  split; [exact H1|exact H2].
Defined.

(** X9. A rename keeps the text after the last underscore and replaces
    everything before it, so the suffix identifies the VM through every
    transition and of two renames the last one decides the name. *)
Theorem rename_keeps_suffix (p s1 s2 n : string) :
  last_segment (renamed p s1 n) = last_segment n /\
  renamed p s2 (renamed p s1 n) = renamed p s2 n.
Proof.
  assert (Hseg : last_segment (renamed p s1 n) = last_segment n).
  { rewrite renamed_split. apply last_segment_after.
    apply last_segment_from_no_underscore. reflexivity. }
  split; [exact Hseg|].
  unfold renamed at 1 3. rewrite Hseg. reflexivity.
Qed.

(** A name without underscore is taken whole as the suffix. *)
Example rename_without_underscore :
  mark_fault_name "Dev" "golden" = "[Dev] VMError_golden".
Proof. reflexivity. Qed.

(** ** The TTL of init VMs *)

(** X10. Raising the TTL never adds victims: the init VMs reported for a
    longer TTL are among those reported for a shorter one, in the same
    order. *)
Theorem list_init_vms_ttl_antitone (p : string) (now : Z) (vms : list VirtualMachine)
        (m1 m2 : Z) :
  (0 < m1)%Z -> (m1 <= m2)%Z ->
  sublist (list_init_vms p now vms m2) (list_init_vms p now vms m1).
Proof.
  intros H1 H12. rewrite !list_init_vms_wall.
  assert (Hf1 : (m1 <=? 0)%Z = false) by (apply Z.leb_gt; lia).
  assert (Hf2 : (m2 <=? 0)%Z = false) by (apply Z.leb_gt; lia).
  rewrite Hf1, Hf2.
  induction vms as [|vm vms IH]; simpl; [constructor|].
  destruct (startswith (name vm) (prefix_init p)); simpl; [|exact IH].
  assert (Himp : old_enough_wall now m2 vm = true -> old_enough_wall now m1 vm = true).
  { unfold old_enough_wall. destruct (or_else _ _); [|discriminate].
    intros H. apply Z.leb_le in H. apply Z.leb_le.
    unfold MICROSECONDS_PER_MINUTE in *. lia. }
  destruct (old_enough_wall now m2 vm).
  - rewrite Himp by reflexivity. simpl. constructor. exact IH.
  - destruct (old_enough_wall now m1 vm); simpl; [constructor|]; exact IH.
Qed.

Lemma list_init_vms_ttl_antitone_witness :
  sublist (list_init_vms "Dev" (90 * MICROSECONDS_PER_MINUTE) [old_init_vm] 120)
          (list_init_vms "Dev" (90 * MICROSECONDS_PER_MINUTE) [old_init_vm] 60).
Proof.
  apply list_init_vms_ttl_antitone; lia.
Defined.

Example list_init_vms_ttl_example :
  list_init_vms "Dev" (90 * MICROSECONDS_PER_MINUTE) [old_init_vm] 120 = [] /\
  list_init_vms "Dev" (90 * MICROSECONDS_PER_MINUTE) [old_init_vm] 60
  = ["[Dev] VMInit_0a1b2c3d"].
Proof. vm_compute. split; reflexivity. Qed.

(** Witnesses for the facts of [PoolView] about UTC timestamps and missing
    timestamps. *)
Lemma list_init_vms_utc_witness :
  list_init_vms "Dev" (90 * MICROSECONDS_PER_MINUTE) [old_init_vm] 60
  = expected_init_vms "Dev" (90 * MICROSECONDS_PER_MINUTE) [old_init_vm] 60.
Proof.
  apply list_init_vms_utc. constructor; [|constructor].
  intros d [= <-]. left. reflexivity.
Defined.

Lemma list_init_vms_no_timestamp_witness :
  ~ In "[Dev] VMInit_11111111"
       (list_init_vms "Dev" (90 * MICROSECONDS_PER_MINUTE)
                      [vm_named "[Dev] VMInit_11111111"; old_init_vm] 60).
Proof.
  apply (list_init_vms_no_timestamp "Dev" _ _ 60 (vm_named "[Dev] VMInit_11111111"));
    [reflexivity|reflexivity|left; reflexivity|].
  intros other [<-|[<-|[]]]; [reflexivity|discriminate].
Defined.

End PoolNames.

(* ===================================================================== *)
(** * Janitor: Replenisher._cleanup_fault_vms *)
(* ===================================================================== *)

Module Janitor.

Import Effect.
Local Open Scope effect_scope.

Section Cleanup.

(** The world behind the pool and the exceptions it raises. *)
Context {W E : Type}.

(** The attributes the janitor probes with [hasattr] and [getattr]; an
    absent one is [None]. *)
Record pool : Type := {
  delete_vm_by_name : option (string -> W -> (E + unit) * W);
  list_fault_vms : option (W -> (E + list string) * W);
  list_init_vms : option (Z -> W -> (E + list string) * W)
}.

(** The world and a record of the deletions tried and of those that
    returned. *)
Record state : Type := {
  world : W;
  attempted : list string;
  deleted : list string
}.

(** The order in which [for vm_name in victims] visits the set
    [set(fault_vms) | set(init_vms)], given the two lists appended.  Python
    does not specify it. *)
Variable iteration : list string -> list string.

Definition is_set_order : Prop :=
  forall l : list string, NoDup (iteration l) /\ forall x, x ∈ iteration l <-> x ∈ l.

Definition on_world {A : Type} (op : W -> (E + A) * W) : M state E A :=
  fun s =>
    let '(r, w) := op (world s) in
    (r, {| world := w; attempted := attempted s; deleted := deleted s |}).

(** One iteration of the inner loop: the deletion inside its own [try]. *)
Definition delete_one (delete : string -> W -> (E + unit) * W) (vm_name : string)
  : M state E unit :=
  try_except
    (fun s =>
       let '(r, w) := delete vm_name (world s) in
       (r, {| world := w;
              attempted := attempted s ++ [vm_name];
              deleted := match r with
                         | inr _ => deleted s ++ [vm_name]
                         | inl _ => deleted s
                         end |}))
    (fun _ => ret tt).

Fixpoint delete_all (delete : string -> W -> (E + unit) * W) (victims : list string)
  : M state E unit :=
  match victims with
  | [] => ret tt
  | vm_name :: rest => delete_one delete vm_name ;; delete_all delete rest
  end.

(** [getattr(self.pool, "list_fault_vms", lambda: [])()] and
    [getattr(self.pool, "list_init_vms", lambda _ttl: [])(ttl)] *)
Definition call_list_fault (p : pool) : M state E (list string) :=
  match list_fault_vms p with
  | Some f => on_world f
  | None => ret []
  end.

Definition call_list_init (p : pool) (ttl : Z) : M state E (list string) :=
  match list_init_vms p with
  | Some f => on_world (f ttl)
  | None => ret []
  end.

(** [_cleanup_fault_vms] *)
Definition _cleanup_fault_vms (p : pool) (fault_ttl_min : Z) : M state E unit :=
  match delete_vm_by_name p with
  | None => ret tt
  | Some delete =>
      try_except
        (fault_vms <- call_list_fault p ;;
         init_vms <- call_list_init p fault_ttl_min ;;
         delete_all delete (iteration (fault_vms ++ init_vms)))
        (fun _ => ret tt)
  end.

Lemma delete_one_returns (delete : string -> W -> (E + unit) * W) (n : string) (s : state) :
  exists s', delete_one delete n s = (inr tt, s') /\
             attempted s' = attempted s ++ [n] /\
             (deleted s' = deleted s \/ deleted s' = deleted s ++ [n]).
Proof.
  unfold delete_one, try_except, ret.
  destruct (delete n (world s)) as [[e|[]] w]; eexists; (split; [reflexivity|]);
    simpl; auto.
Qed.

Lemma delete_all_returns (delete : string -> W -> (E + unit) * W) (victims : list string)
      (s : state) :
  exists s' done,
    delete_all delete victims s = (inr tt, s') /\
    attempted s' = attempted s ++ victims /\
    deleted s' = deleted s ++ done /\ sublist done victims.
Proof.
  revert s. induction victims as [|n rest IH]; intros s; simpl.
  - exists s, []. rewrite !app_nil_r. repeat split. constructor.
  - destruct (delete_one_returns delete n s) as (s1 & H1 & Ha1 & Hd1).
    destruct (IH s1) as (s' & done & H' & Ha' & Hd' & Hsub).
    unfold bind. rewrite H1.
    destruct Hd1 as [Hd1|Hd1].
    + exists s', done. rewrite H', Ha', Ha1, Hd', Hd1, <- app_assoc.
      repeat split. constructor. exact Hsub.
    + exists s', (n :: done). rewrite H', Ha', Ha1, Hd', Hd1, <- !app_assoc.
      repeat split. constructor. exact Hsub.
Qed.

(** X11. When both listings return, the janitor tries to delete every
    name of the fault list or the init list exactly once, whatever the
    single deletions do: a deletion that raises does not stop the others,
    and the deletions that returned are among those tried. *)
Theorem janitor_tries_each_victim_once
        (p : pool) (delete : string -> W -> (E + unit) * W) (ttl : Z)
        (s : state) (fault_vms init_vms : list string) (w1 w2 : W) :
  is_set_order ->
  delete_vm_by_name p = Some delete ->
  call_list_fault p s = (inr fault_vms,
                         {| world := w1; attempted := attempted s; deleted := deleted s |}) ->
  call_list_init p ttl {| world := w1; attempted := attempted s; deleted := deleted s |}
    = (inr init_vms, {| world := w2; attempted := attempted s; deleted := deleted s |}) ->
  exists s' tried done,
    _cleanup_fault_vms p ttl s = (inr tt, s') /\
    attempted s' = attempted s ++ tried /\
    NoDup tried /\
    (forall x, x ∈ tried <-> x ∈ fault_vms \/ x ∈ init_vms) /\
    deleted s' = deleted s ++ done /\ sublist done tried.
Proof.
  intros Hord Hdel Hfault Hinit.
  unfold _cleanup_fault_vms. rewrite Hdel.
  unfold try_except, bind. rewrite Hfault, Hinit.
  destruct (delete_all_returns delete (iteration (fault_vms ++ init_vms))
              {| world := w2; attempted := attempted s; deleted := deleted s |})
    as (s' & done & Hrun & Ha & Hd & Hsub).
  rewrite Hrun. exists s', (iteration (fault_vms ++ init_vms)), done.
  destruct (Hord (fault_vms ++ init_vms)) as [Hnd Hmem].
  repeat split; try assumption.
  - intros Hx. apply Hmem, elem_of_app in Hx. exact Hx.
  - intros Hx. apply Hmem, elem_of_app. exact Hx.
Qed.

(** X12. The janitor never raises, whatever the pool does; without a
    [delete_vm_by_name] attribute, or when a listing raises, it tries no
    deletion at all. *)
Theorem janitor_never_raises (p : pool) (ttl : Z) (s : state) :
  exists s', _cleanup_fault_vms p ttl s = (inr tt, s') /\
  (delete_vm_by_name p = None -> s' = s) /\
  (forall e s1, call_list_fault p s = (inl e, s1) -> attempted s' = attempted s) /\
  (forall fault_vms e s1 s2,
      call_list_fault p s = (inr fault_vms, s1) ->
      call_list_init p ttl s1 = (inl e, s2) -> attempted s' = attempted s).
Proof.
  unfold _cleanup_fault_vms.
  destruct (delete_vm_by_name p) as [delete|].
  - unfold try_except, bind.
    destruct (call_list_fault p s) as [[e|fault_vms] s1] eqn:Hf.
    + exists s1. split; [reflexivity|]. split; [discriminate|].
      assert (Ha1 : attempted s1 = attempted s).
      { unfold call_list_fault, on_world, ret in Hf.
        destruct (list_fault_vms p) as [f|]; [|discriminate].
        destruct (f (world s)). injection Hf as _ <-. reflexivity. }
      split; [intros; exact Ha1|discriminate].
    + assert (Ha1 : attempted s1 = attempted s).
      { unfold call_list_fault, on_world, ret in Hf.
        destruct (list_fault_vms p) as [f|].
        - destruct (f (world s)). injection Hf as _ <-. reflexivity.
        - injection Hf as _ <-. reflexivity. }
      destruct (call_list_init p ttl s1) as [[e|init_vms] s2] eqn:Hi.
      * exists s2. split; [reflexivity|]. split; [discriminate|].
        split; [discriminate|].
        intros ? ? ? ? [= <- <-] _.
        unfold call_list_init, on_world, ret in Hi.
        destruct (list_init_vms p) as [f|]; [|discriminate].
        destruct (f ttl (world s1)). injection Hi as _ <-. exact Ha1.
      * destruct (delete_all_returns delete (iteration (fault_vms ++ init_vms)) s2)
          as (s' & done & Hrun & _).
        rewrite Hrun. exists s'. split; [reflexivity|].
        split; [discriminate|]. split; [discriminate|].
        intros ? ? ? ? [= <- <-] Hc. rewrite Hi in Hc. discriminate.
  - exists s. split; [reflexivity|]. split; [reflexivity|].
    split; intros; reflexivity.
Qed.

End Cleanup.

End Janitor.

(* ===================================================================== *)
(** * The janitor over the pool manager's listings *)
(* ===================================================================== *)

Module JanitorOnPool.

Import Effect.

(** The inventory of the environment folder and the UTC clock. *)
Record world : Type := {
  inventory : list PoolView.VirtualMachine;
  now_utc : Z
}.

(** The pool the service hands to the replenisher: a
    [VSpherePoolManager], whose two listings read the inventory and do not
    raise; [delete] is what its [delete_vm_by_name] does. *)
Definition pool_manager (vm_prefix : string)
           (delete : string -> world -> (string + unit) * world)
  : Janitor.pool (W:=world) (E:=string) :=
  {| Janitor.delete_vm_by_name := Some delete;
     Janitor.list_fault_vms :=
       Some (fun w => (inr (PoolNames.list_fault_vms vm_prefix (inventory w)), w));
     Janitor.list_init_vms :=
       Some (fun ttl w =>
               (inr (PoolView.list_init_vms vm_prefix (now_utc w) (inventory w) ttl), w)) |}.

(** A deletion that removes the VMs of that name and raises when there is
    none. *)
Definition drop_vm (n : string) (w : world) : (string + unit) * world :=
  if existsb (fun vm => String.eqb (PoolView.name vm) n) (inventory w)
  then (inr tt,
        {| inventory := List.filter (fun vm => negb (String.eqb (PoolView.name vm) n))
                                    (inventory w);
           now_utc := now_utc w |})
  else (inl "AttributeError"%string, w).

(** A deletion that always raises. *)
Definition refuse (n : string) (w : world) : (string + unit) * world :=
  (inl "VMDeleteError"%string, w).

(** A pool without [delete_vm_by_name]. *)
Definition bare_pool : Janitor.pool (W:=world) (E:=string) :=
  {| Janitor.delete_vm_by_name := None;
     Janitor.list_fault_vms := None;
     Janitor.list_init_vms := None |}.

Definition start (vms : list PoolView.VirtualMachine) (now : Z) : Janitor.state :=
  {| Janitor.world := {| inventory := vms; now_utc := now |};
     Janitor.attempted := []; Janitor.deleted := [] |}.

Definition two_hours : Z := 120 * PoolView.MICROSECONDS_PER_MINUTE.

(** One ready VM, one stale init VM, one fault VM. *)
Definition mixed_inventory : list PoolView.VirtualMachine :=
  [PoolNames.vm_named "[Dev] VM2login_0a1b2c3d"; PoolNames.old_init_vm;
   PoolNames.vm_named "[Dev] VMError_22222222"].

Lemma remove_dups_is_set_order : Janitor.is_set_order (remove_dups (A:=string)).
Proof.
  intros l. split; [apply NoDup_remove_dups|]. intros x. apply elem_of_remove_dups.
Qed.

(** X13. Run on the pool manager, the janitor never tries to delete a VM
    of the ready set, and with a TTL of zero or less it tries fault VMs
    only. *)
Theorem janitor_spares_ready_vms
        (iteration : list string -> list string) (vm_prefix : string)
        (delete : string -> world -> (string + unit) * world) (ttl : Z)
        (s : Janitor.state) :
  Janitor.is_set_order iteration ->
  exists s' tried,
    Janitor._cleanup_fault_vms iteration (pool_manager vm_prefix delete) ttl s = (inr tt, s') /\
    Janitor.attempted s' = Janitor.attempted s ++ tried /\
    Forall (fun n => (n ∉ PoolNames.available vm_prefix (inventory (Janitor.world s))) /\
                     (ttl <= 0 -> PoolView.startswith n (PoolNames.prefix_err vm_prefix) = true))
           tried.
Proof.
  intros Hord.
  unfold Janitor._cleanup_fault_vms, pool_manager. simpl.
  unfold try_except, bind, Janitor.call_list_fault, Janitor.call_list_init,
    Janitor.on_world. simpl.
  set (fault := PoolNames.list_fault_vms vm_prefix (inventory (Janitor.world s))).
  set (init := PoolView.list_init_vms vm_prefix (now_utc (Janitor.world s))
                                      (inventory (Janitor.world s)) ttl).
  destruct (Janitor.delete_all_returns delete (iteration (fault ++ init))
              {| Janitor.world := Janitor.world s;
                 Janitor.attempted := Janitor.attempted s;
                 Janitor.deleted := Janitor.deleted s |})
    as (s' & done & Hrun & Ha & _).
  rewrite Hrun. exists s', (iteration (fault ++ init)).
  split; [reflexivity|]. split; [exact Ha|].
  apply Forall_forall. intros n Hn.
  destruct (Hord (fault ++ init)) as [_ Hmem].
  apply Hmem, elem_of_app in Hn. split.
  - intros Hready. apply PoolNames.elem_of_available in Hready.
    destruct Hn as [Hn|Hn]; apply list_elem_of_In in Hn.
    + apply PoolNames.in_list_fault_vms in Hn.
      destruct (PoolNames.startswith_two vm_prefix "] VM2login_" "] VMError_" n Hready Hn);
        discriminate.
    + apply PoolNames.in_list_init_vms in Hn.
      destruct (PoolNames.startswith_two vm_prefix "] VM2login_" "] VMInit_" n Hready Hn);
        discriminate.
  - intros Httl. destruct Hn as [Hn|Hn]; apply list_elem_of_In in Hn.
    + exact (PoolNames.in_list_fault_vms _ _ _ Hn).
    + subst init. rewrite PoolView.list_init_vms_guard in Hn by exact Httl.
      destruct Hn.
Qed.

Lemma janitor_spares_ready_vms_witness :
  Janitor.attempted
    (snd (Janitor._cleanup_fault_vms remove_dups (pool_manager "Dev" drop_vm) 60
            (start mixed_inventory two_hours)))
  = ["[Dev] VMError_22222222"; "[Dev] VMInit_0a1b2c3d"]%string.
Proof.
  destruct (janitor_spares_ready_vms remove_dups "Dev" drop_vm 60
              (start mixed_inventory two_hours) remove_dups_is_set_order)
    as (s' & tried & Hrun & _ & _).
  rewrite Hrun. vm_compute in Hrun. injection Hrun as <-. reflexivity.
Defined.

Lemma janitor_tries_each_victim_once_witness :
  Janitor.attempted
    (snd (Janitor._cleanup_fault_vms remove_dups (pool_manager "Dev" refuse) 60
            (start mixed_inventory two_hours)))
  = ["[Dev] VMError_22222222"; "[Dev] VMInit_0a1b2c3d"]%string.
Proof.
  destruct (Janitor.janitor_tries_each_victim_once remove_dups
              (pool_manager "Dev" refuse) refuse 60
              (start mixed_inventory two_hours)
              ["[Dev] VMError_22222222"%string] ["[Dev] VMInit_0a1b2c3d"%string]
              {| inventory := mixed_inventory; now_utc := two_hours |}
              {| inventory := mixed_inventory; now_utc := two_hours |}
              remove_dups_is_set_order eq_refl eq_refl eq_refl)
    as (s' & tried & done & Hrun & _).
  rewrite Hrun. vm_compute in Hrun. injection Hrun as <-. reflexivity.
Defined.

Lemma janitor_never_raises_witness :
  Janitor._cleanup_fault_vms remove_dups bare_pool 60 (start mixed_inventory two_hours)
  = (inr tt, start mixed_inventory two_hours).
Proof.
  destruct (Janitor.janitor_never_raises remove_dups bare_pool 60
              (start mixed_inventory two_hours)) as (s' & Hrun & Hsame & _).
  rewrite Hrun, (Hsame eq_refl). reflexivity.
Defined.

(** With the deleting pool the ready VM is all that is left. *)
Example janitor_run :
  map PoolView.name
      (inventory (Janitor.world
         (snd (Janitor._cleanup_fault_vms remove_dups (pool_manager "Dev" drop_vm) 60
                 (start mixed_inventory two_hours)))))
  = ["[Dev] VM2login_0a1b2c3d"]%string.
Proof. vm_compute. reflexivity. Qed.

End JanitorOnPool.

(* ===================================================================== *)
(** * NSX: what the parsed table looks like, lookups, the switch id *)
(* ===================================================================== *)

Module ArpTable.

Import NSX.

(** [get_ip_by_mac], on the output that [fetch_arp_table] returned:
    [self.get_arp_dict().get(mac_address.lower())]. *)
Definition get_ip_by_mac (raw_output mac_address : string) : option string :=
  parse_arp_table raw_output !! lower mac_address.

(** [needle in hay] *)
Fixpoint contains (needle hay : string) : bool :=
  String.prefix needle hay ||
  match hay with
  | EmptyString => false
  | String _ rest => contains needle rest
  end.

(** The loop of [_find_logical_switch_id] over the lines of the output,
    for a switch name that is set and not empty. *)
Fixpoint find_in_lines (switch_name : string) (lines : list string) : option string :=
  match lines with
  | [] => None
  | line :: rest =>
      if contains switch_name line then
        let parts := split line in
        if (2 <=? length parts)%nat then Some (nth 1 parts EmptyString)
        else find_in_lines switch_name rest
      else find_in_lines switch_name rest
  end.

(** [_find_logical_switch_id]: [switch_name] is [None] when the manager
    was built without one; a missing or empty name fails the test
    [self.switch_name and ...] on every line.  The error is the
    [ValueError] raised after the loop. *)
Definition _find_logical_switch_id (switch_name : option string) (output : string)
  : string + string :=
  let found :=
    match switch_name with
    | None => None
    | Some n => if is_empty n then None else find_in_lines n (splitlines output)
    end in
  match found with
  | Some uuid => inr uuid
  | None => inl "ValueError: Logical Switch not found"%string
  end.

Fixpoint no_space (s : string) : bool :=
  match s with
  | EmptyString => true
  | String c rest => negb (isspace c) && no_space rest
  end.

(** The derivative of a pattern by a whole word. *)
Fixpoint derive_all (r : regex) (w : list ascii) : regex :=
  match w with
  | [] => r
  | c :: rest => derive_all (deriv c r) rest
  end.

(** An ARP table with a header, a lower-case and an upper-case entry. *)
Definition sample_table : string :=
  ("VNI      IP           MAC               Connection-ID" +:+ newline +:+
   "69632    10.0.0.7     00:50:56:aa:68:16 4" +:+ newline +:+
   "69632    10.0.0.9     00:50:56:AA:68:17 5" +:+ newline)%string.

Definition sample_switches : string :=
  ("VNI      UUID                                 Name" +:+ newline +:+
   "69632    5f4e0e2c-7d39-4c1d-9f4a-1b2c3d4e5f60 ls-dev" +:+ newline)%string.

(** ** Fields *)

Lemma no_space_push (cur : string) (c : ascii) :
  no_space (push cur c) = no_space cur && negb (isspace c).
Proof.
  unfold push. induction cur as [|x cur IH].
  - simpl. rewrite andb_true_r. reflexivity.
  - rewrite PoolNames.append_cons. simpl. rewrite IH, andb_assoc. reflexivity.
Qed.

Lemma push_not_empty (cur : string) (c : ascii) : is_empty (push cur c) = false.
Proof. unfold push. destruct cur; reflexivity. Qed.

Definition field (f : string) : Prop := is_empty f = false /\ no_space f = true.

Lemma split_from_fields (cur s : string) :
  no_space cur = true -> Forall field (split_from cur s).
Proof.
  revert cur. induction s as [|c s IH]; intros cur Hcur; simpl.
  - destruct (is_empty cur) eqn:He; [constructor|].
    constructor; [split; assumption|constructor].
  - destruct (isspace c) eqn:Hc.
    + destruct (is_empty cur) eqn:He; [apply IH; reflexivity|].
      constructor; [split; assumption|apply IH; reflexivity].
    + apply IH. rewrite no_space_push, Hcur, Hc. reflexivity.
Qed.

Lemma split_fields (s : string) : Forall field (split s).
Proof. apply split_from_fields. reflexivity. Qed.

(** ** Lower case *)

Lemma isspace_lower_char (c : ascii) : isspace (lower_char c) = isspace c.
Proof. destruct c as [[] [] [] [] [] [] [] []]; reflexivity. Qed.

Lemma lower_char_idem (c : ascii) : lower_char (lower_char c) = lower_char c.
Proof. destruct c as [[] [] [] [] [] [] [] []]; reflexivity. Qed.

Lemma lower_idem (s : string) : lower (lower s) = lower s.
Proof.
  induction s as [|c s IH]; simpl; [reflexivity|].
  rewrite lower_char_idem, IH. reflexivity.
Qed.

Lemma no_space_lower (s : string) : no_space (lower s) = no_space s.
Proof.
  induction s as [|c s IH]; simpl; [reflexivity|].
  rewrite isspace_lower_char, IH. reflexivity.
Qed.

Lemma length_lower (s : string) : String.length (lower s) = String.length s.
Proof. induction s as [|c s IH]; simpl; [reflexivity|]. rewrite IH. reflexivity. Qed.

Lemma length_list_ascii (s : string) :
  length (list_ascii_of_string s) = String.length s.
Proof. induction s as [|c s IH]; simpl; [reflexivity|]. rewrite IH. reflexivity. Qed.

Lemma entry_of_lookup (raw_output k ip : string) :
  parse_arp_table raw_output !! k = Some ip ->
  exists line, In line (splitlines raw_output) /\ line_entry line = Some (k, ip).
Proof.
  unfold parse_arp_table. intros H.
  apply fold_store_lookup in H as [(b & l & a & Heq & He & _) | [Hm _]].
  - exists l. split; [|exact He]. rewrite Heq. apply in_or_app. right. left. reflexivity.
  - rewrite lookup_empty in Hm. discriminate.
Qed.

(** X14. Every entry of the parsed table has a key that is already in
    lower case, is at least 17 characters long and contains no whitespace,
    and a value without whitespace that begins with a dotted quad. *)
Theorem parse_arp_table_entries (raw_output k ip : string) :
  parse_arp_table raw_output !! k = Some ip ->
  lower k = k /\ (17 <= String.length k)%nat /\ no_space k = true /\
  no_space ip = true /\ begins_with IP_PATTERN ip.
Proof.
  intros H. apply entry_of_lookup in H as (line & _ & He).
  apply line_entry_spec in He as (mac & _ & Hip & Hmac & Hquad & Hm & ->).
  pose proof (split_fields line) as Hfields.
  rewrite Forall_forall in Hfields.
  assert (Hfip : field ip).
  { apply Hfields. eapply list_elem_of_lookup_2. exact Hip. }
  assert (Hfmac : field mac).
  { apply Hfields. eapply list_elem_of_lookup_2. exact Hmac. }
  apply begins_with_mac in Hm as [Hlen _].
  rewrite lower_idem, length_lower, no_space_lower, <- length_list_ascii.
  destruct Hfip as [_ Hsip]. destruct Hfmac as [_ Hsmac]. auto.
Qed.

Lemma parse_arp_table_entries_witness :
  lower "00:50:56:aa:68:17" = "00:50:56:aa:68:17"%string /\
  no_space "10.0.0.9" = true.
Proof.
  destruct (parse_arp_table_entries sample_table "00:50:56:aa:68:17" "10.0.0.9")
    as (Hk & _ & _ & Hip & _).
  - vm_compute. reflexivity.
  - split; [exact Hk|exact Hip].
Defined.

(** X15. A lookup does not depend on the letter case of the MAC asked
    for, nor on the case used in the table: if a line in the canonical
    form carries the MAC and no later line stores the same key,
    [get_ip_by_mac] returns that line's IP for every spelling of the MAC
    that lower-cases to the same text. *)
Theorem get_ip_by_mac_any_case (raw_output line written asked ip : string)
        (before after : list string) :
  splitlines raw_output = before ++ line :: after ->
  contributes_canonical line (lower written) ip ->
  Forall (no_entry_for (lower written)) after ->
  lower asked = lower written ->
  get_ip_by_mac raw_output asked = Some ip.
Proof.
  intros Hlines Hline Hafter Hcase.
  unfold get_ip_by_mac, parse_arp_table. rewrite Hcase.
  apply fold_store_lookup. left. exists before, line, after.
  split; [exact Hlines|]. split; [|exact Hafter].
  apply line_entry_spec, canonical_contributes, Hline.
Qed.

Lemma in_lang_derive_all (r : regex) (w : list ascii) :
  in_lang r w <-> nullable (derive_all r w) = true.
Proof.
  revert r. induction w as [|c w IH]; intros r; simpl.
  - symmetry. apply nullable_spec.
  - rewrite <- IH. symmetry. apply deriv_spec.
Qed.

Lemma get_ip_by_mac_any_case_witness :
  get_ip_by_mac sample_table "00:50:56:AA:68:16" = Some "10.0.0.7"%string.
Proof.
  apply (get_ip_by_mac_any_case sample_table
           "69632    10.0.0.7     00:50:56:aa:68:16 4" "00:50:56:aa:68:16"
           "00:50:56:AA:68:16" "10.0.0.7"
           ["VNI      IP           MAC               Connection-ID"%string]
           ["69632    10.0.0.9     00:50:56:AA:68:17 5"%string]).
  - vm_compute. reflexivity.
  - exists "00:50:56:aa:68:16"%string.
    split; [vm_compute; lia|]. split; [reflexivity|]. split; [reflexivity|].
    split; [apply in_lang_derive_all; vm_compute; reflexivity|].
    split; reflexivity.
  - constructor; [|constructor]. intros ip'. vm_compute. discriminate.
  - reflexivity.
Defined.

(** ** The switch id *)

Lemma find_in_lines_sound (n : string) (lines : list string) (uuid : string) :
  find_in_lines n lines = Some uuid ->
  exists line, In line lines /\ contains n line = true /\
               split line !! 1%nat = Some uuid.
Proof.
  induction lines as [|line rest IH]; cbn [find_in_lines]; [discriminate|].
  destruct (contains n line) eqn:Hc.
  - destruct (2 <=? length (split line))%nat eqn:Hlen.
    + intros [= <-]. exists line. split; [left; reflexivity|]. split; [exact Hc|].
      apply Nat.leb_le in Hlen.
      destruct (lookup_lt_is_Some_2 (split line) 1) as [u Hu]; [lia|].
      rewrite (nth_lookup_Some _ _ EmptyString _ Hu). exact Hu.
    + intros H. apply IH in H as (l & Hin & H). exists l. split; [right; exact Hin|exact H].
  - intros H. apply IH in H as (l & Hin & H). exists l. split; [right; exact Hin|exact H].
Qed.

(** X16. What [_find_logical_switch_id] returns is the second field of a
    line of the output that contains the switch name, so it is never empty
    and has no whitespace in it; with no switch name, or an empty one, it
    raises for every output. *)
Theorem find_logical_switch_id_result (switch_name : option string) (output : string) :
  match _find_logical_switch_id switch_name output with
  | inr uuid =>
      exists n line,
        switch_name = Some n /\ is_empty n = false /\
        In line (splitlines output) /\ contains n line = true /\
        split line !! 1%nat = Some uuid /\ field uuid
  | inl _ => True
  end /\
  (exists e, _find_logical_switch_id None output = inl e) /\
  (exists e, _find_logical_switch_id (Some EmptyString) output = inl e).
Proof.
  split; [|split; eexists; reflexivity].
  unfold _find_logical_switch_id.
  destruct switch_name as [n|]; [|exact I].
  destruct (is_empty n) eqn:He; [exact I|].
  destruct (find_in_lines n (splitlines output)) as [uuid|] eqn:Hf; [|exact I].
  apply find_in_lines_sound in Hf as (line & Hin & Hc & Hu).
  exists n, line. repeat split; try assumption.
  - pose proof (split_fields line) as Hfields. rewrite Forall_forall in Hfields.
    apply Hfields. eapply list_elem_of_lookup_2. exact Hu.
  - pose proof (split_fields line) as Hfields. rewrite Forall_forall in Hfields.
    apply Hfields. eapply list_elem_of_lookup_2. exact Hu.
Qed.

Example find_switch_example :
  _find_logical_switch_id (Some "ls-dev"%string) sample_switches
  = inr "5f4e0e2c-7d39-4c1d-9f4a-1b2c3d4e5f60"%string.
Proof. vm_compute. reflexivity. Qed.

End ArpTable.

(* ===================================================================== *)
(** * VSphere: the guard twice, failing power tasks, clone_vm *)
(* ===================================================================== *)

Module ManagerFacts.

Import Effect VSphere.
Local Open Scope effect_scope.

(** The state after a request was sent and the server moved to [v]. *)
Definition after_request (st : state) (r : request) (v : vcenter) : state :=
  {| vc := v; requests := requests st ++ [r] |}.

(** A server that fails every task. *)
Definition failing_task (r : request) (v : vcenter) : (exn + TaskInfoState) * vcenter :=
  (inr (error "The operation is not allowed in the current state."), v).

(** A server on which the request itself raises. *)
Definition raising_task (r : request) (v : vcenter) : (exn + TaskInfoState) * vcenter :=
  (inl (SdkError "InvalidPowerState"), v).

Definition running_vm : VirtualMachine :=
  {| name := "[Dev] VMInit_0a1b2c3d"; runtime_powerState := poweredOn;
     parent := env_folder; resourcePool := "pool"; datastore := ["NFS_Raid"%string] |}.

(** A source VM without datastore. *)
Definition bare_golden : VirtualMachine :=
  {| name := "[Dev] Golden"; runtime_powerState := poweredOff; parent := env_folder;
     resourcePool := "pool"; datastore := [] |}.

Definition login_folder : Folder := SubFolder "LoginVMs" env_folder.

Definition state_with_folder (vms : list VirtualMachine) : state :=
  {| vc := {| session := SessionValid; smart_connect := None; vm_view := vms;
              folder_view := [TopFolder "vm"; env_folder; login_folder] |};
     requests := [] |}.

Definition is_clone_error (new_vm_name : string) (e : exn) : Prop :=
  exists details, e = VMCloneError new_vm_name details.

Section Facts.

Variable run_task : request -> vcenter -> (exn + TaskInfoState) * vcenter.
Variable run_create_folder : Folder -> string -> vcenter -> (exn + Folder) * vcenter.
Variable ensure_folder_path : string -> M state exn Folder.

Lemma reconnect_settles (st st' : state) (b : bool) :
  reconnect_if_needed st = (inr b, st') ->
  session (vc st') = SessionValid.
Proof.
  unfold reconnect_if_needed.
  destruct (session (vc st)) eqn:Hs.
  - intros [= <- <-]. exact Hs.
  - unfold bind, _connect, ret. destruct (smart_connect (vc st)); [discriminate|].
    intros [= <- <-]. reflexivity.
  - discriminate.
Qed.

Lemma guard_settles (vm vm' : VirtualMachine) (st st' : state) :
  guard vm st = (inr vm', st') -> session (vc st') = SessionValid.
Proof.
  unfold guard, bind.
  destruct (reconnect_if_needed st) as [[e|b] s1] eqn:Hr; [discriminate|].
  apply reconnect_settles in Hr.
  destruct b.
  - destruct (get_vm_by_name (name vm) s1); intros [= <- <-]; exact Hr.
  - intros [= <- <-]. exact Hr.
Qed.

(** X17. The session guard is idempotent: right after a decorated call
    got past it, the probe reports no reconnect and a second pass hands on
    the same handle and changes nothing. *)
Theorem guard_twice (vm vm' : VirtualMachine) (st st' : state) :
  guard vm st = (inr vm', st') ->
  reconnect_if_needed st' = (inr false, st') /\
  guard vm' st' = (inr vm', st').
Proof.
  intros Hg. apply guard_settles in Hg. split.
  - unfold reconnect_if_needed. rewrite Hg. reflexivity.
  - apply guard_valid, Hg.
Qed.

(** X18. With a valid session, a power task that ends in error surfaces
    as the typed error of the operation, carrying the name of the VM and
    the power state read before the request, for [power_on_vm] and
    [power_off_vm]; for [suspend_vm] it surfaces as a [TypeError].  One
    request has been sent in each case. *)
Theorem power_task_errors (vm : VirtualMachine) (st : state) (msg : string) (v : vcenter) :
  session (vc st) = SessionValid ->
  (runtime_powerState vm <> poweredOn ->
   run_task (PowerOn vm) (vc st) = (inr (error msg), v) ->
   power_on_vm run_task vm st =
   (inl (VMPowerOnError (name vm) (runtime_powerState vm)),
    after_request st (PowerOn vm) v)) /\
  (runtime_powerState vm <> poweredOff ->
   run_task (PowerOff vm) (vc st) = (inr (error msg), v) ->
   power_off_vm run_task vm st =
   (inl (VMPowerOffError (name vm) (runtime_powerState vm)),
    after_request st (PowerOff vm) v)) /\
  (runtime_powerState vm <> suspended ->
   run_task (Suspend vm) (vc st) = (inr (error msg), v) ->
   exists text, suspend_vm run_task vm st =
                (inl (TypeError text), after_request st (Suspend vm) v)).
Proof.
  intros Hs. pose proof (guard_valid vm st Hs) as Hg.
  repeat split; intros Hstate Hrun.
  - unfold power_on_vm, ensure_vm_connection, bind. rewrite Hg.
    destruct (runtime_powerState vm); try congruence;
      cbn; unfold send; rewrite Hrun; reflexivity.
  - unfold power_off_vm, ensure_vm_connection, bind. rewrite Hg.
    destruct (runtime_powerState vm); try congruence;
      cbn; unfold send; rewrite Hrun; reflexivity.
  - eexists. unfold suspend_vm, ensure_vm_connection, bind. rewrite Hg.
    destruct (runtime_powerState vm); try congruence;
      cbn; unfold try_except, send; rewrite Hrun; reflexivity.
Qed.

(** X19. When the request itself raises, [power_on_vm] and
    [power_off_vm] let the error through as it is, while [suspend_vm],
    whose request is inside the [try], still ends in [TypeError]. *)
Theorem power_request_raises (vm : VirtualMachine) (st : state) (e : exn) (v : vcenter) :
  session (vc st) = SessionValid ->
  (runtime_powerState vm <> poweredOn ->
   run_task (PowerOn vm) (vc st) = (inl e, v) ->
   power_on_vm run_task vm st = (inl e, after_request st (PowerOn vm) v)) /\
  (runtime_powerState vm <> poweredOff ->
   run_task (PowerOff vm) (vc st) = (inl e, v) ->
   power_off_vm run_task vm st = (inl e, after_request st (PowerOff vm) v)) /\
  (runtime_powerState vm <> suspended ->
   run_task (Suspend vm) (vc st) = (inl e, v) ->
   exists text, suspend_vm run_task vm st =
                (inl (TypeError text), after_request st (Suspend vm) v)).
Proof.
  intros Hs. pose proof (guard_valid vm st Hs) as Hg.
  repeat split; intros Hstate Hrun.
  - unfold power_on_vm, ensure_vm_connection, bind. rewrite Hg.
    destruct (runtime_powerState vm); try congruence;
      cbn; unfold send; rewrite Hrun; reflexivity.
  - unfold power_off_vm, ensure_vm_connection, bind. rewrite Hg.
    destruct (runtime_powerState vm); try congruence;
      cbn; unfold send; rewrite Hrun; reflexivity.
  - eexists. unfold suspend_vm, ensure_vm_connection, bind. rewrite Hg.
    destruct (runtime_powerState vm); try congruence;
      cbn; unfold try_except, send; rewrite Hrun; reflexivity.
Qed.

Lemma clone_into_outcome (source_vm : VirtualMachine) (dest : Folder) (new_vm_name : string)
      (st st' : state) (r : exn + VirtualMachine) :
  clone_into run_task source_vm dest new_vm_name st = (r, st') ->
  requests st' = requests st ++ [Clone source_vm dest new_vm_name] /\
  match r with
  | inl e => is_clone_error new_vm_name e
  | inr vm => name vm = new_vm_name /\ In vm (vm_view (vc st'))
  end.
Proof.
  unfold clone_into, bind, try_except, send.
  destruct (run_task (Clone source_vm dest new_vm_name) (vc st)) as [[e|[|msg]] v]; cbn.
  - intros [= <- <-]. split; [reflexivity|]. eexists. reflexivity.
  - unfold get_vm_by_name. cbn.
    destruct (List.find _ (vm_view v)) as [vm|] eqn:Hfind; intros [= <- <-];
      (split; [reflexivity|]).
    + apply find_some in Hfind as [Hin Hname]. apply String.eqb_eq in Hname. auto.
    + eexists. reflexivity.
  - intros [= <- <-]. split; [reflexivity|]. eexists. reflexivity.
Qed.

(** X20. The lookups of [clone_vm] are server calls outside any [try]
    and reach the inventory only on a valid session.  On a session that is
    valid and that the server's answer to a request leaves valid,
    [clone_vm] called without a folder raises nothing but [VMCloneError]
    for the new name, and it has then sent either no request at all (the
    source VM is missing or has no datastore) or the one clone request
    into the folder of the source VM; it never creates a folder. *)
Theorem clone_vm_errors (source_vm_name new_vm_name : string) (st st' : state) (e : exn) :
  session (vc st) = SessionValid ->
  (forall (req : request) (r : exn + TaskInfoState) (v : vcenter),
      run_task req (vc st) = (r, v) -> session v = SessionValid) ->
  clone_vm run_task run_create_folder ensure_folder_path
           source_vm_name new_vm_name None st = (inl e, st') ->
  is_clone_error new_vm_name e /\
  session (vc st') = SessionValid /\
  (requests st' = requests st \/
   exists source_vm,
     get_vm_by_name source_vm_name st = Some source_vm /\
     requests st' = requests st ++ [Clone source_vm (parent source_vm) new_vm_name]).
Proof.
  intros Hvalid Hstays. unfold clone_vm.
  destruct (get_vm_by_name source_vm_name st) as [source_vm|] eqn:Hsrc.
  - destruct (datastore source_vm).
    + intros [= <- <-]. split; [eexists; reflexivity|]. split; [exact Hvalid|left; reflexivity].
    + unfold bind at 1. cbn. intros Hrun.
      assert (Hs : session (vc st') = SessionValid).
      { revert Hrun. unfold clone_into, bind, try_except, send.
        destruct (run_task (Clone source_vm (parent source_vm) new_vm_name) (vc st))
          as [[e1|[|msg]] v] eqn:Htask; cbn;
          pose proof (Hstays _ _ _ Htask) as Hv.
        - intros [= _ <-]. exact Hv.
        - destruct (get_vm_by_name new_vm_name _); intros [= _ <-]; exact Hv.
        - intros [= _ <-]. exact Hv. }
      apply clone_into_outcome in Hrun as [Hreq Herr].
      split; [exact Herr|]. split; [exact Hs|]. right. exists source_vm. auto.
  - intros [= <- <-]. split; [eexists; reflexivity|]. split; [exact Hvalid|left; reflexivity].
Qed.

(** X21. Whatever folder is asked for, a [clone_vm] that returns hands
    back a VM that carries the new name and is in the inventory, and the
    last request it sent is the clone request of the source VM. *)
Theorem clone_vm_returns_new_vm (source_vm_name new_vm_name : string)
        (folder_name : option string) (st st' : state) (vm : VirtualMachine) :
  clone_vm run_task run_create_folder ensure_folder_path
           source_vm_name new_vm_name folder_name st = (inr vm, st') ->
  name vm = new_vm_name /\ In vm (vm_view (vc st')) /\
  exists source_vm dest earlier,
    get_vm_by_name source_vm_name st = Some source_vm /\
    requests st' = earlier ++ [Clone source_vm dest new_vm_name].
Proof.
  unfold clone_vm.
  destruct (get_vm_by_name source_vm_name st) as [source_vm|] eqn:Hsrc; [|discriminate].
  destruct (datastore source_vm); [discriminate|].
  unfold bind at 1.
  destruct (destination _ _ _ _ st) as [[e|dest] s1]; [discriminate|].
  intros Hrun. apply clone_into_outcome in Hrun as [Hreq [Hname Hin]].
  split; [exact Hname|]. split; [exact Hin|].
  exists source_vm, dest, (requests s1). auto.
Qed.

(** X22. When a folder with the plain name asked for exists, [clone_vm]
    clones into it: no folder is created and no folder path is resolved. *)
Theorem clone_vm_existing_folder (source_vm_name new_vm_name fname : string)
        (source_vm : VirtualMachine) (f : Folder) (st : state) :
  get_vm_by_name source_vm_name st = Some source_vm ->
  datastore source_vm <> [] ->
  is_empty fname = false ->
  contains_slash fname = false ->
  get_folder_by_name fname st = Some f ->
  clone_vm run_task run_create_folder ensure_folder_path
           source_vm_name new_vm_name (Some fname) st
  = clone_into run_task source_vm f new_vm_name st.
Proof.
  intros Hsrc Hds He Hs Hf. unfold clone_vm. rewrite Hsrc.
  destruct (datastore source_vm); [congruence|].
  unfold bind at 1, destination. rewrite He, Hs.
  unfold bind at 1. rewrite Hf. reflexivity.
Qed.

End Facts.

Lemma guard_twice_witness :
  guard ready_vm (state_of SessionValid [golden; ready_vm])
  = (inr ready_vm, state_of SessionValid [golden; ready_vm]).
Proof.
  destruct (guard_twice ready_vm ready_vm
              (state_of SessionExpired [golden; ready_vm])
              (state_of SessionValid [golden; ready_vm]) eq_refl) as [_ H].
  exact H.
Defined.

Lemma power_task_errors_witness :
  power_off_vm failing_task running_vm (state_of SessionValid [running_vm])
  = (inl (VMPowerOffError "[Dev] VMInit_0a1b2c3d" poweredOn),
     after_request (state_of SessionValid [running_vm]) (PowerOff running_vm)
                   (vc (state_of SessionValid [running_vm]))).
Proof.
  destruct (power_task_errors failing_task running_vm (state_of SessionValid [running_vm])
              "The operation is not allowed in the current state."
              (vc (state_of SessionValid [running_vm])) eq_refl) as (_ & Hoff & _).
  apply Hoff; [discriminate|reflexivity].
Defined.

Lemma power_request_raises_witness :
  power_on_vm raising_task ready_vm (state_of SessionValid [ready_vm])
  = (inl (SdkError "InvalidPowerState"),
     after_request (state_of SessionValid [ready_vm]) (PowerOn ready_vm)
                   (vc (state_of SessionValid [ready_vm]))).
Proof.
  destruct (power_request_raises raising_task ready_vm (state_of SessionValid [ready_vm])
              (SdkError "InvalidPowerState")
              (vc (state_of SessionValid [ready_vm])) eq_refl) as (Hon & _ & _).
  apply Hon; [discriminate|reflexivity].
Defined.

Lemma clone_vm_errors_witness :
  is_clone_error "[Dev] VMInit_0a1b2c3d"
    (VMCloneError "[Dev] VMInit_0a1b2c3d"
       "Task failed: The operation is not allowed in the current state.").
Proof.
  destruct (clone_vm_errors failing_task refuse_folder no_path
              "[Dev] Golden" "[Dev] VMInit_0a1b2c3d"
              (state_of SessionValid [golden])
              (snd (clone_vm failing_task refuse_folder no_path
                             "[Dev] Golden" "[Dev] VMInit_0a1b2c3d" None
                             (state_of SessionValid [golden])))
              (VMCloneError "[Dev] VMInit_0a1b2c3d"
                 "Task failed: The operation is not allowed in the current state.")
              eq_refl) as [H _].
  - intros req r v [= _ <-]. reflexivity.
  - reflexivity.
  - exact H.
Defined.

Lemma clone_vm_returns_new_vm_witness :
  In {| name := "[Dev] VMInit_0a1b2c3d"; runtime_powerState := poweredOff;
        parent := env_folder; resourcePool := "pool"; datastore := ["NFS_Raid"%string] |}
     (vm_view (vc (snd (clone_vm obliging_task refuse_folder no_path
                                 "[Dev] Golden" "[Dev] VMInit_0a1b2c3d" None
                                 (state_of SessionValid [golden]))))).
Proof.
  destruct (clone_vm_returns_new_vm obliging_task refuse_folder no_path
              "[Dev] Golden" "[Dev] VMInit_0a1b2c3d" None
              (state_of SessionValid [golden])
              (snd (clone_vm obliging_task refuse_folder no_path
                             "[Dev] Golden" "[Dev] VMInit_0a1b2c3d" None
                             (state_of SessionValid [golden])))
              {| name := "[Dev] VMInit_0a1b2c3d"; runtime_powerState := poweredOff;
                 parent := env_folder; resourcePool := "pool";
                 datastore := ["NFS_Raid"%string] |}
              eq_refl) as (_ & Hin & _).
  exact Hin.
Defined.

Lemma clone_vm_existing_folder_witness :
  fst (clone_vm obliging_task refuse_folder no_path "[Dev] Golden" "[Dev] VMInit_0a1b2c3d"
                (Some "LoginVMs"%string) (state_with_folder [golden]))
  = inr {| name := "[Dev] VMInit_0a1b2c3d"; runtime_powerState := poweredOff;
           parent := login_folder; resourcePool := "pool";
           datastore := ["NFS_Raid"%string] |}.
Proof.
  rewrite (clone_vm_existing_folder obliging_task refuse_folder no_path
             "[Dev] Golden" "[Dev] VMInit_0a1b2c3d" "LoginVMs" golden login_folder
             (state_with_folder [golden])
             eq_refl ltac:(discriminate) eq_refl eq_refl eq_refl).
  reflexivity.
Defined.

Lemma noop_on_target_valid_witness :
  exists st',
    power_call obliging_task OpPowerOff ready_vm (state_of SessionValid [golden; ready_vm])
    = (inr tt, st') /\
    requests st' = requests (state_of SessionValid [golden; ready_vm]) /\
    vm_view (vc st') = vm_view (vc (state_of SessionValid [golden; ready_vm])).
Proof.
  apply (noop_on_target_valid obliging_task OpPowerOff ready_vm
           (state_of SessionValid [golden; ready_vm]) eq_refl eq_refl).
Defined.

End ManagerFacts.

(* ===================================================================== *)
(** * CloneWorker: retries, the tutorial phase, cleanup, results *)
(* ===================================================================== *)

Module WorkerFacts.

Import Effect Builder.
Local Open Scope effect_scope.

(** A world in which the first clone requests fail and power-off always
    fails. *)
Record flaky : Type := { clone_failures_left : nat }.

#[local] Instance flaky_pool : Pool flaky string := {
  connect := fun w => (inr tt, w);
  disconnect := fun w => (inr tt, w);
  clone_vm := fun _ new_name _ w =>
    match clone_failures_left w with
    | O => (inr new_name, w)
    | S n => (inl (Error "clone failed"), {| clone_failures_left := n |})
    end;
  power_on_vm := fun _ w => (inr tt, w);
  wait_for_vm_ready := fun _ _ w => (inr "10.0.0.1"%string, w);
  power_off_vm := fun _ w => (inl (Error "off"), w);
  mark_ready := fun _ w => (inr tt, w);
  mark_fault := fun _ w => (inr tt, w);
  restart_vm := fun _ w => (inr "10.0.0.1"%string, w);
  ensure_nsx_alive := fun w => w;
  bliss_init_setup := fun _ w => (inr tt, w);
  game_tutorial := fun _ _ w => (inr tt, w);
  name_of := fun v => v
}.

Section Facts.

Context {W VM : Type} `{Pool W VM}.
Variable cfg : settings.

Local Abbreviation worker := (@Builder.worker W VM).
Local Abbreviation Run := (@Builder.Run W VM).

(** At most [n] results are posted by [m]. *)
Definition posts_at_most {A : Type} (n : nat) (m : Run A) : Prop :=
  forall (s s' : worker) (r : exn + A),
    m s = (r, s') ->
    exists rs, result_q s' = result_q s ++ rs /\ (length rs <= n)%nat.

(** The calls of a retried pool call: the same call, at most [retries]
    times. *)
Lemma retry_loop_calls {A : Type} (c : call) (op : option VM -> W -> (exn + A) * W)
      (retries : Z) (left : nat) (attempt : Z) (s s' : worker) (r : exn + option A) :
  retry_loop (on_vm c op) retries left attempt s = (r, s') ->
  exists k, calls s' = calls s ++ repeat c k /\ (k <= left)%nat /\
            result_q s' = result_q s /\ vm s' = vm s.
Proof.
  revert attempt s. induction left as [|left IH]; intros attempt s; simpl.
  - intros [= <- <-]. exists 0%nat. rewrite app_nil_r. auto.
  - destruct (on_vm c op s) as [[e|a] s1] eqn:Hrun;
      apply call_pool_effect in Hrun as (Hc & Hq & Hv).
    + destruct (attempt =? retries).
      * intros [= <- <-]. exists 1%nat. split; [exact Hc|]. split; [lia|auto].
      * intros Hrest. apply IH in Hrest as (k & Hc' & Hk & Hq' & Hv').
        exists (S k). rewrite Hc', Hc, <- app_assoc. simpl.
        split; [reflexivity|]. split; [lia|]. split; congruence.
    + intros [= <- <-]. exists 1%nat. split; [exact Hc|]. split; [lia|auto].
Qed.

Lemma game_attempts_success (attempts : list Z) (ip : option string) (s s' : worker) :
  game_attempts (attempts ++ [3]) ip s = (inr tt, s') ->
  exists ip1 s1, game_run ip1 s1 = (inr tt, s').
Proof.
  revert ip s. induction attempts as [|attempt rest IH]; intros ip s; simpl.
  - destruct (game_run ip s) as [[e|[]] s1] eqn:Hrun; [discriminate|].
    intros [= <-]. eauto.
  - destruct (game_run ip s) as [[e|[]] s1] eqn:Hrun.
    + destruct (attempt =? 3); [discriminate|].
      unfold bind.
      destruct (on_vm CallRestartVm restart_vm s1) as [[e1|?] s2]; [discriminate|].
      destruct (on_vm CallWaitForVmReady (wait_for_vm_ready 300) s2) as [[e2|ip'] s3];
        [discriminate|].
      apply IH.
    + intros [= <-]. eauto.
Qed.

(** X26. [_game_init] returns only after a run of the tutorial that
    succeeded; three failures make it raise.  (Unlike [_bliss_init] it has
    no path that falls out of the loop.) *)
Theorem game_init_returns_after_success (ip : option string) (s s' : worker) :
  _game_init ip s = (inr tt, s') ->
  exists ip1 s1, game_run ip1 s1 = (inr tt, s') /\ vm s' <> None.
Proof.
  intros Hrun. unfold _game_init in Hrun.
  apply (game_attempts_success [1; 2]) in Hrun as (ip1 & s1 & Hgame).
  exists ip1, s1. split; [exact Hgame|].
  unfold game_run in Hgame. destruct (vm s1) as [v|] eqn:Hv; [|discriminate].
  apply call_pool_effect in Hgame as (_ & _ & Hvm). congruence.
Qed.

Lemma bliss_attempts_runs (attempts : list Z) (addr : string)
      (s s' : worker) (r : exn + option string) :
  bliss_attempts attempts (Some addr) s = (r, s') ->
  exists evs,
    calls s' = calls s ++ evs /\
    (count_bliss evs <= length attempts)%nat /\
    (attempts <> [] -> (1 <= count_bliss evs)%nat) /\
    (r = inr None -> count_bliss evs = length attempts).
Proof.
  revert addr s. induction attempts as [|attempt rest IH]; intros addr s; simpl.
  - intros [= <- <-]. exists []. rewrite app_nil_r. simpl.
    split; [reflexivity|]. split; [lia|]. split; [congruence|reflexivity].
  - destruct (call_pool CallBlissInit (bliss_init_setup (Some addr)) s)
      as [[e|a] s1] eqn:Hrun; apply call_pool_effect in Hrun as (Hc1 & _ & _).
    + destruct (is_timeout e).
      * intros Hrest. apply IH in Hrest as (evs & Hc & Hn & _ & Hnone).
        exists (CallBlissInit :: evs). rewrite Hc, Hc1, <- app_assoc.
        split; [reflexivity|]. simpl.
        split; [lia|]. split; [lia|]. intros Hr. rewrite (Hnone Hr). reflexivity.
      * destruct (attempt =? 3).
        -- intros [= <- <-]. exists [CallBlissInit]. split; [exact Hc1|]. simpl.
           split; [lia|]. split; [lia|discriminate].
        -- unfold bind, on_vm.
           destruct (call_pool CallEnsureNsxAlive _ s1) as [[e1|?] s2] eqn:H2;
             apply call_pool_effect in H2 as (Hc2 & _ & _);
             [intros [= <- <-]; exists [CallBlissInit; CallEnsureNsxAlive];
              rewrite Hc2, Hc1, <- app_assoc; split; [reflexivity|simpl];
              split; [lia|]; split; [lia|discriminate]|].
           destruct (call_pool CallRestartVm _ s2) as [[e2|?] s3] eqn:H3;
             apply call_pool_effect in H3 as (Hc3 & _ & _);
             [intros [= <- <-];
              exists [CallBlissInit; CallEnsureNsxAlive; CallRestartVm];
              rewrite Hc3, Hc2, Hc1, <- !app_assoc; split; [reflexivity|simpl];
              split; [lia|]; split; [lia|discriminate]|].
           destruct (call_pool CallWaitForVmReady _ s3) as [[e3|ip'] s4] eqn:H4;
             apply call_pool_effect in H4 as (Hc4 & _ & _);
             [intros [= <- <-];
              exists [CallBlissInit; CallEnsureNsxAlive; CallRestartVm; CallWaitForVmReady];
              rewrite Hc4, Hc3, Hc2, Hc1, <- !app_assoc; split; [reflexivity|simpl];
              split; [lia|]; split; [lia|discriminate]|].
           intros Hrest. apply IH in Hrest as (evs & Hc & Hn & _ & Hnone).
           exists ([CallBlissInit; CallEnsureNsxAlive; CallRestartVm; CallWaitForVmReady]
                     ++ evs).
           rewrite Hc, Hc4, Hc3, Hc2, Hc1, <- !app_assoc.
           split; [reflexivity|]. rewrite count_bliss_app. simpl.
           split; [lia|]. split; [lia|]. intros Hr. rewrite (Hnone Hr). reflexivity.
    + intros [= <- <-]. exists [CallBlissInit]. split; [exact Hc1|]. simpl.
      split; [lia|]. split; [lia|discriminate].
Qed.

(** X30. Given an address, [_bliss_init] runs the guest bootstrap at
    least once and at most three times, and it comes back with [None]
    (the loop fell through) only after three runs. *)
Theorem bliss_init_runs (addr : string) (s s' : worker) (r : exn + option string) :
  _bliss_init (Some addr) s = (r, s') ->
  exists evs,
    calls s' = calls s ++ evs /\
    (1 <= count_bliss evs <= 3)%nat /\
    (r = inr None -> count_bliss evs = 3%nat).
Proof.
  intros Hrun. apply bliss_attempts_runs in Hrun as (evs & Hc & Hle & Hge & Hnone).
  exists evs. split; [exact Hc|]. split; [|exact Hnone].
  split; [apply Hge; discriminate|exact Hle].
Qed.

(** ** Cleanup *)

Lemma cleanup_inner_calls (s : worker) (v : VM) :
  vm s = Some v ->
  exists s1 k (r : exn + unit),
    (try_except
       (retry_sync (on_vm CallPowerOffVm power_off_vm) (retries cfg) ;; ret tt)
       (fun _ => ret tt) ;;
     on_vm CallMarkFault mark_fault) s = (r, s1) /\
    calls s1 = calls s ++ repeat CallPowerOffVm k ++ [CallMarkFault] /\
    (Z.of_nat k <= Z.max 0 (retries cfg)) /\
    result_q s1 = result_q s.
Proof.
  intros Hv. unfold bind at 1, try_except, bind, retry_sync.
  destruct (retry_loop (on_vm CallPowerOffVm power_off_vm) (retries cfg)
                       (Z.to_nat (retries cfg)) 1 s) as [r0 s0] eqn:Hretry.
  apply retry_loop_calls in Hretry as (k & Hc & Hk & Hq & _).
  assert (Hstep : forall (r1 : exn + unit) s1,
             on_vm CallMarkFault mark_fault s0 = (r1, s1) ->
             calls s1 = calls s ++ repeat CallPowerOffVm k ++ [CallMarkFault] /\
             result_q s1 = result_q s).
  { intros r1 s1 Hm. apply call_pool_effect in Hm as (Hc1 & Hq1 & _).
    rewrite Hc1, Hc, Hq1, Hq, <- app_assoc. auto. }
  destruct (on_vm CallMarkFault mark_fault s0) as [r1 s1] eqn:Hm.
  destruct (Hstep _ _ eq_refl) as [Hc1 Hq1].
  exists s1, k, r1. split.
  - destruct r0 as [e|?]; cbn; exact Hm.
  - split; [exact Hc1|]. split; [lia|exact Hq1].
Qed.

(** X27. Cleanup after a clone that returned a VM: once the new session
    is open, [mark_fault] is called whether the retried power-off worked
    or not, after at most [retries] power-off calls, and one 'err' result
    is posted last. *)
Theorem cleanup_marks_fault (exc : exn) (s : worker) (v : VM) (w1 : W) :
  vm s = Some v ->
  connect (world s) = (inr tt, w1) ->
  exists s' k,
    _cleanup_on_error cfg exc s = (inr tt, s') /\
    calls s' = calls s ++ [CallConnect] ++ repeat CallPowerOffVm k
                       ++ [CallMarkFault; CallDisconnect;
                           CallPut (err_result cfg (format_exc exc))] /\
    Z.of_nat k <= Z.max 0 (retries cfg) /\
    result_q s' = result_q s ++ [err_result cfg (format_exc exc)].
Proof.
  intros Hv Hconn.
  unfold _cleanup_on_error, with_pool.
  unfold bind at 1, try_except at 1, bind at 1.
  unfold call_pool at 1. rewrite Hconn.
  set (s0 := {| world := w1; vm := vm s; result_q := result_q s;
                calls := calls s ++ [CallConnect] |}).
  assert (Hv0 : vm s0 = Some v) by exact Hv.
  rewrite Hv0.
  destruct (cleanup_inner_calls s0 v Hv0) as (s1 & k & r & Hrun & Hc & Hk & Hq).
  rewrite Hrun.
  destruct (call_pool CallDisconnect disconnect s1) as [rd s2] eqn:Hd.
  apply call_pool_effect in Hd as (Hc2 & Hq2 & _).
  exists {| world := world s2; vm := vm s2;
            result_q := result_q s2 ++ [err_result cfg (format_exc exc)];
            calls := calls s2 ++ [CallPut (err_result cfg (format_exc exc))] |}, k.
  split.
  - destruct rd as [e|[]], r as [e'|[]]; reflexivity.
  - simpl. rewrite Hc2, Hc, Hq2, Hq. subst s0. simpl.
    rewrite <- !app_assoc. auto.
Qed.

(** ** How many results a run posts *)

Lemma posts_at_most_quiet {A : Type} (m : Run A) :
  appends not_put m -> posts_at_most 0 m.
Proof.
  intros Hm s s' r Hrun. destruct (Hm _ _ _ Hrun) as (evs & _ & Hnp & Hq).
  rewrite (posted_not_put _ Hnp) in Hq. exists []. auto.
Qed.

Lemma posts_at_most_bind {A B : Type} (a b : nat) (m : Run A) (k : A -> Run B) :
  posts_at_most a m -> (forall x, posts_at_most b (k x)) ->
  posts_at_most (a + b) (bind m k).
Proof.
  intros Hm Hk s s' r. unfold bind.
  destruct (m s) as [[e|x] s1] eqn:Hrun.
  - intros [= <- <-]. destruct (Hm _ _ _ Hrun) as (rs & Hq & Hlen).
    exists rs. split; [exact Hq|lia].
  - intros Hrest. destruct (Hm _ _ _ Hrun) as (rs & Hq & Hlen).
    destruct (Hk x _ _ _ Hrest) as (rs' & Hq' & Hlen').
    exists (rs ++ rs'). rewrite Hq', Hq, <- app_assoc, length_app.
    split; [reflexivity|lia].
Qed.

Lemma posts_at_most_put (r : WorkerResult) : posts_at_most 1 (put r).
Proof.
  intros s s' r0 [= <- <-]. exists [r]. simpl. auto.
Qed.

Lemma posts_at_most_prepare_vm : posts_at_most 2 (prepare_vm cfg).
Proof.
  intros s s' r Hrun.
  unfold prepare_vm, with_pool in Hrun.
  unfold bind at 1 in Hrun.
  destruct (call_pool CallConnect connect s) as [[e|?] s1] eqn:Hc.
  - injection Hrun as <- <-. apply call_pool_effect in Hc as (_ & Hq & _).
    exists []. rewrite Hq, app_nil_r. auto.
  - apply call_pool_effect in Hc as (_ & Hq1 & _).
    destruct ((build cfg ;; finish cfg) s1) as [rb s2] eqn:Hbody.
    assert (Hb : posts_at_most 2 (build cfg ;; finish cfg)).
    { apply (posts_at_most_bind 0 2).
      - apply posts_at_most_quiet, (appends_weaken early); [exact early_not_put|].
        apply appends_build.
      - intros _. unfold finish.
        apply (posts_at_most_bind 0 2);
          [apply posts_at_most_quiet, appends_on_vm; exact I|intros _].
        apply (posts_at_most_bind 0 2);
          [apply posts_at_most_quiet, appends_on_vm; exact I|intros _].
        apply (posts_at_most_bind 1 1); [apply posts_at_most_put|intros _].
        apply (posts_at_most_bind 0 1);
          [apply posts_at_most_quiet, appends_retry_sync, appends_on_vm; exact I|intros _].
        apply (posts_at_most_bind 0 1);
          [apply posts_at_most_quiet, appends_retry_sync, appends_on_vm; exact I|intros _].
        apply posts_at_most_put. }
    destruct (Hb _ _ _ Hbody) as (rs & Hq2 & Hlen).
    destruct (call_pool CallDisconnect disconnect s2) as [rd s3] eqn:Hd.
    apply call_pool_effect in Hd as (_ & Hq3 & _).
    exists rs. split; [|exact Hlen].
    destruct rd as [e|?]; injection Hrun as <- <-; rewrite Hq3, Hq2, Hq1; reflexivity.
Qed.

(** The [try ... except] of [run], for pool calls that all come back. *)
Lemma run_posts (s : worker) :
  exists s' oks final,
    run cfg s = (inr tt, s') /\
    result_q s' = result_q s ++ oks ++ [final] /\
    Forall (eq (ok_result cfg)) oks /\ (length oks <= 2)%nat /\
    (result_status final = err <-> exists e s1, prepare_vm cfg s = (inl e, s1)).
Proof.
  destruct (prepare_vm cfg s) as [[e|[]] s1] eqn:Hrun.
  - destruct (appends_prepare_vm cfg _ _ _ Hrun) as (evs & _ & Hok & Hq).
    destruct (posts_at_most_prepare_vm _ _ _ Hrun) as (rs & Hq' & Hlen).
    rewrite Hq in Hq'. apply app_inv_head in Hq'. subst rs.
    destruct (cleanup_posts_err cfg e s1) as (s' & Hclean & Hqc).
    exists s', (posted evs), (err_result cfg (format_exc e)).
    split; [unfold run, try_except; rewrite Hrun; exact Hclean|].
    split; [rewrite Hqc, Hq, <- app_assoc; reflexivity|].
    split; [apply posted_posting_ok, Hok|]. split; [exact Hlen|].
    split; [eauto|reflexivity].
  - destruct (prepare_vm_success cfg _ _ Hrun) as (? & ? & _ & _ & _ & Hq).
    exists s1, [ok_result cfg], (ok_result cfg).
    split; [unfold run, try_except; rewrite Hrun; reflexivity|].
    split; [exact Hq|]. split; [repeat constructor|]. split; [simpl; lia|].
    split; [discriminate|]. intros (e & s2 & Hc). discriminate.
Qed.

(** ** The entry point of the subprocess *)

(** Something the worker does outside the pool: nothing is recorded. *)
Definition aside (op : W -> (exn + unit) * W) : Run unit :=
  fun s =>
    let '(r, w) := op (world s) in
    (r, {| world := w; vm := vm s; result_q := result_q s; calls := calls s |}).

(** [try: body finally: final]: [final] runs whatever [body] did; when it
    raises, its error is the outcome, otherwise the outcome of [body]. *)
Definition try_finally {A : Type} (body : Run A) (final : Run unit) : Run A :=
  fun s =>
    let '(r, s1) := body s in
    match final s1 with
    | (inl e, s2) => (inl e, s2)
    | (inr _, s2) => (r, s2)
    end.

(** [CloneWorker(task, result_q)], which reads the settings and sets up the
    logger, and [worker.stop_logger()]. *)
Variable construct : W -> (exn + unit) * W.
Variable stop_logger : W -> (exn + unit) * W.

(** [CloneWorker.run] as a whole: the constructor is outside the [try],
    [stop_logger] in its [finally].  Every call comes back here, with a
    value or an error; a run in which a call never comes back (as
    [wait_for_task] can, polling without a deadline) does not end and is
    outside this model. *)
Definition CloneWorker_run : Run unit :=
  aside construct ;;
  try_finally (run cfg) (aside stop_logger).

(** X28. A run of the worker that comes to an end has posted nothing when
    the constructor raised; otherwise it has posted at least one result and
    at most three, whether [stop_logger] raised or not: 'ok' results, at
    most two, followed by one last result, which is 'err' exactly when
    [prepare_vm] raised. *)
Theorem run_posts_one_to_three (s s' : worker) (r : exn + unit) :
  CloneWorker_run s = (r, s') ->
  match aside construct s with
  | (inl e, _) => r = inl e /\ result_q s' = result_q s
  | (inr _, s0) =>
      exists oks final,
        result_q s' = result_q s ++ oks ++ [final] /\
        Forall (eq (ok_result cfg)) oks /\ (length oks <= 2)%nat /\
        (result_status final = err <-> exists e s1, prepare_vm cfg s0 = (inl e, s1))
  end.
Proof.
  unfold CloneWorker_run, bind.
  destruct (aside construct s) as [[e|[]] s0] eqn:Hc.
  - intros [= <- <-]. split; [reflexivity|].
    unfold aside in Hc. destruct (construct (world s)). injection Hc as _ <-. reflexivity.
  - assert (Hq0 : result_q s0 = result_q s).
    { unfold aside in Hc. destruct (construct (world s)). injection Hc as _ <-. reflexivity. }
    destruct (run_posts s0) as (s1 & oks & final & Hrun & Hq & Hoks & Hlen & Hfinal).
    unfold try_finally. rewrite Hrun.
    assert (Hq2 : forall r2 s2, aside stop_logger s1 = (r2, s2) -> result_q s2 = result_q s1).
    { intros r2 s2 Hs. unfold aside in Hs. destruct (stop_logger (world s1)).
      injection Hs as _ <-. reflexivity. }
    destruct (aside stop_logger s1) as [r2 s2] eqn:Hs.
    specialize (Hq2 _ _ eq_refl).
    intros Hend. exists oks, final.
    assert (Hs' : result_q s' = result_q s2) by (destruct r2; injection Hend as _ <-; reflexivity).
    rewrite Hs', Hq2, Hq, Hq0. auto.
Qed.

End Facts.

Lemma game_init_returns_after_success_witness :
  exists ip1 s1,
    game_run (H:=scripted_pool) ip1 s1
    = (inr tt, snd (_game_init (H:=scripted_pool) (Some "10.0.0.1"%string)
                      {| world := all_fine; vm := Some "[Dev] VMInit_0a1b2c3d"%string;
                         result_q := []; calls := [] |})) /\
    vm (snd (_game_init (H:=scripted_pool) (Some "10.0.0.1"%string)
               {| world := all_fine; vm := Some "[Dev] VMInit_0a1b2c3d"%string;
                  result_q := []; calls := [] |})) <> None.
Proof.
  apply (game_init_returns_after_success (H:=scripted_pool) (Some "10.0.0.1"%string)
           {| world := all_fine; vm := Some "[Dev] VMInit_0a1b2c3d"%string;
              result_q := []; calls := [] |}).
  reflexivity.
Defined.

Lemma cleanup_marks_fault_witness :
  calls (snd (_cleanup_on_error (H:=flaky_pool) cfg0 (Error "boom")
                {| world := {| clone_failures_left := 0 |};
                   vm := Some "[Dev] VMInit_0a1b2c3d"%string;
                   result_q := []; calls := [] |}))
  = [CallConnect; CallPowerOffVm; CallPowerOffVm; CallPowerOffVm; CallMarkFault;
     CallDisconnect; CallPut (err_result cfg0 "boom")].
Proof.
  destruct (cleanup_marks_fault (H:=flaky_pool) cfg0 (Error "boom")
              {| world := {| clone_failures_left := 0 |};
                 vm := Some "[Dev] VMInit_0a1b2c3d"%string;
                 result_q := []; calls := [] |}
              "[Dev] VMInit_0a1b2c3d" {| clone_failures_left := 0 |} eq_refl eq_refl)
    as (s' & k & Hrun & _).
  rewrite Hrun. vm_compute in Hrun. injection Hrun as <-. reflexivity.
Defined.

Lemma run_posts_one_to_three_witness :
  let run_it :=
    CloneWorker_run (H:=scripted_pool) cfg0
                    (fun w => (inr tt, w)) (fun w => (inl (Error "log"), w)) in
  exists oks final,
    result_q (snd (run_it (new_worker power_off_breaks)))
    = result_q (new_worker (VM:=string) power_off_breaks) ++ oks ++ [final] /\
    Forall (eq (ok_result cfg0)) oks /\ (length oks <= 2)%nat /\
    (result_status final = err <->
     exists e s1, prepare_vm (H:=scripted_pool) cfg0 (new_worker power_off_breaks)
                  = (inl e, s1)).
Proof.
  exact (run_posts_one_to_three (H:=scripted_pool) cfg0
           (fun w => (inr tt, w)) (fun w => (inl (Error "log"), w))
           (new_worker power_off_breaks) _ _ (surjective_pairing _)).
Defined.

Lemma bliss_init_runs_witness :
  exists evs,
    calls (snd (_bliss_init (H:=scripted_pool) (Some "10.0.0.1"%string)
                  (new_worker install_timeouts)))
    = calls (new_worker (VM:=string) install_timeouts) ++ evs /\
    (1 <= count_bliss evs <= 3)%nat /\
    (fst (_bliss_init (H:=scripted_pool) (Some "10.0.0.1"%string)
            (new_worker install_timeouts)) = inr None ->
     count_bliss evs = 3%nat).
Proof.
  apply (bliss_init_runs (H:=scripted_pool) "10.0.0.1" (new_worker install_timeouts)).
  reflexivity.
Defined.

End WorkerFacts.

(* ===================================================================== *)
(** * retry_sync: attempts, sleeps and what comes back *)
(* ===================================================================== *)

(** [retry_sync] of domain/builder.py and of app/utils/retry.py (the same
    loop), with everything it does: the calls of [fn], the calls of
    [time.sleep], which can raise, and the value that comes back, which is
    the one [fn] returned. *)
Module Backoff.

Section Retry.

(** States of the world, exceptions, Python values and Python floats. *)
Variables St Err Res pyfloat : Type.

(** [None]: a value like any other, which [fn] may return, and what a
    function that ends without [return] gives back. *)
Variable none : Res.

(** [fn()] *)
Variable fn : St -> (Err + Res) * St.

(** [time.sleep(backoff * 2 ** e)], for the setting [backoff] (a float
    that the configuration does not validate) and the exponent [e]: the
    interpreter's own, so a parameter here.  It returns when the time has
    passed, or raises: [ValueError] for a negative or NaN product,
    [OverflowError] for one that is too large. *)
Variable sleep : pyfloat -> Z -> St -> (Err + unit) * St.

Variable backoff : pyfloat.

(** What [retry_sync] does, in order. *)
Inductive event : Type :=
| Called
| Slept (b : pyfloat) (e : Z).

Record run : Type := {
  state : St;
  events : list event
}.

(** The loop over [range(1, retries + 1)], by the iterations left.  An
    error of [time.sleep] is raised inside the [except] block and leaves
    the function. *)
Fixpoint retry_loop (retries : Z) (left : nat) (attempt : Z) (c : run)
  : (Err + Res) * run :=
  match left with
  | O => (inr none, c)
  | S n =>
      let '(r, s1) := fn (state c) in
      let c1 := {| state := s1; events := events c ++ [Called] |} in
      match r with
      | inr a => (inr a, c1)
      | inl e =>
          if attempt =? retries then (inl e, c1)
          else
            let '(r2, s2) := sleep backoff (attempt - 1) s1 in
            let c2 := {| state := s2;
                         events := events c1 ++ [Slept backoff (attempt - 1)] |} in
            match r2 with
            | inl e2 => (inl e2, c2)
            | inr _ => retry_loop retries n (attempt + 1) c2
            end
      end
  end.

Definition retry_sync (retries : Z) (c : run) : (Err + Res) * run :=
  retry_loop retries (Z.to_nat retries) 1 c.


(** [k] failed attempts from attempt [a] on: a call, a sleep of
    [backoff * 2 ** (a - 1)], a call, a sleep twice as long, ... *)
Definition schedule_from (a : Z) (k : nat) : list event :=
  flat_map (fun i => [Called; Slept backoff (a - 1 + Z.of_nat i)]) (seq 0 k).

Definition schedule (k : nat) : list event := schedule_from 1 k.

Lemma schedule_from_S (a : Z) (k : nat) :
  schedule_from a (S k) = Called :: Slept backoff (a - 1) :: schedule_from (a + 1) k.
Proof.
  unfold schedule_from. cbn [seq flat_map app].
  rewrite Z.add_0_r. do 2 f_equal.
  rewrite <- seq_shift, !flat_map_concat_map, map_map. f_equal.
  apply map_ext. intros i. do 3 f_equal. lia.
Qed.







Lemma retry_loop_schedule (retries : Z) (left : nat) (a : Z) (c : run) :
  (0 < left)%nat -> a + Z.of_nat left = retries + 1 ->
  exists (k : nat) (last : list event),
    events (snd (retry_loop retries left a c)) = events c ++ schedule_from a k ++ last /\
    ((last = [Called] /\ (k < left)%nat) \/
     (last = [Called; Slept backoff (a - 1 + Z.of_nat k)] /\ (k + 1 < left)%nat /\
      exists e, fst (retry_loop retries left a c) = inl e)).
Proof.
  revert a c. induction left as [|left IH]; intros a c Hpos Hsum; [lia|].
  cbn [retry_loop].
  destruct (fn (state c)) as [[e|x] s1] eqn:Hfn.
  - destruct (a =? retries) eqn:Heq.
    + exists 0%nat, [Called]. split; [reflexivity|]. left. split; [reflexivity|lia].
    + apply Z.eqb_neq in Heq.
      destruct (sleep backoff (a - 1) s1) as [[e2|?] s2] eqn:Hsl.
      * exists 0%nat, [Called; Slept backoff (a - 1 + Z.of_nat 0)].
        split; [cbn [snd events schedule_from seq flat_map app];
                rewrite Z.add_0_r, <- app_assoc; reflexivity|].
        right. split; [reflexivity|]. split; [lia|]. exists e2. reflexivity.
      * cbn [events].
        destruct (IH (a + 1)
                     {| state := s2;
                        events := (events c ++ [Called]) ++ [Slept backoff (a - 1)] |})
          as (k & last & Hev & Hcase); [lia|lia|].
        exists (S k), last. split.
        -- rewrite Hev. cbn [events]. rewrite schedule_from_S.
           rewrite <- !app_assoc. reflexivity.
        -- destruct Hcase as [[-> Hk]|(-> & Hk & He)].
           ++ left. split; [reflexivity|lia].
           ++ right. split; [do 3 f_equal; lia|]. split; [lia|exact He].
  - exists 0%nat, [Called]. split; [reflexivity|]. left. split; [reflexivity|lia].
Qed.

(** X29. Whatever [fn] and [time.sleep] do, the calls and the sleeps of
    [retry_sync] alternate: a call, a sleep of [backoff], a call, a sleep
    of [2 * backoff], and so on, the sleep after attempt [i] being
    [backoff * 2 ** (i - 1)].  It ends with a call, the last of at most
    [retries], with no sleep after it, or with a sleep that raised before
    attempt [retries] was reached; with [retries <= 0] nothing happens. *)
Theorem retry_sync_backoff (retries : Z) (c : run) :
  exists (k : nat) (last : list event),
    events (snd (retry_sync retries c)) = events c ++ schedule k ++ last /\
    ((retries <= 0 /\ k = 0%nat /\ last = []) \/
     (last = [Called] /\ Z.of_nat k < retries) \/
     (last = [Called; Slept backoff (Z.of_nat k)] /\ Z.of_nat k + 1 < retries /\
      exists e, fst (retry_sync retries c) = inl e)).
Proof.
  unfold retry_sync, schedule.
  destruct (Z_le_gt_dec retries 0) as [Hle|Hgt].
  - exists 0%nat, []. replace (Z.to_nat retries) with 0%nat by lia.
    split; [cbn; rewrite app_nil_r; reflexivity|]. left. auto.
  - destruct (retry_loop_schedule retries (Z.to_nat retries) 1 c)
      as (k & last & Hev & Hcase); [lia|lia|].
    exists k, last. split; [exact Hev|]. right.
    destruct Hcase as [[-> Hk]|(-> & Hk & He)].
    + left. split; [reflexivity|lia].
    + right. split; [reflexivity|]. split; [lia|exact He].
Qed.

End Retry.

(** A concrete world: the number of failures [fn] still has in store; the
    back-off in whole seconds; a sleep of negative length raises. *)
Definition flaky_fn (n : nat) : (string + option string) * nat :=
  match n with
  | O => (inr (Some "vm"%string), n)
  | S m => (inl "clone failed"%string, m)
  end.

Definition sleep_seconds (b e : Z) (n : nat) : (string + unit) * nat :=
  if b * 2 ^ e <? 0 then (inl "ValueError: sleep length must be non-negative"%string, n)
  else (inr tt, n).

(** Two failures, then a value: sleeps of [backoff] and [2 * backoff]. *)
Example two_failures :
  retry_sync nat string (option string) Z None flaky_fn sleep_seconds 2
             3 {| state := 2%nat; events := [] |}
  = (inr (Some "vm"%string),
     {| state := 0%nat;
        events := [Called Z; Slept Z 2 0; Called Z; Slept Z 2 1; Called Z] |}).
Proof. reflexivity. Qed.

(** A negative back-off: the first sleep raises and [fn] is called once. *)
Example negative_backoff :
  retry_sync nat string (option string) Z None flaky_fn sleep_seconds (-1)
             3 {| state := 2%nat; events := [] |}
  = (inl "ValueError: sleep length must be non-negative"%string,
     {| state := 1%nat; events := [Called Z; Slept Z (-1) 0] |}).
Proof. reflexivity. Qed.



End Backoff.
